(** * KIIAREN domain trust: DNS verification, invite links, provider hooks

    A shallow embedding of the domain-verification action
    ([convex/domainActions.ts]), the domain hooks ([use-domains]), the
    workspace transformation ([use-workspaces]) and the data model of
    [packages/core/src/domain/types.ts].

    Conventions.
    - A JavaScript string is the list of its UTF-16 code units.
    - An [async] function that may throw is a computation in a state and
      exception monad [Eff S A]; [try]/[catch] is [try_catch].
    - A Convex table is a finite map from document ids to documents.
    - Built-ins and the network ([encodeURIComponent], [fetch],
      [Date.now]) are read from an environment record. *)

From Stdlib Require Import NArith ZArith List Bool Lia.
From Stdlib Require Import Ascii String DecimalString.
From stdpp Require Import base decidable option list gmap fin_maps.

Open Scope N_scope.
Open Scope list_scope.

(** ** JavaScript strings *)

Abbreviation jsstring := (list N) (only parsing).

(** An ASCII literal as a JavaScript string. *)
Definition lit (s : string) : jsstring :=
  map N_of_ascii (list_ascii_of_string s).

(** [String(n)] for a non-negative integer. *)
Definition numberToString (n : N) : jsstring :=
  lit (NilZero.string_of_uint (N.to_uint n)).

Definition QUOTE : N := 34.
Definition BACKSLASH : N := 92.

(** WhiteSpace and LineTerminator code points of ECMAScript, the characters
    [String.prototype.trim] removes. *)
Definition isWhiteSpace (c : N) : bool :=
  (c =? 0x9) || (c =? 0xA) || (c =? 0xB) || (c =? 0xC) || (c =? 0xD)
  || (c =? 0x20) || (c =? 0xA0) || (c =? 0x1680)
  || ((0x2000 <=? c) && (c <=? 0x200A))
  || (c =? 0x2028) || (c =? 0x2029) || (c =? 0x202F) || (c =? 0x205F)
  || (c =? 0x3000) || (c =? 0xFEFF).

Fixpoint trimStart (s : jsstring) : jsstring :=
  match s with
  | [] => []
  | c :: rest => if isWhiteSpace c then trimStart rest else s
  end.

Fixpoint trimEnd (s : jsstring) : jsstring :=
  match s with
  | [] => []
  | c :: rest =>
      match trimEnd rest with
      | [] => if isWhiteSpace c then [] else [c]
      | r => c :: r
      end
  end.

(** [s.trim()] *)
Definition trim (s : jsstring) : jsstring := trimEnd (trimStart s).

(** The second alternative of the pattern in [stripQuotes]: a double quote
    at the very end of the input. *)
Fixpoint stripTrailingQuote (s : jsstring) : jsstring :=
  match s with
  | [] => []
  | c :: rest =>
      match rest with
      | [] => if c =? QUOTE then [] else [c]
      | _ :: _ => c :: stripTrailingQuote rest
      end
  end.

(** The first [replace] of [lookupDnsTxt]: the pattern is (start of input,
    double quote) or (double quote, end of input), with the global flag and
    the empty replacement. It removes a double quote at index 0 and,
    scanning on from after it, a double quote at the last index. *)
Definition stripQuotes (s : jsstring) : jsstring :=
  match s with
  | c :: rest => if c =? QUOTE then stripTrailingQuote rest
                 else stripTrailingQuote s
  | [] => []
  end.

(** The second [replace] of [lookupDnsTxt]: every backslash followed by a
    double quote becomes a double quote, scanning left to right without
    overlap. *)
Fixpoint unescapeQuotes (s : jsstring) : jsstring :=
  match s with
  | [] => []
  | c :: rest =>
      match rest with
      | d :: rest' =>
          if (c =? BACKSLASH) && (d =? QUOTE)
          then QUOTE :: unescapeQuotes rest'
          else c :: unescapeQuotes rest
      | [] => [c]
      end
  end.

(** [arr.join(sep)] *)
Fixpoint join (sep : jsstring) (l : list jsstring) : jsstring :=
  match l with
  | [] => []
  | [x] => x
  | x :: rest => x ++ sep ++ join sep rest
  end.

(** [x ?? d] *)
Definition nullish {A} (x : option A) (d : A) : A :=
  match x with Some v => v | None => d end.

(** [hay] contains [needle] as a contiguous substring. *)
Definition contains (hay needle : jsstring) : Prop :=
  exists pre post, hay = pre ++ needle ++ post.

(** ** Exceptions and effects *)

Inductive JsError :=
  | Error (message : jsstring)       (* [new Error(message)] *)
  | TypeError (message : jsstring)   (* a rejected [fetch] *)
  | SyntaxError (message : jsstring) (* [response.json()] on a bad body *)
  | URIError (message : jsstring).   (* [encodeURIComponent] on a lone surrogate *)

Definition message (e : JsError) : jsstring :=
  match e with
  | Error m | TypeError m | SyntaxError m | URIError m => m
  end.

Inductive Outcome (A : Type) :=
  | Returned (a : A)
  | Thrown (e : JsError).
Arguments Returned {A} a.
Arguments Thrown {A} e.

(** State and exception monad. *)
Definition Eff (S A : Type) : Type := S -> Outcome A * S.

Definition ret {S A} (a : A) : Eff S A := fun s => (Returned a, s).
Definition throw {S A} (e : JsError) : Eff S A := fun s => (Thrown e, s).
Definition bind {S A B} (m : Eff S A) (k : A -> Eff S B) : Eff S B :=
  fun s => match m s with
           | (Returned a, s') => k a s'
           | (Thrown e, s') => (Thrown e, s')
           end.
Definition try_catch {S A} (body : Eff S A) (handler : JsError -> Eff S A)
  : Eff S A :=
  fun s => match body s with
           | (Returned a, s') => (Returned a, s')
           | (Thrown e, s') => handler e s'
           end.
Definition get {S} : Eff S S := fun s => (Returned s, s).
Definition modify {S} (f : S -> S) : Eff S unit := fun s => (Returned tt, f s).
Definition liftOutcome {S A} (o : Outcome A) : Eff S A := fun s => (o, s).

Notation "'let!' x ':=' m 'in' k" := (bind m (fun x => k))
  (at level 10, x name, m at level 100, k at level 200, only parsing).
Notation "'run!' m 'in' k" := (bind m (fun _ => k))
  (at level 10, m at level 100, k at level 200, only parsing).

(** ** Data model ([packages/core/src/domain/types.ts]) *)

Inductive DomainStatus := pending | verified | failed.

Inductive Role := admin | member.

#[global] Instance DomainStatus_eq_dec : EqDecision DomainStatus.
Proof. solve_decision. Defined.
#[global] Instance Role_eq_dec : EqDecision Role.
Proof. solve_decision. Defined.

(** A row of the [domains] table; its id is the key of the table. *)
Module Domain.
Record t := mk {
  workspaceId : N;
  domain : jsstring;
  verificationToken : jsstring;
  status : DomainStatus;
  verifiedAt : option Z;
  createdAt : Z;
  createdBy : N
}.
End Domain.

Definition DNS_TXT_PREFIX : jsstring := lit "kiiaren-verification=".
Definition DNS_TXT_SUBDOMAIN : jsstring := lit "_kiiaren-verification".

Inductive InviteLinkScope :=
  | InviteLinkScopeWorkspace
  | InviteLinkScopeChannel (channelId : N).

(** A row of the invite-link table; its id is the key of the table. *)
Module InviteLink.
Record t := mk {
  workspaceId : N;
  code : jsstring;
  createdBy : N;
  createdAt : Z;
  expiresAt : Z;
  maxUses : option N;
  usedCount : N;
  scope : InviteLinkScope;
  revokedAt : option Z
}.
End InviteLink.

(** A stored workspace document, as [transformWorkspace] receives it: the
    two domain trust fields are optional. *)
Module WorkspaceDoc.
Record t := mk {
  _id : N;
  name : jsstring;
  userId : N;
  joinCode : jsstring;
  _creationTime : Z;
  domainVerified : option bool;
  joinCodeEnabled : option bool
}.
End WorkspaceDoc.

(** The provider-agnostic [Workspace] of [@kiiaren/core]. *)
Module Workspace.
Record t := mk {
  id : N;
  name : jsstring;
  ownerId : N;
  joinCode : jsstring;
  createdAt : Z;
  domainVerified : bool;
  joinCodeEnabled : bool
}.
End Workspace.

(** The database: one finite map per table. Membership rows are keyed by
    (workspace, user), the unique index the access-control helpers query. *)
Record Db := mkDb {
  domains : gmap N Domain.t;
  workspaces : gmap N WorkspaceDoc.t;
  inviteLinks : gmap N InviteLink.t;
  members : gmap (N * N) Role
}.

(** ** DNS over HTTPS ([convex/domainActions.ts]) *)

Module DnsAnswer.
Record t := mk { name : jsstring; type : N; TTL : N; data : jsstring }.
End DnsAnswer.

Module DnsResponse.
Record t := mk { Status : N; Answer : option (list DnsAnswer.t) }.
End DnsResponse.

(** An HTTP response: [json] is [None] when the body does not parse, in
    which case [response.json()] rejects. A body that parses is taken to
    have the shape the [DnsResponse] interface declares. *)
Module Response.
Record t := mk { status : N; json : option DnsResponse.t }.
Definition ok (r : t) : bool := (200 <=? status r) && (status r <=? 299).
End Response.

Inductive FetchOutcome :=
  | Rejected (e : JsError)
  | Resolved (r : Response.t).

(** What an invocation reads from outside the program. *)
Record Env := mkEnv {
  encodeURIComponent : jsstring -> Outcome jsstring;
  fetch : jsstring -> list (jsstring * jsstring) -> FetchOutcome;
  Date_now : Z
}.

(** A call of [ctx.runMutation(internal.domains.updateStatus, ...)]. *)
Record UpdateStatusArgs := mkUpdateStatusArgs {
  arg_domainId : N;
  arg_status : DomainStatus;
  arg_verifiedAt : option Z
}.

(** The state an action runs in: the database, the console, and the log of
    the status mutations it has called. *)
Record World := mkWorld {
  db : Db;
  console : list JsError;
  mutationLog : list UpdateStatusArgs
}.

Definition console_error (e : JsError) : Eff World unit :=
  modify (fun w => mkWorld (db w) (console w ++ [e]) (mutationLog w)).

Definition lookupUrl (encoded : jsstring) : jsstring :=
  lit "https://dns.google/resolve?name=" ++ encoded ++ lit "&type=TXT".

Definition lookupHeaders : list (jsstring * jsstring) :=
  [(lit "Accept", lit "application/dns-json")].

(** The map callback of [lookupDnsTxt]. *)
Definition unquote (data : jsstring) : jsstring :=
  unescapeQuotes (stripQuotes data).

Definition lookupDnsTxt (env : Env) (domain : jsstring)
  : Eff World (list jsstring) :=
  try_catch
    (let! encoded := liftOutcome (encodeURIComponent env domain) in
     let! response :=
       match fetch env (lookupUrl encoded) lookupHeaders with
       | Rejected e => throw e
       | Resolved r => ret r
       end in
     if negb (Response.ok response) then
       throw (Error (lit "DNS lookup failed: "
                       ++ numberToString (Response.status response)))
     else
       let! data :=
         match Response.json response with
         | None => throw (SyntaxError (lit "Unexpected token in JSON"))
         | Some d => ret d
         end in
       match DnsResponse.Answer data with
       | None => ret []
       | Some answer =>
           ret (map (fun a => unquote (DnsAnswer.data a))
                    (filter (fun a => DnsAnswer.type a = 16) answer))
       end)
    (fun error => run! console_error error in ret []).

(** ** The store operations the action calls

    The query and the mutation the action runs live in [convex/domains.ts];
    they are modelled from the specification. *)

(** Modelled from the spec: [api.domains.getById], the point lookup of a
    claim by id (the persistence collaborator's point-get by id). The
    action itself checks no role; it acts on whatever claim the query
    returns. *)
Definition getById (domainId : N) (d : Db) : option Domain.t :=
  domains d !! domainId.

Definition setTrust (dv jce : bool) (w : WorkspaceDoc.t) : WorkspaceDoc.t :=
  WorkspaceDoc.mk (WorkspaceDoc._id w) (WorkspaceDoc.name w)
    (WorkspaceDoc.userId w) (WorkspaceDoc.joinCode w)
    (WorkspaceDoc._creationTime w) (Some dv) (Some jce).

(** Modelled from the spec: [internal.domains.updateStatus]. It patches the
    claim's status, sets [verifiedAt] when one is passed, and on [verified]
    sets the workspace's [domainVerified = true] and
    [joinCodeEnabled = false]. Patching a missing document throws. *)
Definition updateStatus (a : UpdateStatusArgs) (d : Db) : Outcome Db :=
  match domains d !! arg_domainId a with
  | None => Thrown (Error (lit "Domain not found"))
  | Some c =>
      let c' :=
        Domain.mk (Domain.workspaceId c) (Domain.domain c)
          (Domain.verificationToken c) (arg_status a)
          (match arg_verifiedAt a with
           | Some t => Some t
           | None => Domain.verifiedAt c
           end)
          (Domain.createdAt c) (Domain.createdBy c) in
      let ws :=
        match arg_status a with
        | verified => alter (setTrust true false) (Domain.workspaceId c)
                            (workspaces d)
        | _ => workspaces d
        end in
      Returned (mkDb (<[arg_domainId a := c']> (domains d)) ws
                     (inviteLinks d) (members d))
  end.

(** *** The action context

    The handler reaches the store through [ctx.runQuery] and
    [ctx.runMutation]. It awaits each call outside any [try], and each call
    may reject. A mutation is a transaction of its own, so a rejected one
    writes nothing; the action as a whole is no transaction, so other
    transactions can commit between its query and its mutation. Every
    awaited promise is taken to settle. *)
Record ActionCtx := mkActionCtx {
  (* what [api.domains.getById] resolves or rejects with *)
  queryGetById : N -> Db -> Outcome (option Domain.t);
  (* what [internal.domains.updateStatus] commits, or rejects with *)
  mutationUpdateStatus : UpdateStatusArgs -> Db -> Outcome Db;
  (* what other transactions commit while the action awaits the DNS lookup *)
  meanwhile : Db -> Db
}.

(** [ctx.runQuery(api.domains.getById, { domainId })] *)
Definition runQuery_getById (ctx : ActionCtx) (domainId : N)
  : Eff World (option Domain.t) :=
  fun w => (queryGetById ctx domainId (db w), w).

(** [ctx.runMutation(internal.domains.updateStatus, args)]: the call is
    logged, then the mutation runs as one transaction on the database as
    the other transactions have left it. *)
Definition runMutation_updateStatus (ctx : ActionCtx) (a : UpdateStatusArgs)
  : Eff World unit :=
  fun w =>
    let log := mutationLog w ++ [a] in
    let d := meanwhile ctx (db w) in
    match mutationUpdateStatus ctx a d with
    | Returned d' => (Returned tt, mkWorld d' (console w) log)
    | Thrown e => (Thrown e, mkWorld d (console w) log)
    end.

(** The store of the specification, with what other transactions do in the
    meantime. *)
Definition specStoreWith (others : Db -> Db) : ActionCtx :=
  mkActionCtx (fun domainId d => Returned (getById domainId d))
              updateStatus others.

(** The store of the specification, left alone while the action runs. *)
Definition specStore : ActionCtx := specStoreWith (fun d => d).

(** ** [verifyDomain] *)

Record VerifyResult := mkVerifyResult {
  success : bool;
  error : option jsstring
}.

(** The two template literals of [verifyDomain]: the name that is queried
    and the value that is expected there. *)
Definition dnsNameOf (d : Domain.t) : jsstring :=
  lit "_kiiaren-verification." ++ Domain.domain d.

Definition expectedValueOf (d : Domain.t) : jsstring :=
  lit "kiiaren-verification=" ++ Domain.verificationToken d.

(** The handler of the action [verifyDomain]. *)
Definition verifyDomain_handler (ctx : ActionCtx) (env : Env) (domainId : N)
  : Eff World VerifyResult :=
  let! domain := runQuery_getById ctx domainId in
  match domain with
  | None => ret (mkVerifyResult false (Some (lit "Domain not found")))
  | Some domain =>
      let dnsName := dnsNameOf domain in
      let expectedValue := expectedValueOf domain in
      let! txtRecords := lookupDnsTxt env dnsName in
      let isVerified :=
        existsb (fun record => bool_decide (trim record = expectedValue))
                txtRecords in
      if isVerified then
        run! runMutation_updateStatus ctx
               (mkUpdateStatusArgs domainId verified (Some (Date_now env))) in
        ret (mkVerifyResult true None)
      else
        run! runMutation_updateStatus ctx
               (mkUpdateStatusArgs domainId failed None) in
        if (length txtRecords =? 0)%nat then
          ret (mkVerifyResult false (Some (
            lit "No TXT records found at " ++ dnsName ++
            lit ". Please add the DNS record and wait for propagation (usually 5-15 minutes).")))
        else
          ret (mkVerifyResult false (Some (
            lit "TXT records found at " ++ dnsName ++
            lit " but none match the expected value. Found: " ++
            join (lit ", ") txtRecords)))
  end.

(** The action on the store of the specification, with no other transaction
    in between. *)
Definition verifyDomain (env : Env) (domainId : N) : Eff World VerifyResult :=
  verifyDomain_handler specStore env domainId.

(** *** Vocabulary for the statements about [verifyDomain] *)

(** The TXT records the DNS lookup returns for [name], as the resolver sent
    them: the [data] of the answer entries of type 16 of a response that
    arrived with an OK status and a body that parses; none otherwise. *)
Definition txtData (env : Env) (name : jsstring) : list jsstring :=
  match encodeURIComponent env name with
  | Thrown _ => []
  | Returned encoded =>
      match fetch env (lookupUrl encoded) lookupHeaders with
      | Rejected _ => []
      | Resolved r =>
          if Response.ok r then
            match Response.json r with
            | Some body =>
                match DnsResponse.Answer body with
                | Some answer =>
                    map DnsAnswer.data
                        (filter (fun a => DnsAnswer.type a = 16) answer)
                | None => []
                end
            | None => []
            end
          else []
      end
  end.

(** The ways the query for [name] can fail before any record is read. *)
Inductive LookupFailure (env : Env) (name : jsstring) : Prop :=
  | encoding_error e :
      encodeURIComponent env name = Thrown e -> LookupFailure env name
  | network_error encoded e :
      encodeURIComponent env name = Returned encoded ->
      fetch env (lookupUrl encoded) lookupHeaders = Rejected e ->
      LookupFailure env name
  | http_not_ok encoded r :
      encodeURIComponent env name = Returned encoded ->
      fetch env (lookupUrl encoded) lookupHeaders = Resolved r ->
      Response.ok r = false ->
      LookupFailure env name
  | malformed_json encoded r :
      encodeURIComponent env name = Returned encoded ->
      fetch env (lookupUrl encoded) lookupHeaders = Resolved r ->
      Response.ok r = true -> Response.json r = None ->
      LookupFailure env name
  | no_answer encoded r body :
      encodeURIComponent env name = Returned encoded ->
      fetch env (lookupUrl encoded) lookupHeaders = Resolved r ->
      Response.ok r = true -> Response.json r = Some body ->
      DnsResponse.Answer body = None ->
      LookupFailure env name.

(** The query for [name] came back with the answer section [answer]. *)
Definition answered (env : Env) (name : jsstring)
    (answer : list DnsAnswer.t) : Prop :=
  exists encoded r body,
    encodeURIComponent env name = Returned encoded /\
    fetch env (lookupUrl encoded) lookupHeaders = Resolved r /\
    Response.ok r = true /\ Response.json r = Some body /\
    DnsResponse.Answer body = Some answer.

(** The call returned a result whose [success] is true. *)
Definition succeeds (o : Outcome VerifyResult) : Prop :=
  match o with
  | Returned r => success r = true
  | Thrown _ => False
  end.

(** The call returned a result whose [success] is false. *)
Definition failsWith (o : Outcome VerifyResult) (msg : jsstring) : Prop :=
  o = Returned (mkVerifyResult false (Some msg)).

(** The records [verifyDomain] tests, and whether one of them matches. *)
Definition txtRecordsFor (env : Env) (d : Domain.t) : list (list N) :=
  map unquote (txtData env (dnsNameOf d)).

Definition dnsMatch (env : Env) (d : Domain.t) : bool :=
  existsb (fun record => bool_decide (trim record = expectedValueOf d))
          (txtRecordsFor env d).

(** The message of a failed verification. *)
Definition failureMessage (d : Domain.t) (txtRecords : list (list N))
  : list N :=
  match txtRecords with
  | [] =>
      lit "No TXT records found at " ++ dnsNameOf d ++
      lit ". Please add the DNS record and wait for propagation (usually 5-15 minutes)."
  | _ :: _ =>
      lit "TXT records found at " ++ dnsNameOf d ++
      lit " but none match the expected value. Found: " ++
      join (lit ", ") txtRecords
  end.

(** The single write of a verification attempt. *)
Definition statusWrite (env : Env) (domainId : N) (d : Domain.t)
  : UpdateStatusArgs :=
  if dnsMatch env d
  then mkUpdateStatusArgs domainId verified (Some (Date_now env))
  else mkUpdateStatusArgs domainId failed None.

(** *** The normal form of a record, in the words of the specification

    Section 4.1, steps 3 and 5: the surrounding quote characters of a
    record are stripped, its internal escaped quotes (a backslash followed
    by a quote) are unescaped to quotes, and white space is trimmed from
    both ends. These are statements of what is asked, to be compared with
    [stripQuotes], [unescapeQuotes] and [trim]. *)

(** [stripped] is [record] without the double quote at its start, if it has
    one there, and without the double quote at the end of what is left, if
    there is one. *)
Definition StripsQuotes (record stripped : jsstring) : Prop :=
  exists inner,
    (record = QUOTE :: inner \/ (record = inner /\ head record <> Some QUOTE))
    /\ (inner = stripped ++ [QUOTE]
        \/ (inner = stripped /\ last inner <> Some QUOTE)).

(** [t] is [s] with every backslash that stands before a double quote
    removed, reading from the left. *)
Inductive Unescapes : jsstring -> jsstring -> Prop :=
  | Unescapes_nil : Unescapes [] []
  | Unescapes_escaped s t :
      Unescapes s t -> Unescapes (BACKSLASH :: QUOTE :: s) (QUOTE :: t)
  | Unescapes_other c s t :
      ~ (c = BACKSLASH /\ head s = Some QUOTE) ->
      Unescapes s t -> Unescapes (c :: s) (c :: t).

(** [trimmed] is [s] without the white space at its two ends. *)
Definition TrimsTo (s trimmed : jsstring) : Prop :=
  exists before after,
    s = before ++ trimmed ++ after /\
    Forall (fun c => isWhiteSpace c = true) before /\
    Forall (fun c => isWhiteSpace c = true) after /\
    (forall c, head trimmed = Some c -> isWhiteSpace c = false) /\
    (forall c, last trimmed = Some c -> isWhiteSpace c = false).

(** The record, normalized as the specification asks, is [value]. *)
Definition NormalizesTo (record value : jsstring) : Prop :=
  exists stripped unescaped,
    StripsQuotes record stripped /\ Unescapes stripped unescaped /\
    TrimsTo unescaped value.

(** A record that normalization leaves as it is: it has no double quote,
    and no white space at its ends. *)
Definition plain (record : jsstring) : bool :=
  forallb (fun c => negb (c =? QUOTE)) record
  && match head record with Some c => negb (isWhiteSpace c) | None => true end
  && match last record with Some c => negb (isWhiteSpace c) | None => true end.

(** ** The workspace transformation ([use-workspaces]) *)

Definition transformWorkspace (w : WorkspaceDoc.t) : Workspace.t :=
  Workspace.mk
    (WorkspaceDoc._id w)
    (WorkspaceDoc.name w)
    (WorkspaceDoc.userId w)
    (WorkspaceDoc.joinCode w)
    (WorkspaceDoc._creationTime w)
    (nullish (WorkspaceDoc.domainVerified w) false)
    (nullish (WorkspaceDoc.joinCodeEnabled w) true).

(** ** The domain hooks ([use-domains])

    A hook body is a computation over the trace of the React and Convex
    hooks it has called. [useMutation] and [useAction] only build the
    function that would later reach the backend; [useQuery] with arguments
    subscribes, which is a backend call; [useQuery] with [skip] is not. *)

Inductive HookCall :=
  | UseProviderId
  | UseMutation (fn : jsstring)
  | UseAction (fn : jsstring)
  | UseState
  | UseCallback
  | UseQuery (fn : jsstring) (args : option N).

Definition issuesBackendCall (c : HookCall) : bool :=
  match c with
  | UseQuery _ (Some _) => true
  | _ => false
  end.

(** The function a [mutate] callback awaits. *)
Inductive BackendFn :=
  | MutationFn (fn : jsstring)
  | ActionFn (fn : jsstring).

Record MutateHook := mkMutateHook { mutate : BackendFn; isPending : bool }.

Record QueryHook (D : Type) := mkQueryHook { data : option D; isLoading : bool }.
Arguments mkQueryHook {D} data isLoading.

(** What a render reads: the provider id of the context, and the current
    value of each query ([None] while it loads). *)
Record ReactEnv (D : Type) := mkReactEnv {
  providerId : jsstring;
  queryData : jsstring -> N -> option D
}.
Arguments providerId {D} r.
Arguments queryData {D} r fn id.

Definition Hook (A : Type) : Type := Eff (list HookCall) A.

Definition called {A} (c : HookCall) (a : A) : Hook A :=
  fun t => (Returned a, t ++ [c]).

Definition useProviderId {D} (r : ReactEnv D) : Hook jsstring :=
  called UseProviderId (providerId r).
Definition useMutation (fn : jsstring) : Hook BackendFn :=
  called (UseMutation fn) (MutationFn fn).
Definition useAction (fn : jsstring) : Hook BackendFn :=
  called (UseAction fn) (ActionFn fn).
Definition useState {A} (initial : A) : Hook A := called UseState initial.
Definition useCallback {A} (f : A) : Hook A := called UseCallback f.
Definition useQuery {D} (r : ReactEnv D) (fn : jsstring) (args : option N)
  : Hook (option D) :=
  called (UseQuery fn args)
         (match args with Some id => queryData r fn id | None => None end).

(** The message of the guard every domain hook starts with. *)
Definition notImplemented (providerId operation : jsstring) : JsError :=
  Error (lit "[" ++ providerId ++ lit "] " ++ operation
           ++ lit " is not implemented. "
           ++ lit "See docs/EDITIONING.md for self-host status.").

Definition isConvex (providerId : jsstring) : bool :=
  bool_decide (providerId = lit "convex").

Definition useAddDomain {D} (r : ReactEnv D) : Hook MutateHook :=
  let! providerId := useProviderId r in
  let! mutation := useMutation (lit "domains.addDomain") in
  let! isPending := useState false in
  if negb (isConvex providerId) then
    throw (notImplemented providerId (lit "domains.add"))
  else
    let! mutate := useCallback mutation in
    ret (mkMutateHook mutate isPending).

Definition useVerifyDomain {D} (r : ReactEnv D) : Hook MutateHook :=
  let! providerId := useProviderId r in
  let! action := useAction (lit "domainActions.verifyDomain") in
  let! isPending := useState false in
  if negb (isConvex providerId) then
    throw (notImplemented providerId (lit "domains.verify"))
  else
    let! mutate := useCallback action in
    ret (mkMutateHook mutate isPending).

Definition useListDomains {D} (r : ReactEnv D) (workspaceId : N)
  : Hook (QueryHook D) :=
  let! providerId := useProviderId r in
  if negb (isConvex providerId) then
    throw (notImplemented providerId (lit "domains.list"))
  else
    let! data := useQuery r (lit "domains.listDomains") (Some workspaceId) in
    let isLoading := match data with None => true | Some _ => false end in
    ret (mkQueryHook data isLoading).

Definition useRemoveDomain {D} (r : ReactEnv D) : Hook MutateHook :=
  let! providerId := useProviderId r in
  let! mutation := useMutation (lit "domains.removeDomain") in
  let! isPending := useState false in
  if negb (isConvex providerId) then
    throw (notImplemented providerId (lit "domains.remove"))
  else
    let! mutate := useCallback mutation in
    ret (mkMutateHook mutate isPending).

Definition useGetVerificationInstructions {D} (r : ReactEnv D)
    (domainId : option N) : Hook (QueryHook D) :=
  let! providerId := useProviderId r in
  if negb (isConvex providerId) then
    throw (notImplemented providerId
             (lit "domains.getVerificationInstructions"))
  else
    let! data :=
      useQuery r (lit "domains.getVerificationInstructions") domainId in
    let isLoading :=
      match data, domainId with
      | None, Some _ => true
      | _, _ => false
      end in
    ret (mkQueryHook data isLoading).

(** A render started with the trace [t] and was stopped by the guard: it
    threw the not-implemented error that names [pid], and none of the hooks
    it had called by then is a backend call. *)
Definition stoppedByGuard {A} (pid : jsstring) (t : list HookCall)
    (res : Outcome A * list HookCall) : Prop :=
  exists e calls,
    res = (Thrown e, t ++ calls) /\
    contains (message e) (lit "[" ++ pid ++ lit "]") /\
    contains (message e) (lit "is not implemented") /\
    Forall (fun c => issuesBackendCall c = false) calls.

(** ** Domain claims and invite links: the store side

    The mutations and queries of [convex/domains.ts] and
    [convex/inviteLinks.ts] are modelled from the specification (sections 3,
    4.1 and 4.2); randomness (tokens, codes) and the clock are inputs, and a
    mutation is one atomic step on the database. *)

Inductive DomainVerificationReason :=
  | domain_not_found | invalid_token | dns_error | already_claimed.

Inductive InviteLinkReason :=
  | not_found | expired | revoked | max_uses | already_member.

(** Failures of the admin operations on claims. *)
Inductive DomainOpError :=
  | NotWorkspaceAdmin
  | MalformedDomain
  | DomainError (reason : DomainVerificationReason).

(** Failures of the admin operations on invite links. *)
Inductive InviteOpError :=
  | InviteNotWorkspaceAdmin
  | InviteError (reason : InviteLinkReason).

(** A claim holds its domain while it is pending or verified. *)
Definition isActive (c : Domain.t) : bool :=
  match Domain.status c with
  | pending | verified => true
  | failed => false
  end.

Definition toLowerCaseUnit (c : N) : N :=
  if (65 <=? c) && (c <=? 90) then c + 32 else c.

(** Lower-casing of the ASCII letters, the only cased characters of a DNS
    host name. *)
Definition toLowerCase (s : jsstring) : jsstring := map toLowerCaseUnit s.

Definition emptyDb : Db := mkDb ∅ ∅ ∅ ∅.

Section StoreOperations.

(** The specification asks that the normalized domain look like a valid
    DNS host and does not say how that is tested. *)
Variable validHost : jsstring -> bool.

(** Modelled from the spec: normalization of the [domain] argument of
    [addDomain], which is trimmed and lower-cased; empty or malformed
    input is rejected. *)
Definition normalizeDomain (domain : jsstring) : option jsstring :=
  let d := toLowerCase (trim domain) in
  match d with
  | [] => None
  | _ :: _ => if validHost d then Some d else None
  end.

(** The specification leaves open whether a claim whose verification
    failed keeps its domain reserved (section 2: the uniqueness constraint
    is independent of status; [types.ts]: [addDomain] throws if the domain
    is already claimed by any workspace) or frees it for a new claim
    (sections 3 and 9). The choice is a parameter of the store. *)
Variable failedReserves : bool.

(** The claim stands in the way of a new claim for its domain. *)
Definition reserves (c : Domain.t) : bool :=
  match Domain.status c with
  | pending | verified => true
  | failed => failedReserves
  end.

(** Some workspace holds a claim for [host] that reserves it: a pending or
    verified claim, or a failed one if failed claims reserve. *)
Definition claimed (host : jsstring) (d : Db) : Prop :=
  map_Exists (fun _ c => Domain.domain c = host /\ reserves c = true)
             (domains d).

(** Modelled from the spec: [addDomain(workspaceId, domain,
    requesterRole)] of [convex/domains.ts]. The requester must be an
    admin; the domain is normalized; the call fails with [already_claimed]
    if any workspace holds a pending or verified claim for the normalized
    domain, and also if one holds a failed claim for it in a store where
    failed claims reserve; otherwise a pending claim with the given token
    is inserted under a fresh id, which is returned. *)
Definition addDomain (workspaceId : N) (domain : jsstring)
    (requester : N) (requesterRole : Role)
    (token : jsstring) (now : Z) (d : Db)
  : (DomainOpError + N) * Db :=
  match requesterRole with
  | member => (inl NotWorkspaceAdmin, d)
  | admin =>
      match normalizeDomain domain with
      | None => (inl MalformedDomain, d)
      | Some host =>
          if decide (claimed host d) then
            (inl (DomainError already_claimed), d)
          else
            let id := fresh (dom (domains d)) in
            let claim :=
              Domain.mk workspaceId host token pending None now requester in
            (inr id,
             mkDb (<[id := claim]> (domains d)) (workspaces d)
                  (inviteLinks d) (members d))
      end
  end.

(** The workspace [ws] has a verified claim. *)
Definition hasVerified (ws : N) (m : gmap N Domain.t) : Prop :=
  map_Exists (fun _ c => Domain.workspaceId c = ws
                         /\ Domain.status c = verified) m.

(** Modelled from the spec: [removeDomain(domainId, requesterRole)].
    Admin-only; deletes the claim; if it was the workspace's only verified
    claim, resets [domainVerified = false] and [joinCodeEnabled = true]. *)
Definition removeDomain (domainId : N) (requesterRole : Role) (d : Db)
  : (DomainOpError + unit) * Db :=
  match domains d !! domainId with
  | None => (inl (DomainError domain_not_found), d)
  | Some c =>
      match requesterRole with
      | member => (inl NotWorkspaceAdmin, d)
      | admin =>
          let rest := delete domainId (domains d) in
          let ws :=
            match Domain.status c with
            | verified =>
                if decide (hasVerified (Domain.workspaceId c) rest)
                then workspaces d
                else alter (setTrust false true) (Domain.workspaceId c)
                           (workspaces d)
            | _ => workspaces d
            end in
          (inr tt, mkDb rest ws (inviteLinks d) (members d))
      end
  end.

(** Modelled from the spec: [createInviteLink(workspaceId, scope,
    expiresInHours?, maxUses?, requesterRole)]. Admin-only; the expiry
    defaults to 24 hours; [usedCount] starts at 0. Timestamps are in
    milliseconds. *)
Definition createInviteLink (workspaceId : N) (scope : InviteLinkScope)
    (expiresInHours : option Z) (maxUses : option N)
    (requester : N) (requesterRole : Role)
    (code : jsstring) (now : Z) (d : Db)
  : (InviteOpError + N) * Db :=
  match requesterRole with
  | member => (inl InviteNotWorkspaceAdmin, d)
  | admin =>
      let hours := nullish expiresInHours 24%Z in
      let id := fresh (dom (inviteLinks d)) in
      let link :=
        InviteLink.mk workspaceId code requester now
          (now + hours * 3600 * 1000)%Z maxUses 0 scope None in
      (inr id,
       mkDb (domains d) (workspaces d)
            (<[id := link]> (inviteLinks d)) (members d))
  end.

(** Modelled from the spec: [getInviteLinkByCode(code)]. Public; the
    lookup by code, with no test of expiry, revocation or use count. *)
Definition getInviteLinkByCode (code : jsstring) (d : Db)
  : option (N * InviteLink.t) :=
  List.find (fun p => bool_decide (InviteLink.code (snd p) = code))
            (map_to_list (inviteLinks d)).

Definition incrementUsedCount (l : InviteLink.t) : InviteLink.t :=
  InviteLink.mk (InviteLink.workspaceId l) (InviteLink.code l)
    (InviteLink.createdBy l) (InviteLink.createdAt l)
    (InviteLink.expiresAt l) (InviteLink.maxUses l)
    (InviteLink.usedCount l + 1) (InviteLink.scope l)
    (InviteLink.revokedAt l).

Definition setRevokedAt (t : Z) (l : InviteLink.t) : InviteLink.t :=
  InviteLink.mk (InviteLink.workspaceId l) (InviteLink.code l)
    (InviteLink.createdBy l) (InviteLink.createdAt l)
    (InviteLink.expiresAt l) (InviteLink.maxUses l)
    (InviteLink.usedCount l) (InviteLink.scope l) (Some t).

Definition atMaxUses (l : InviteLink.t) : bool :=
  match InviteLink.maxUses l with
  | Some n => n <=? InviteLink.usedCount l
  | None => false
  end.

(** Modelled from the spec: [redeemInviteLink(code, userId)]. The checks
    run in order and each short-circuits with its reason; on success the
    use count is incremented and the membership (role member) is created
    in the same step. The result is the workspace joined. *)
Definition redeemInviteLink (code : jsstring) (userId : N) (now : Z)
    (d : Db) : (InviteLinkReason + N) * Db :=
  match getInviteLinkByCode code d with
  | None => (inl not_found, d)
  | Some (id, l) =>
      match InviteLink.revokedAt l with
      | Some _ => (inl revoked, d)
      | None =>
          if (InviteLink.expiresAt l <=? now)%Z then (inl expired, d)
          else if atMaxUses l then (inl max_uses, d)
          else
            match members d !! (InviteLink.workspaceId l, userId) with
            | Some _ => (inl already_member, d)
            | None =>
                (inr (InviteLink.workspaceId l),
                 mkDb (domains d) (workspaces d)
                      (<[id := incrementUsedCount l]> (inviteLinks d))
                      (<[(InviteLink.workspaceId l, userId) := member]>
                         (members d)))
            end
      end
  end.

(** Modelled from the spec: [revokeInviteLink(inviteLinkId,
    requesterRole)]. Admin-only; sets [revokedAt = now]; revoking twice is
    not an error. *)
Definition revokeInviteLink (inviteLinkId : N) (requesterRole : Role)
    (now : Z) (d : Db) : (InviteOpError + unit) * Db :=
  match inviteLinks d !! inviteLinkId with
  | None => (inl (InviteError not_found), d)
  | Some l =>
      match requesterRole with
      | member => (inl InviteNotWorkspaceAdmin, d)
      | admin =>
          (inr tt,
           mkDb (domains d) (workspaces d)
                (<[inviteLinkId := setRevokedAt now l]> (inviteLinks d))
                (members d))
      end
  end.

(** *** The subsystem as a transition system *)

Inductive Command :=
  | CAddDomain (workspaceId : N) (domain : jsstring) (requester : N)
               (requesterRole : Role) (token : jsstring) (now : Z)
  | CVerifyDomain (env : Env) (domainId : N)
  | CRemoveDomain (domainId : N) (requesterRole : Role)
  | CCreateInviteLink (workspaceId : N) (scope : InviteLinkScope)
                      (expiresInHours : option Z) (maxUses : option N)
                      (requester : N) (requesterRole : Role)
                      (code : jsstring) (now : Z)
  | CRedeemInviteLink (code : jsstring) (userId : N) (now : Z)
  | CRevokeInviteLink (inviteLinkId : N) (requesterRole : Role) (now : Z)
  | COther (ws : gmap N WorkspaceDoc.t) (ms : gmap (N * N) Role).

(** The database after a command. [COther] stands for the rest of the
    application, which writes the workspaces and the memberships but
    neither the claims nor the invite links. *)
Definition exec (c : Command) (d : Db) : Db :=
  match c with
  | CAddDomain w name u r tok now => snd (addDomain w name u r tok now d)
  | CVerifyDomain env id => db (snd (verifyDomain env id (mkWorld d [] [])))
  | CRemoveDomain id r => snd (removeDomain id r d)
  | CCreateInviteLink w sc h mx u r code now =>
      snd (createInviteLink w sc h mx u r code now d)
  | CRedeemInviteLink code u now => snd (redeemInviteLink code u now d)
  | CRevokeInviteLink id r now => snd (revokeInviteLink id r now d)
  | COther ws ms => mkDb (domains d) ws (inviteLinks d) ms
  end.

Definition run (cs : list Command) (d : Db) : Db :=
  fold_left (fun acc c => exec c acc) cs d.

(** States reachable from the empty database. *)
Inductive reachable : Db -> Prop :=
  | reachable_init : reachable emptyDb
  | reachable_step c d : reachable d -> reachable (exec c d).



End StoreOperations.

(** At most one workspace holds a pending or verified claim for a domain. *)
Definition uniqueness (d : Db) : Prop :=
  forall i j c1 c2,
    domains d !! i = Some c1 -> domains d !! j = Some c2 ->
    Domain.domain c1 = Domain.domain c2 ->
    isActive c1 = true -> isActive c2 = true ->
    Domain.workspaceId c1 = Domain.workspaceId c2.


(** Every link with a use limit is within it. *)
Definition withinMaxUses (d : Db) : Prop :=
  forall id l n,
    inviteLinks d !! id = Some l -> InviteLink.maxUses l = Some n ->
    InviteLink.usedCount l <= n.

(** A host test for the examples: letters, digits, dots and hyphens, with at
    least one dot. *)
Definition hostLike (s : jsstring) : bool :=
  forallb (fun c => ((97 <=? c) && (c <=? 122)) || ((48 <=? c) && (c <=? 57))
                    || (c =? 45) || (c =? 46)) s
  && existsb (fun c => c =? 46) s.

(** ** Example data

    The scenario of the specification: the domain acme.com claimed by
    workspace 1 with the token abc123, stored under id 5. *)

Definition exampleClaim : Domain.t :=
  Domain.mk 1 (lit "acme.com") (lit "abc123") pending None 0%Z 7.

Definition exampleWorkspace : WorkspaceDoc.t :=
  WorkspaceDoc.mk 1 (lit "Acme") 7 (lit "a1b2c3") 0%Z None None.

Definition exampleDb : Db :=
  mkDb {[ 5 := exampleClaim ]} {[ 1 := exampleWorkspace ]} ∅ ∅.

Definition exampleWorld : World := mkWorld exampleDb [] [].

Definition txtAnswer (data : jsstring) : DnsAnswer.t :=
  DnsAnswer.mk (lit "_kiiaren-verification.acme.com.") 16 300 data.

(** An environment whose resolver replies 200 with the given answer
    section, whatever the name. *)
Definition resolverEnv (answer : option (list DnsAnswer.t)) : Env :=
  mkEnv (fun s => Returned s)
        (fun _ _ => Resolved (Response.mk 200 (Some (DnsResponse.mk 0 answer))))
        1000%Z.

(** An environment whose network is down. *)
Definition offlineEnv : Env :=
  mkEnv (fun s => Returned s)
        (fun _ _ => Rejected (TypeError (lit "fetch failed")))
        1000%Z.

(** Workspace 1 claims acme.com and fails its first verification;
    workspace 2 then claims the domain, which succeeds in a store where a
    failed claim frees its domain; workspace 1 publishes its record and
    verifies its old claim again. *)
Definition retryCommands : list Command :=
  [ CAddDomain 1 (lit " Acme.COM ") 11 admin (lit "tok1") 0%Z;
    CVerifyDomain (resolverEnv None) 0;
    CAddDomain 2 (lit "acme.com") 22 admin (lit "tok2") 5%Z;
    CVerifyDomain
      (resolverEnv (Some [txtAnswer (lit "kiiaren-verification=tok1")])) 0 ].

Definition retriedDb : Db := run hostLike false retryCommands emptyDb.

(** The same commands in a store where a failed claim keeps its domain. *)
Definition retriedReservingDb : Db := run hostLike true retryCommands emptyDb.

(** An invite link that is revoked, expired at time 10 and at its limit. *)
Definition spentLink : InviteLink.t :=
  InviteLink.mk 1 (lit "c0de") 11 0%Z 10%Z (Some 1) 1
                InviteLinkScopeWorkspace (Some 5%Z).

Definition spentDb : Db := mkDb ∅ ∅ {[ 0 := spentLink ]} ∅.

(** A link for one use, created at time 0 and redeemed by user 5. *)
Definition redeemedDb : Db :=
  run hostLike false
    [ CCreateInviteLink 1 InviteLinkScopeWorkspace None (Some 1) 11 admin
                        (lit "c0de") 0%Z;
      CRedeemInviteLink (lit "c0de") 5 10%Z ]
    emptyDb.

(** A claim of acme.com whose token is a, a double quote, b; and the
    world that holds it under id 5. *)
Definition quotedTokenClaim : Domain.t :=
  Domain.mk 1 (lit "acme.com") (lit "a" ++ [QUOTE] ++ lit "b") pending None
            0%Z 7.

Definition quotedTokenWorld : World :=
  mkWorld (mkDb {[ 5 := quotedTokenClaim ]} {[ 1 := exampleWorkspace ]} ∅ ∅)
          [] [].

(** ** The presentation form of a TXT value

    Resolvers present the character string of a TXT record between double
    quotes, with a backslash before every double quote inside it;
    [unquote] is the decoder the adapter applies to that form. *)

Fixpoint escapeQuotes (s : jsstring) : jsstring :=
  match s with
  | [] => []
  | c :: rest =>
      if c =? QUOTE then BACKSLASH :: QUOTE :: escapeQuotes rest
      else c :: escapeQuotes rest
  end.

Definition presentTxt (value : jsstring) : jsstring :=
  QUOTE :: escapeQuotes value ++ [QUOTE].

(** ** Error classes ([packages/core/src/errors]) *)

(** A string is truthy when it is not empty; [undefined] is falsy. *)
Definition truthy (s : option jsstring) : bool :=
  match s with
  | Some (_ :: _) => true
  | _ => false
  end.

(** The [messages] table of [DomainVerificationError]. *)
Definition domainVerificationMessages (domain : jsstring)
    (reason : DomainVerificationReason) : jsstring :=
  match reason with
  | domain_not_found =>
      lit "DNS TXT record not found for _kiiaren-verification." ++ domain
  | invalid_token =>
      lit "DNS TXT record found but verification token does not match"
  | dns_error => lit "Failed to query DNS for " ++ domain
  | already_claimed =>
      lit "Domain " ++ domain ++ lit " is already claimed by another workspace"
  end.

Record DomainVerificationErrorObject := mkDomainVerificationError {
  dve_message : jsstring;
  dve_name : jsstring;
  dve_domain : jsstring;
  dve_reason : DomainVerificationReason;
  dve_isKiiarenError : bool
}.

(** [new DomainVerificationError(domain, reason, details)] *)
Definition DomainVerificationError (domain : jsstring)
    (reason : DomainVerificationReason) (details : option jsstring)
  : DomainVerificationErrorObject :=
  mkDomainVerificationError
    (lit "[KIIAREN] Domain verification failed: "
       ++ domainVerificationMessages domain reason
       ++ (if truthy details then lit ". " ++ nullish details [] else []))
    (lit "DomainVerificationError") domain reason true.

(** The [messages] table of [InviteLinkError]. *)
Definition inviteLinkMessages (reason : InviteLinkReason) : jsstring :=
  match reason with
  | not_found => lit "Invite link not found"
  | expired => lit "Invite link has expired"
  | revoked => lit "Invite link has been revoked"
  | max_uses => lit "Invite link has reached maximum uses"
  | already_member => lit "You are already a member of this workspace"
  end.

Record InviteLinkErrorObject := mkInviteLinkError {
  ile_message : jsstring;
  ile_name : jsstring;
  ile_code : jsstring;
  ile_reason : InviteLinkReason;
  ile_isKiiarenError : bool
}.

(** [new InviteLinkError(code, reason)] *)
Definition InviteLinkError (code : jsstring) (reason : InviteLinkReason)
  : InviteLinkErrorObject :=
  mkInviteLinkError (lit "[KIIAREN] " ++ inviteLinkMessages reason)
                    (lit "InviteLinkError") code reason true.

(** ** The [mutate] callbacks of the domain hooks ([use-domains])

    A call of [mutate] is a computation over the trace of what it does:
    it sets the pending flag, awaits the backend function and calls the
    callbacks of its options. A callback may throw. *)

(** [try { body } finally { cleanup }]: the cleanup always runs; if it
    throws, its error replaces the outcome of the body. *)
Definition try_finally {S A} (body : Eff S A) (cleanup : Eff S unit)
  : Eff S A :=
  fun s => match body s with
           | (o, s') =>
               match cleanup s' with
               | (Returned _, s'') => (o, s'')
               | (Thrown e, s'') => (Thrown e, s'')
               end
           end.

Inductive CallbackEvent (Arg R : Type) :=
  | EvSetIsPending (b : bool)
  | EvBackend (fn : BackendFn) (args : Arg)
  | EvOnSuccess (result : R)
  | EvOnError (e : JsError)
  | EvOnSettled.
Arguments EvSetIsPending {Arg R} b.
Arguments EvBackend {Arg R} fn args.
Arguments EvOnSuccess {Arg R} result.
Arguments EvOnError {Arg R} e.
Arguments EvOnSettled {Arg R}.

(** The [options] argument of [mutate]; every callback is optional. *)
Record MutateOptions (R : Type) := mkMutateOptions {
  onSuccess : option (R -> Outcome unit);
  onError : option (JsError -> Outcome unit);
  onSettled : option (Outcome unit)
}.
Arguments mkMutateOptions {R} onSuccess onError onSettled.
Arguments onSuccess {R} m.
Arguments onError {R} m.
Arguments onSettled {R} m.

Section Mutate.

Context {Arg Res R : Type}.

Abbreviation Callbacks := (Eff (list (CallbackEvent Arg R))).

Definition emit (ev : CallbackEvent Arg R) : Callbacks unit :=
  fun t => (Returned tt, t ++ [ev]).

(** [options?.onSuccess?.(result)] *)
Definition callOnSuccess (options : option (MutateOptions R)) (result : R)
  : Callbacks unit :=
  match options with
  | Some o =>
      match onSuccess o with
      | Some f => fun t => (f result, t ++ [EvOnSuccess result])
      | None => ret tt
      end
  | None => ret tt
  end.

(** [options?.onError?.(error)] *)
Definition callOnError (options : option (MutateOptions R)) (error : JsError)
  : Callbacks unit :=
  match options with
  | Some o =>
      match onError o with
      | Some f => fun t => (f error, t ++ [EvOnError error])
      | None => ret tt
      end
  | None => ret tt
  end.

(** [options?.onSettled?.()] *)
Definition callOnSettled (options : option (MutateOptions R))
  : Callbacks unit :=
  match options with
  | Some o =>
      match onSettled o with
      | Some f => fun t => (f, t ++ [EvOnSettled])
      | None => ret tt
      end
  | None => ret tt
  end.

(** [await fn(args)]: the backend resolves or rejects. *)
Definition awaitBackend (backend : BackendFn -> Arg -> Outcome Res)
    (fn : BackendFn) (args : Arg) : Callbacks Res :=
  fun t => (backend fn args, t ++ [EvBackend fn args]).

End Mutate.

(** The [mutate] of [useAddDomain] and [useVerifyDomain]: the result of the
    backend function is passed to [onSuccess] and returned. *)
Definition mutateReturning {Arg Res}
    (backend : BackendFn -> Arg -> Outcome Res) (h : MutateHook)
    (args : Arg) (options : option (MutateOptions Res))
  : Eff (list (CallbackEvent Arg Res)) Res :=
  run! emit (EvSetIsPending true) in
  try_finally
    (try_catch
       (let! result := awaitBackend backend (mutate h) args in
        run! callOnSuccess options result in
        ret result)
       (fun error => run! callOnError options error in throw error))
    (run! emit (EvSetIsPending false) in callOnSettled options).

(** The [mutate] of [useRemoveDomain]: the result of the backend function
    is dropped, [onSuccess] takes no argument and nothing is returned. *)
Definition mutateVoid {Arg Res}
    (backend : BackendFn -> Arg -> Outcome Res) (h : MutateHook)
    (args : Arg) (options : option (MutateOptions unit))
  : Eff (list (CallbackEvent Arg unit)) unit :=
  run! emit (EvSetIsPending true) in
  try_finally
    (try_catch
       (let! _result := awaitBackend backend (mutate h) args in
        callOnSuccess options tt)
       (fun error => run! callOnError options error in throw error))
    (run! emit (EvSetIsPending false) in callOnSettled options).

(** The callbacks of the options never throw. *)
Definition quiet {R} (options : option (MutateOptions R)) : Prop :=
  forall o, options = Some o ->
    (forall f r, onSuccess o = Some f -> f r = Returned tt) /\
    (forall f e, onError o = Some f -> f e = Returned tt) /\
    (forall f, onSettled o = Some f -> f = Returned tt).

(** The events a callback is expected to produce, when it is given. *)
Definition onSuccessEvents {Arg R} (options : option (MutateOptions R))
    (r : R) : list (CallbackEvent Arg R) :=
  match options with
  | Some o => match onSuccess o with Some _ => [EvOnSuccess r] | None => [] end
  | None => []
  end.

Definition onErrorEvents {Arg R} (options : option (MutateOptions R))
    (e : JsError) : list (CallbackEvent Arg R) :=
  match options with
  | Some o => match onError o with Some _ => [EvOnError e] | None => [] end
  | None => []
  end.

Definition onSettledEvents {Arg R} (options : option (MutateOptions R))
  : list (CallbackEvent Arg R) :=
  match options with
  | Some o => match onSettled o with Some _ => [EvOnSettled] | None => [] end
  | None => []
  end.

Definition isSettling {Arg R} (ev : CallbackEvent Arg R) : bool :=
  match ev with
  | EvSetIsPending _ | EvOnSettled => true
  | _ => false
  end.

(** ** The Convex client singleton ([convex-adapter]) *)

Section ConvexClient.

(** The client class of the Convex library: its constructor may reject the
    address it is given. *)
Variable ConvexReactClient : Type.
Variable newConvexReactClient : jsstring -> Outcome ConvexReactClient.

(** [getConvexClient()]: the state is the module variable [convexClient];
    [url] is [process.env.NEXT_PUBLIC_CONVEX_URL] at the time of the call. *)
Definition getConvexClient (url : option jsstring)
  : Eff (option ConvexReactClient) ConvexReactClient :=
  fun convexClient =>
    match convexClient with
    | Some client => (Returned client, convexClient)
    | None =>
        if negb (truthy url) then
          (Thrown (Error (lit
             "NEXT_PUBLIC_CONVEX_URL is required for Convex provider")),
           convexClient)
        else
          match newConvexReactClient (nullish url []) with
          | Returned client => (Returned client, Some client)
          | Thrown e => (Thrown e, convexClient)
          end
    end.

End ConvexClient.

(** ** Access control ([convex/lib/access_control.ts]) *)

(** A row of the [members] table. *)
Record Member := mkMember {
  member_workspaceId : N;
  member_userId : N;
  member_role : Role
}.

#[global] Instance Member_eq_dec : EqDecision Member.
Proof. solve_decision. Defined.

(** What the helpers read: the user of the session, if any, and the
    [members] table. *)
Record AuthCtx := mkAuthCtx {
  authUserId : option N;
  memberRows : list Member
}.

(** Sequencing of computations that only read. *)
Definition andThen {A B} (o : Outcome A) (k : A -> Outcome B) : Outcome B :=
  match o with
  | Returned a => k a
  | Thrown e => Thrown e
  end.

(** [.unique()] of a Convex query: the one result, [null] if there is
    none; more than one result is an error. *)
Definition unique {A} (results : list A) : Outcome (option A) :=
  match results with
  | [] => Returned None
  | [x] => Returned (Some x)
  | _ :: _ :: _ =>
      Thrown (Error (lit "unique() query returned more than one result"))
  end.

(** The index query [by_workspace_id_user_id]. *)
Definition memberQuery (ctx : AuthCtx) (workspaceId userId : N)
  : list Member :=
  filter (fun m => member_workspaceId m = workspaceId
                   /\ member_userId m = userId) (memberRows ctx).

Definition requireAuth (ctx : AuthCtx) : Outcome N :=
  match authUserId ctx with
  | None => Thrown (Error (lit "Unauthorized. Please sign in."))
  | Some userId => Returned userId
  end.

Definition getAuth (ctx : AuthCtx) : Outcome (option N) :=
  Returned (authUserId ctx).

Definition requireWorkspaceMember (ctx : AuthCtx) (workspaceId : N)
  : Outcome Member :=
  andThen (requireAuth ctx) (fun userId =>
  andThen (unique (memberQuery ctx workspaceId userId)) (fun found =>
  match found with
  | None => Thrown (Error (lit "You are not a member of this workspace."))
  | Some row => Returned row
  end)).

Definition requireWorkspaceAdmin (ctx : AuthCtx) (workspaceId : N)
  : Outcome Member :=
  andThen (requireWorkspaceMember ctx workspaceId) (fun row =>
  if bool_decide (member_role row <> admin) then
    Thrown (Error (lit
      "You must be a workspace admin to perform this action."))
  else Returned row).

Definition getWorkspaceMember (ctx : AuthCtx) (workspaceId : N)
  : Outcome (option Member) :=
  andThen (getAuth ctx) (fun userId =>
  match userId with
  | None => Returned None
  | Some userId => unique (memberQuery ctx workspaceId userId)
  end).

(** ** The routing middleware ([middleware.ts]) *)

Record NextUrl := mkNextUrl { hostname : jsstring; pathname : jsstring }.

Inductive MiddlewareResult :=
  | RedirectTo (path : jsstring)    (* [nextjsMiddlewareRedirect(req, path)] *)
  | Rewrite (url : NextUrl)         (* [NextResponse.rewrite(url)] *)
  | Redirect (url : NextUrl)        (* [NextResponse.redirect(url)] *)
  | Next.                           (* [NextResponse.next()] *)

(** [s.startsWith(prefix)] *)
Fixpoint startsWith (s prefix : jsstring) : bool :=
  match prefix, s with
  | [], _ => true
  | p :: prefix', c :: s' => (c =? p) && startsWith s' prefix'
  | _ :: _, [] => false
  end.

(** The assignment [url.pathname = prefix + url.pathname], made when the
    path does not start with the prefix. *)
Definition withPrefix (prefix : jsstring) (url : NextUrl) : NextUrl :=
  if negb (startsWith (pathname url) prefix)
  then mkNextUrl (hostname url) (prefix ++ pathname url)
  else url.

Section Middleware.

(** The route matcher and the session test of the auth library. The
    handler mutates [req.nextUrl] before it calls the matcher, so the
    matcher is given the URL of the request and its current [nextUrl]. *)
Variable isSignInPage : NextUrl -> NextUrl -> bool.
Variable isAuthenticatedNextjs : bool.

Definition middleware (hostHeader : option jsstring) (requested : NextUrl)
  : MiddlewareResult :=
  let host := nullish hostHeader [] in
  if bool_decide (host = lit "account.kiiaren.com") then
    let url := withPrefix (lit "/account") requested in
    if negb (isSignInPage requested url) && negb isAuthenticatedNextjs
    then RedirectTo (lit "/auth")
    else Rewrite url
  else if bool_decide (host = lit "dashboard.kiiaren.com") then
    let url := withPrefix (lit "/app") requested in
    if negb (isSignInPage requested url) && negb isAuthenticatedNextjs
    then RedirectTo (lit "/auth")
    else Rewrite url
  else if bool_decide (host = lit "api.kiiaren.com") then
    Rewrite (withPrefix (lit "/api") requested)
  else if bool_decide (host = lit "www.kiiaren.com") then
    Redirect (mkNextUrl (lit "kiiaren.com") (pathname requested))
  else if bool_decide (host = lit "kiiaren.com") then
    Next
  else if negb (isSignInPage requested requested)
          && negb isAuthenticatedNextjs then
    RedirectTo (lit "/auth")
  else if isSignInPage requested requested && isAuthenticatedNextjs then
    RedirectTo (lit "/")
  else Next.

End Middleware.

(** ** Documents ([convex/docs.ts])

    The [docs] table is the list of its rows in the order of creation,
    which is the order an index query returns rows that agree on the index
    fields. Ids are never reused: they are drawn from a counter. A mutation
    is a transaction: when its handler throws, nothing is written. A
    handler that recurses takes fuel, and runs out of it where the source
    would not return. *)

Module Doc.
Record t := mk {
  title : jsstring;
  workspaceId : N;
  parentDocumentId : option N;
  content : option jsstring;
  coverImage : option N;
  icon : option jsstring;
  isArchived : bool;
  isPublished : bool;
  createdBy : N;
  createdAt : Z;
  updatedAt : Z
}.
End Doc.

Record DocsDb := mkDocsDb {
  docRows : list (N * Doc.t);
  nextDocId : N
}.

(** What a mutation reads besides the table: the session and memberships,
    and the clock, as the value of each successive [Date.now()]. *)
Record MutationEnv := mkMutationEnv {
  auth : AuthCtx;
  clock : nat -> Z
}.

(** The state of a running handler: the table and the number of clock
    readings made so far. *)
Record HandlerState := mkHandlerState {
  table : DocsDb;
  ticks : nat
}.

(** Computations that may not return. *)
Definition Div (S A : Type) : Type := S -> option (Outcome A * S).

Definition lift {S A} (m : Eff S A) : Div S A := fun s => Some (m s).
Definition diverge {S A} : Div S A := fun _ => None.
Definition dbind {S A B} (m : Div S A) (k : A -> Div S B) : Div S B :=
  fun s => match m s with
           | None => None
           | Some (Returned a, s') => k a s'
           | Some (Thrown e, s') => Some (Thrown e, s')
           end.

Notation "'step!' x ':=' m 'in' k" := (dbind m (fun x => k))
  (at level 10, x name, m at level 100, k at level 200, only parsing).

(** [for (const x of items) { body }] *)
Fixpoint forEach {S A} (items : list A) (body : A -> Div S unit)
  : Div S unit :=
  match items with
  | [] => lift (ret tt)
  | x :: rest => dbind (body x) (fun _ => forEach rest body)
  end.

Definition lookupDoc (id : N) (rows : list (N * Doc.t)) : option Doc.t :=
  snd <$> List.find (fun r => bool_decide (fst r = id)) rows.

(** [ctx.db.get(id)] *)
Definition db_get (id : N) : Eff HandlerState (option Doc.t) :=
  fun s => (Returned (lookupDoc id (docRows (table s))), s).

Definition patchRows (id : N) (f : Doc.t -> Doc.t)
    (rows : list (N * Doc.t)) : list (N * Doc.t) :=
  (fun r => if bool_decide (fst r = id) then (fst r, f (snd r)) else r)
    <$> rows.

Definition deleteRows (id : N) (rows : list (N * Doc.t))
  : list (N * Doc.t) :=
  filter (fun r => fst r <> id) rows.

(** [ctx.db.patch(id, fields)]; a missing document is an error. *)
Definition db_patch (id : N) (f : Doc.t -> Doc.t) : Eff HandlerState unit :=
  fun s =>
    match lookupDoc id (docRows (table s)) with
    | None => (Thrown (Error (lit "Update on nonexistent document")), s)
    | Some _ =>
        (Returned tt,
         mkHandlerState
           (mkDocsDb (patchRows id f (docRows (table s)))
                     (nextDocId (table s)))
           (ticks s))
    end.

(** [ctx.db.delete(id)]; a missing document is an error. *)
Definition db_delete (id : N) : Eff HandlerState unit :=
  fun s =>
    match lookupDoc id (docRows (table s)) with
    | None => (Thrown (Error (lit "Delete on nonexistent document")), s)
    | Some _ =>
        (Returned tt,
         mkHandlerState
           (mkDocsDb (deleteRows id (docRows (table s)))
                     (nextDocId (table s)))
           (ticks s))
    end.

(** [ctx.db.insert('docs', doc)] *)
Definition db_insert (doc : Doc.t) : Eff HandlerState N :=
  fun s =>
    let id := nextDocId (table s) in
    (Returned id,
     mkHandlerState (mkDocsDb (docRows (table s) ++ [(id, doc)]) (id + 1))
                    (ticks s)).

(** [Date.now()] *)
Definition dateNow (env : MutationEnv) : Eff HandlerState Z :=
  fun s => (Returned (clock env (ticks s)),
            mkHandlerState (table s) (S (ticks s))).

(** The index query [by_workspace_id_parent], collected. *)
Definition byWorkspaceParent (workspaceId : N) (parent : option N)
    (rows : list (N * Doc.t)) : list (N * Doc.t) :=
  filter (fun r => Doc.workspaceId (snd r) = workspaceId
                   /\ Doc.parentDocumentId (snd r) = parent) rows.

Definition collectChildren (workspaceId parentId : N)
  : Eff HandlerState (list (N * Doc.t)) :=
  fun s => (Returned (byWorkspaceParent workspaceId (Some parentId)
                        (docRows (table s))), s).

(** The fields [{ isArchived, updatedAt }] of a patch. *)
Definition setArchived (archived : bool) (now : Z) (d : Doc.t) : Doc.t :=
  Doc.mk (Doc.title d) (Doc.workspaceId d) (Doc.parentDocumentId d)
         (Doc.content d) (Doc.coverImage d) (Doc.icon d) archived
         (Doc.isPublished d) (Doc.createdBy d) (Doc.createdAt d) now.

(** The fields [{ isArchived: false, parentDocumentId, updatedAt }]. *)
Definition setRestored (parent : option N) (now : Z) (d : Doc.t) : Doc.t :=
  Doc.mk (Doc.title d) (Doc.workspaceId d) parent
         (Doc.content d) (Doc.coverImage d) (Doc.icon d) false
         (Doc.isPublished d) (Doc.createdBy d) (Doc.createdAt d) now.

(** A mutation runs its handler as a transaction on the table. *)
Definition transaction {A} (handler : Div HandlerState A)
  : DocsDb -> option (Outcome A * DocsDb) :=
  fun d => match handler (mkHandlerState d 0) with
           | None => None
           | Some (Returned a, s) => Some (Returned a, table s)
           | Some (Thrown e, _) => Some (Thrown e, d)
           end.

Module Docs.

(** The handler of [create]. *)
Definition createHandler (env : MutationEnv) (title : jsstring)
    (workspaceId : N) (parentDocumentId : option N) : Eff HandlerState N :=
  let! userId := liftOutcome (requireAuth (auth env)) in
  run! liftOutcome (requireWorkspaceMember (auth env) workspaceId) in
  run! match parentDocumentId with
       | Some pid =>
           let! parentDoc := db_get pid in
           match parentDoc with
           | None => throw (Error (lit "Invalid parent document."))
           | Some pd =>
               if bool_decide (Doc.workspaceId pd <> workspaceId)
               then throw (Error (lit "Invalid parent document."))
               else ret tt
           end
       | None => ret tt
       end in
  let! now := dateNow env in
  db_insert (Doc.mk title workspaceId parentDocumentId None None None
                    false false userId now now).

Definition create (env : MutationEnv) (title : jsstring)
    (workspaceId : N) (parentDocumentId : option N)
  : DocsDb -> option (Outcome N * DocsDb) :=
  transaction (lift (createHandler env title workspaceId parentDocumentId)).

(** [archiveChildren] of [archive]; [workspaceId] is [doc.workspaceId]. *)
Fixpoint archiveChildren (env : MutationEnv) (fuel : nat)
    (workspaceId parentId : N) : Div HandlerState unit :=
  match fuel with
  | O => diverge
  | S fuel' =>
      step! children := lift (collectChildren workspaceId parentId) in
      forEach children (fun child =>
        step! now := lift (dateNow env) in
        step! _ := lift (db_patch (fst child) (setArchived true now)) in
        archiveChildren env fuel' workspaceId (fst child))
  end.

Definition archiveHandler (env : MutationEnv) (fuel : nat) (id : N)
  : Div HandlerState N :=
  step! _ := lift (liftOutcome (requireAuth (auth env))) in
  step! doc := lift (db_get id) in
  match doc with
  | None => lift (throw (Error (lit "Document not found.")))
  | Some doc =>
      step! _ := lift (liftOutcome
                   (requireWorkspaceMember (auth env) (Doc.workspaceId doc))) in
      step! now := lift (dateNow env) in
      step! _ := lift (db_patch id (setArchived true now)) in
      step! _ := archiveChildren env fuel (Doc.workspaceId doc) id in
      lift (ret id)
  end.

Definition archive (env : MutationEnv) (fuel : nat) (id : N)
  : DocsDb -> option (Outcome N * DocsDb) :=
  transaction (archiveHandler env fuel id).

(** The handler of [restore]. *)
Definition restoreHandler (env : MutationEnv) (id : N)
  : Eff HandlerState N :=
  run! liftOutcome (requireAuth (auth env)) in
  let! doc := db_get id in
  match doc with
  | None => throw (Error (lit "Document not found."))
  | Some doc =>
      run! liftOutcome
             (requireWorkspaceMember (auth env) (Doc.workspaceId doc)) in
      let! parentDocumentId :=
        match Doc.parentDocumentId doc with
        | Some pid =>
            let! parent := db_get pid in
            match parent with
            | Some p => if Doc.isArchived p then ret None else ret (Some pid)
            | None => ret (Some pid)
            end
        | None => ret None
        end in
      let! now := dateNow env in
      run! db_patch id (setRestored parentDocumentId now) in
      ret id
  end.

Definition restore (env : MutationEnv) (id : N)
  : DocsDb -> option (Outcome N * DocsDb) :=
  transaction (lift (restoreHandler env id)).

(** [deleteChildren] of [remove]. *)
Fixpoint deleteChildren (fuel : nat) (workspaceId parentId : N)
  : Div HandlerState unit :=
  match fuel with
  | O => diverge
  | S fuel' =>
      step! children := lift (collectChildren workspaceId parentId) in
      forEach children (fun child =>
        step! _ := deleteChildren fuel' workspaceId (fst child) in
        lift (db_delete (fst child)))
  end.

Definition removeHandler (env : MutationEnv) (fuel : nat) (id : N)
  : Div HandlerState N :=
  step! _ := lift (liftOutcome (requireAuth (auth env))) in
  step! doc := lift (db_get id) in
  match doc with
  | None => lift (throw (Error (lit "Document not found.")))
  | Some doc =>
      step! _ := lift (liftOutcome
                   (requireWorkspaceMember (auth env) (Doc.workspaceId doc))) in
      step! _ := deleteChildren fuel (Doc.workspaceId doc) id in
      step! _ := lift (db_delete id) in
      lift (ret id)
  end.

Definition remove (env : MutationEnv) (fuel : nat) (id : N)
  : DocsDb -> option (Outcome N * DocsDb) :=
  transaction (removeHandler env fuel id).

(** [listArchived]: the archived documents of the workspace. *)
Definition listArchived (ctx : AuthCtx) (workspaceId : N) (d : DocsDb)
  : Outcome (list (N * Doc.t)) :=
  andThen (requireWorkspaceMember ctx workspaceId) (fun _ =>
  Returned (reverse (filter (fun r => Doc.isArchived (snd r) = true)
                        (filter (fun r => Doc.workspaceId (snd r)
                                          = workspaceId) (docRows d))))).

(** [list]: the documents of the workspace under the given parent (the
    top level when none is given) that are not archived, newest first. *)
Definition list (ctx : AuthCtx) (workspaceId : N)
    (parentDocumentId : option N) (d : DocsDb)
  : Outcome (list (N * Doc.t)) :=
  andThen (requireWorkspaceMember ctx workspaceId) (fun _ =>
  Returned (reverse (filter (fun r => Doc.isArchived (snd r) = false)
                        (byWorkspaceParent workspaceId parentDocumentId
                                           (docRows d))))).

End Docs.

(** *** Structure of the table *)

(** The part of a row that places it in the tree. *)
Definition skeleton (rows : list (N * Doc.t))
  : list (N * (N * option N)) :=
  (fun r => (fst r, (Doc.workspaceId (snd r),
                    Doc.parentDocumentId (snd r)))) <$> rows.

(** [c] is a child of [p] among the documents of the workspace. *)
Definition childIn (workspaceId : N) (sk : list (N * (N * option N)))
    (p c : N) : Prop :=
  (c, (workspaceId, Some p)) ∈ sk.

(** [x] is [root] or one of its descendants. *)
Definition inSubtree (workspaceId : N) (sk : list (N * (N * option N)))
    (root x : N) : Prop :=
  rtc (childIn workspaceId sk) root x.

(** Ids are unique and below the counter, a parent is older than its
    child, and a parent that is in the table is in the workspace of its
    child. *)
Record wellFormed (d : DocsDb) : Prop := mkWellFormed {
  wf_nodup : NoDup (fst <$> docRows d);
  wf_below : forall id doc, (id, doc) ∈ docRows d -> id < nextDocId d;
  wf_older : forall id doc p,
      (id, doc) ∈ docRows d -> Doc.parentDocumentId doc = Some p -> p < id;
  wf_workspace : forall id doc p pd,
      (id, doc) ∈ docRows d -> Doc.parentDocumentId doc = Some p ->
      lookupDoc p (docRows d) = Some pd ->
      Doc.workspaceId pd = Doc.workspaceId doc
}.

(** The mutations of the module, with their arguments. *)
Inductive DocsCommand :=
  | DocCreate (title : jsstring) (workspaceId : N)
              (parentDocumentId : option N)
  | DocArchive (fuel : nat) (id : N)
  | DocRestore (id : N)
  | DocRemove (fuel : nat) (id : N).

Definition runDocs (env : MutationEnv) (c : DocsCommand)
  : DocsDb -> option (Outcome N * DocsDb) :=
  match c with
  | DocCreate title ws parent => Docs.create env title ws parent
  | DocArchive fuel id => Docs.archive env fuel id
  | DocRestore id => Docs.restore env id
  | DocRemove fuel id => Docs.remove env fuel id
  end.

(** The tables that mutations can produce from the empty table. *)
Inductive docsReachable : DocsDb -> Prop :=
  | docsReachable_init : docsReachable (mkDocsDb [] 0)
  | docsReachable_step env c d o d' :
      docsReachable d -> runDocs env c d = Some (o, d') -> docsReachable d'.

(** *** Vocabulary of the statements *)

(** The rows below [p]: those of the subtrees of its children. *)
Definition below (ws : N) (sk : list (N * (N * option N))) (p x : N) : Prop :=
  exists c, childIn ws sk p c /\ inSubtree ws sk c x.

(** A parent is older than its child, and children are below the counter. *)
Definition ordered (sk : list (N * (N * option N))) (next : N) : Prop :=
  forall c ws p, (c, (ws, Some p)) ∈ sk -> p < c /\ c < next.

(** What [archive] may do to a row: nothing, or set the flag and the time
    of update of a row whose id is in [P]; and the rows of [P] end up
    archived. *)
Definition archivedRow (P : N -> Prop) (r r' : N * Doc.t) : Prop :=
  fst r' = fst r
  /\ (P (fst r) -> Doc.isArchived (snd r') = true)
  /\ (snd r' = snd r
      \/ (P (fst r) /\ exists now, snd r' = setArchived true now (snd r))).

(** What [remove] may do to the table: drop rows whose id is in [P], and
    all of them. *)
Inductive removedRel (P : N -> Prop)
  : list (N * Doc.t) -> list (N * Doc.t) -> Prop :=
  | removedRel_nil : removedRel P [] []
  | removedRel_keep r rows rows' :
      ~ P (fst r) -> removedRel P rows rows' ->
      removedRel P (r :: rows) (r :: rows')
  | removedRel_drop r rows rows' :
      P (fst r) -> removedRel P rows rows' ->
      removedRel P (r :: rows) rows'.

(** Well-formedness, read on the skeleton. *)
Definition wfSk (sk : list (N * (N * option N))) (next : N) : Prop :=
  NoDup (fst <$> sk)
  /\ (forall c w q, (c, (w, q)) ∈ sk -> c < next)
  /\ (forall c w p, (c, (w, Some p)) ∈ sk -> p < c)
  /\ (forall c w p w' q',
        (c, (w, Some p)) ∈ sk -> (p, (w', q')) ∈ sk -> w' = w).

(** A handler leaves the shape of the table as it is. *)
Definition sameShape (s s' : HandlerState) : Prop :=
  skeleton (docRows (table s')) = skeleton (docRows (table s))
  /\ nextDocId (table s') = nextDocId (table s).

(** A handler only deletes rows. *)
Definition shrinks (s s' : HandlerState) : Prop :=
  docRows (table s') `sublist_of` docRows (table s)
  /\ nextDocId (table s') = nextDocId (table s).

(** The parent [restore] leaves a document with: none when the parent is
    archived, the parent it has otherwise. *)
Definition restoredParent (doc : Doc.t) (rows : list (N * Doc.t))
  : option N :=
  match Doc.parentDocumentId doc with
  | Some pid =>
      match lookupDoc pid rows with
      | Some p => if Doc.isArchived p then None else Some pid
      | None => Some pid
      end
  | None => None
  end.

(** The workspace whose membership a mutation asks for. *)
Definition targetWorkspace (c : DocsCommand) (d : DocsDb) : option N :=
  match c with
  | DocCreate _ workspaceId _ => Some workspaceId
  | DocArchive _ id | DocRestore id | DocRemove _ id =>
      Doc.workspaceId <$> lookupDoc id (docRows d)
  end.

(** The document a mutation is about, for those that take one. *)
Definition targetDocument (c : DocsCommand) : option N :=
  match c with
  | DocCreate _ _ _ => None
  | DocArchive _ id | DocRestore id | DocRemove _ id => Some id
  end.

(** The fuel a mutation is given, for those that recurse. *)
Definition commandFuel (c : DocsCommand) : option nat :=
  match c with
  | DocArchive fuel _ | DocRemove fuel _ => Some fuel
  | DocCreate _ _ _ | DocRestore _ => None
  end.

(** Mutations one after the other; [None] when one does not return. *)
Fixpoint runAllDocs (env : MutationEnv) (cs : list DocsCommand) (d : DocsDb)
  : option DocsDb :=
  match cs with
  | [] => Some d
  | c :: rest =>
      match runDocs env c d with
      | Some (_, d') => runAllDocs env rest d'
      | None => None
      end
  end.

(** *** Example data *)

(** User 7 is a member of workspace 1 and of no other; user 9 is a member
    of none. *)
Definition memberEnv : MutationEnv :=
  mkMutationEnv (mkAuthCtx (Some 7) [mkMember 1 7 admin])
                (fun _ => 1000%Z).

Definition outsiderEnv : MutationEnv :=
  mkMutationEnv (mkAuthCtx (Some 9) [mkMember 1 7 admin])
                (fun _ => 2000%Z).

Definition exampleDoc (title : jsstring) (parent : option N) : Doc.t :=
  Doc.mk title 1 parent None None None false false 7 1000%Z 1000%Z.

(** Notes (0) with the child Draft (1), which has the child Todo (2); and
    Other (3) at the top level. *)
Definition exampleDocsCommands : list DocsCommand :=
  [DocCreate (lit "Notes") 1 None; DocCreate (lit "Draft") 1 (Some 0);
   DocCreate (lit "Todo") 1 (Some 1); DocCreate (lit "Other") 1 None].

Definition exampleDocs : DocsDb :=
  mkDocsDb [(0, exampleDoc (lit "Notes") None);
            (1, exampleDoc (lit "Draft") (Some 0));
            (2, exampleDoc (lit "Todo") (Some 1));
            (3, exampleDoc (lit "Other") None)] 4.

(** * Properties *)

(** ** JavaScript strings *)

Section StringFacts.

Implicit Types s t : list N.

Lemma trimStart_length s : (length (trimStart s) <= length s)%nat.
Proof.
  induction s as [|c s IH]; simpl; [lia|].
  destruct (isWhiteSpace c); simpl; lia.
Qed.

Lemma trimEnd_length s : (length (trimEnd s) <= length s)%nat.
Proof.
  induction s as [|c s IH]; simpl; [lia|].
  destruct (trimEnd s) as [|x r]; simpl in *.
  - destruct (isWhiteSpace c); simpl; lia.
  - lia.
Qed.

Lemma trim_length s : (length (trim s) <= length s)%nat.
Proof.
  unfold trim. etransitivity; [apply trimEnd_length|apply trimStart_length].
Qed.

Lemma stripTrailingQuote_length s :
  (length (stripTrailingQuote s) <= length s)%nat.
Proof.
  induction s as [|c s IH]; simpl; [lia|].
  destruct s as [|x r].
  - destruct (c =? QUOTE); simpl; lia.
  - simpl in *. lia.
Qed.

Lemma stripQuotes_length s : (length (stripQuotes s) <= length s)%nat.
Proof.
  destruct s as [|c s]; [simpl; lia|].
  unfold stripQuotes. destruct (c =? QUOTE).
  - pose proof (stripTrailingQuote_length s). simpl. lia.
  - apply stripTrailingQuote_length.
Qed.

(** The recursion of [unescapeQuotes] skips one or two code units, so the
    bound is proved for a string and its tail together. *)
Lemma unescapeQuotes_length_aux s :
  (length (unescapeQuotes s) <= length s)%nat /\
  (length (unescapeQuotes (tail s)) <= length (tail s))%nat.
Proof.
  induction s as [|c s [IH1 IH2]]; [simpl; lia|].
  split; [|exact IH1].
  destruct s as [|x r]; [simpl; lia|].
  change (unescapeQuotes (c :: x :: r))
    with (if (c =? BACKSLASH) && (x =? QUOTE)
          then QUOTE :: unescapeQuotes r
          else c :: unescapeQuotes (x :: r)).
  simpl tail in IH2.
  destruct ((c =? BACKSLASH) && (x =? QUOTE)); simpl length in *; lia.
Qed.

Lemma unescapeQuotes_length s :
  (length (unescapeQuotes s) <= length s)%nat.
Proof. apply unescapeQuotes_length_aux. Qed.

Lemma unquote_length s : (length (unquote s) <= length s)%nat.
Proof.
  unfold unquote.
  etransitivity; [apply unescapeQuotes_length|apply stripQuotes_length].
Qed.

(** A record shorter than the expected value cannot match it. *)
Lemma short_record_differs s t :
  (length s < length t)%nat -> trim (unquote s) <> t.
Proof.
  intros Hlt Heq.
  pose proof (trim_length (unquote s)). pose proof (unquote_length s).
  rewrite Heq in *. lia.
Qed.

(** A first code unit that is neither a quote, a backslash nor white
    space survives unquoting and trimming. *)
Lemma trim_unquote_head c s :
  c <> QUOTE -> c <> BACKSLASH -> isWhiteSpace c = false -> s <> [] ->
  exists r, trim (unquote (c :: s)) = c :: r.
Proof.
  intros Hq Hb Hw Hs.
  destruct s as [|x s]; [done|].
  unfold unquote, stripQuotes.
  apply N.eqb_neq in Hq. rewrite Hq.
  change (stripTrailingQuote (c :: x :: s))
    with (c :: stripTrailingQuote (x :: s)).
  assert (Hu : forall u, unescapeQuotes (c :: u) = c :: unescapeQuotes u).
  { intros [|y u]; [reflexivity|].
    change (unescapeQuotes (c :: y :: u))
      with (if (c =? BACKSLASH) && (y =? QUOTE)
            then QUOTE :: unescapeQuotes u
            else c :: unescapeQuotes (y :: u)).
    apply N.eqb_neq in Hb. by rewrite Hb. }
  rewrite Hu. unfold trim. simpl trimStart. rewrite Hw. simpl trimEnd.
  destruct (trimEnd _); rewrite ?Hw; eauto.
Qed.

Lemma stripQuotes_quoted s :
  stripQuotes (QUOTE :: s ++ [QUOTE]) = s.
Proof.
  unfold stripQuotes. rewrite N.eqb_refl.
  induction s as [|c s IH]; [reflexivity|].
  simpl. rewrite IH. destruct s; reflexivity.
Qed.

Lemma contains_intro (pre post x : list N) :
  contains (pre ++ x ++ post) x.
Proof. by exists pre, post. Qed.

(** The two replacements on small inputs: a lone quote, a quoted string, a
    quote on one side only, a quote in the middle; an escaped quote, and a
    backslash before an escaped quote. *)
Example stripQuotes_examples :
  stripQuotes [QUOTE] = [] /\
  stripQuotes (QUOTE :: lit "ab" ++ [QUOTE]) = lit "ab" /\
  stripQuotes (QUOTE :: lit "ab") = lit "ab" /\
  stripQuotes (lit "ab" ++ [QUOTE]) = lit "ab" /\
  stripQuotes (lit "a" ++ [QUOTE] ++ lit "b") = lit "a" ++ [QUOTE] ++ lit "b".
Proof. repeat split. Qed.

Example unescapeQuotes_examples :
  unescapeQuotes (lit "a" ++ [BACKSLASH; QUOTE] ++ lit "b")
    = lit "a" ++ [QUOTE] ++ lit "b" /\
  unescapeQuotes [BACKSLASH; BACKSLASH; QUOTE] = [BACKSLASH; QUOTE] /\
  unescapeQuotes [BACKSLASH] = [BACKSLASH].
Proof. repeat split. Qed.

Example trim_examples :
  trim (lit "  a b  ") = lit "a b" /\
  trim [0x9; 0xA0; 0xFEFF; 97; 0x2028; 0xD; 0xA] = [97] /\
  trim (lit "   ") = [].
Proof. repeat split. Qed.

End StringFacts.

(** ** The normal form of a record *)

Section NormalForm.

Implicit Types s t : list N.

Lemma stripTrailingQuote_snoc s c :
  stripTrailingQuote (s ++ [c]) = if c =? QUOTE then s else s ++ [c].
Proof.
  induction s as [|x s IH]; [simpl; by destruct (c =? QUOTE)|].
  change ((x :: s) ++ [c]) with (x :: (s ++ [c])).
  destruct (s ++ [c]) as [|y r] eqn:E; [by destruct s|].
  change (stripTrailingQuote (x :: y :: r))
    with (x :: stripTrailingQuote (y :: r)).
  rewrite IH. by destruct (c =? QUOTE).
Qed.

Lemma stripTrailingQuote_keeps s :
  last s <> Some QUOTE -> stripTrailingQuote s = s.
Proof.
  destruct s as [|x s] using rev_ind; [done|].
  rewrite last_snoc, stripTrailingQuote_snoc. intros Hne.
  destruct (N.eqb_spec x QUOTE) as [->|]; [by destruct Hne|done].
Qed.

Lemma stripTrailingQuote_spec s t :
  stripTrailingQuote s = t <->
  s = t ++ [QUOTE] \/ (s = t /\ last s <> Some QUOTE).
Proof.
  split.
  - intros <-. destruct s as [|x s _] using rev_ind; [right; by split|].
    rewrite stripTrailingQuote_snoc, last_snoc.
    destruct (N.eqb_spec x QUOTE) as [->|Hne]; [by left|].
    right. split; [done|]. by intros [= ->].
  - intros [->|[-> Hne]].
    + by rewrite stripTrailingQuote_snoc.
    + by apply stripTrailingQuote_keeps.
Qed.

Lemma stripQuotes_spec record stripped :
  StripsQuotes record stripped <-> stripQuotes record = stripped.
Proof.
  unfold StripsQuotes. split.
  - intros (inner & Hstart & Hend%stripTrailingQuote_spec).
    destruct Hstart as [->|[-> Hne]].
    + unfold stripQuotes. by rewrite N.eqb_refl.
    + destruct inner as [|c inner]; [done|]. unfold stripQuotes.
      destruct (N.eqb_spec c QUOTE) as [->|]; [by destruct Hne|done].
  - intros <-. destruct record as [|c record].
    + exists []. split; [right; by split|]. right. by split.
    + unfold stripQuotes. destruct (N.eqb_spec c QUOTE) as [->|Hne].
      * exists record. split; [by left|]. by apply stripTrailingQuote_spec.
      * exists (c :: record). split.
        -- right. split; [done|]. simpl. by intros [= ->].
        -- by apply stripTrailingQuote_spec.
Qed.

Lemma unescapeQuotes_escaped s :
  unescapeQuotes (BACKSLASH :: QUOTE :: s) = QUOTE :: unescapeQuotes s.
Proof. reflexivity. Qed.

Lemma unescapeQuotes_other c s :
  ~ (c = BACKSLASH /\ head s = Some QUOTE) ->
  unescapeQuotes (c :: s) = c :: unescapeQuotes s.
Proof.
  intros Hne. destruct s as [|d s]; [reflexivity|].
  change (unescapeQuotes (c :: d :: s))
    with (if (c =? BACKSLASH) && (d =? QUOTE)
          then QUOTE :: unescapeQuotes s
          else c :: unescapeQuotes (d :: s)).
  destruct (N.eqb_spec c BACKSLASH) as [->|]; [|done].
  destruct (N.eqb_spec d QUOTE) as [->|]; [|done].
  destruct Hne. by split.
Qed.

Lemma Unescapes_unescapeQuotes_aux s :
  Unescapes s (unescapeQuotes s) /\
  Unescapes (tail s) (unescapeQuotes (tail s)).
Proof.
  induction s as [|c s [IH1 IH2]]; [split; constructor|].
  split; [|exact IH1].
  destruct (decide (c = BACKSLASH /\ head s = Some QUOTE)) as [[-> Hq]|Hne].
  - destruct s as [|d s]; [done|]. injection Hq as ->.
    rewrite unescapeQuotes_escaped. by constructor.
  - rewrite unescapeQuotes_other by done. by constructor.
Qed.

Lemma unescapeQuotes_spec s t :
  Unescapes s t <-> unescapeQuotes s = t.
Proof.
  split.
  - induction 1 as [|s t _ IH|c s t Hne _ IH]; [done| |].
    + by rewrite unescapeQuotes_escaped, IH.
    + by rewrite unescapeQuotes_other, IH.
  - intros <-. apply Unescapes_unescapeQuotes_aux.
Qed.

Lemma trimStart_spec s :
  exists before,
    s = before ++ trimStart s /\
    Forall (fun c => isWhiteSpace c = true) before /\
    (forall c, head (trimStart s) = Some c -> isWhiteSpace c = false).
Proof.
  induction s as [|c s (before & Hs & Hws & Hhead)]; [by exists []|].
  simpl. destruct (isWhiteSpace c) eqn:Hc.
  - exists (c :: before). split; [simpl; congruence|].
    split; [by constructor|done].
  - exists []. split; [done|]. split; [constructor|].
    simpl. by intros ? [= <-].
Qed.

Lemma trimStart_app_ws before s :
  Forall (fun c => isWhiteSpace c = true) before ->
  trimStart (before ++ s) = trimStart s.
Proof.
  induction 1 as [|c before Hc _ IH]; [done|]. simpl. by rewrite Hc.
Qed.

Lemma trimStart_keeps s :
  (forall c, head s = Some c -> isWhiteSpace c = false) -> trimStart s = s.
Proof.
  destruct s as [|c s]; [done|]. simpl. intros H. by rewrite (H c eq_refl).
Qed.

Lemma trimEnd_ws s :
  Forall (fun c => isWhiteSpace c = true) s -> trimEnd s = [].
Proof.
  induction 1 as [|c s Hc _ IH]; [done|]. simpl. by rewrite IH, Hc.
Qed.

Lemma trimEnd_app_ws s after :
  Forall (fun c => isWhiteSpace c = true) after ->
  trimEnd (s ++ after) = trimEnd s.
Proof.
  intros Hws. induction s as [|c s IH]; [by apply trimEnd_ws|].
  simpl. by rewrite IH.
Qed.

Lemma trimEnd_snoc s c :
  isWhiteSpace c = false -> trimEnd (s ++ [c]) = s ++ [c].
Proof.
  intros Hc. induction s as [|x s IH]; [simpl; by rewrite Hc|].
  simpl. rewrite IH. by destruct s.
Qed.

Lemma trimEnd_keeps s :
  (forall c, last s = Some c -> isWhiteSpace c = false) -> trimEnd s = s.
Proof.
  destruct s as [|c s _] using rev_ind; [done|].
  rewrite last_snoc. intros H. by apply trimEnd_snoc, H.
Qed.

Lemma trimEnd_spec s :
  exists after,
    s = trimEnd s ++ after /\
    Forall (fun c => isWhiteSpace c = true) after /\
    (forall c, last (trimEnd s) = Some c -> isWhiteSpace c = false).
Proof.
  induction s as [|c s IHs] using rev_ind; [by exists []|].
  destruct (isWhiteSpace c) eqn:Hc.
  - destruct IHs as (after & Hs & Hws & Hlast).
    rewrite (trimEnd_app_ws s [c]) by (by repeat constructor).
    exists (after ++ [c]). split; [by rewrite app_assoc, <- Hs|].
    split; [|done]. apply Forall_app. split; [done|]. by repeat constructor.
  - rewrite trimEnd_snoc by done. exists []. split; [by rewrite app_nil_r|].
    split; [constructor|]. rewrite last_snoc. by intros ? [= <-].
Qed.

Lemma trimEnd_head s c :
  head s = Some c -> isWhiteSpace c = false -> head (trimEnd s) = Some c.
Proof.
  destruct s as [|x s]; [done|]. simpl. intros [= ->] Hc.
  destruct (trimEnd s); [by rewrite Hc|done].
Qed.

Lemma trimEnd_head_inv s c :
  head (trimEnd s) = Some c -> head s = Some c.
Proof.
  destruct s as [|x s]; [done|]. simpl.
  destruct (trimEnd s); [by destruct (isWhiteSpace x)|done].
Qed.

Lemma trim_spec s t : TrimsTo s t <-> trim s = t.
Proof.
  unfold TrimsTo, trim. split.
  - intros (before & after & -> & Hb & Ha & Hhead & Hlast).
    rewrite trimStart_app_ws by done.
    destruct t as [|c t].
    + simpl. rewrite <- (app_nil_r after), trimStart_app_ws by done. done.
    + rewrite trimStart_keeps by (simpl; intros ? [= <-]; by apply Hhead).
      rewrite trimEnd_app_ws by done. by apply trimEnd_keeps.
  - intros <-.
    destruct (trimStart_spec s) as (before & Hs & Hb & Hhead).
    destruct (trimEnd_spec (trimStart s)) as (after & Ht & Ha & Hlast).
    exists before, after. split; [by rewrite <- Ht|].
    split; [done|]. split; [done|]. split; [|done].
    intros c Hc. by apply Hhead, trimEnd_head_inv.
Qed.

Lemma NormalizesTo_spec record value :
  NormalizesTo record value <-> trim (unquote record) = value.
Proof.
  unfold NormalizesTo, unquote. split.
  - intros (stripped & unescaped & <-%stripQuotes_spec
            & <-%unescapeQuotes_spec & <-%trim_spec). done.
  - intros <-. eexists _, _. split; [by apply stripQuotes_spec|].
    split; [by apply unescapeQuotes_spec|by apply trim_spec].
Qed.

Lemma plain_normal record : plain record = true -> NormalizesTo record record.
Proof.
  unfold plain. intros [[Hq Hhead]%andb_true_iff Hlast]%andb_true_iff.
  assert (Hnq : forall c, In c record -> c <> QUOTE).
  { intros c Hin. rewrite forallb_forall in Hq. specialize (Hq c Hin).
    by apply negb_true_iff, N.eqb_neq in Hq. }
  exists record, record. split; [|split].
  - exists record. split; right; (split; [done|]).
    + destruct record as [|c r]; [done|]. simpl. intros [= ->].
      by apply (Hnq QUOTE); [left|].
    + intros Hl. apply last_Some in Hl as [r ->].
      apply (Hnq QUOTE); [|done]. apply in_or_app. right. by left.
  - clear Hhead Hlast Hq. induction record as [|c r IH]; [constructor|].
    constructor.
    + intros [_ Hh]. destruct r as [|d r]; [done|]. injection Hh as ->.
      apply (Hnq QUOTE); [right; by left|done].
    + apply IH. intros x Hx. apply Hnq. by right.
  - exists [], []. rewrite app_nil_r. split; [done|].
    split; [constructor|]. split; [constructor|]. split.
    + intros c Hc. rewrite Hc in Hhead. by apply negb_true_iff in Hhead.
    + intros c Hc. rewrite Hc in Hlast. by apply negb_true_iff in Hlast.
Qed.

End NormalForm.

(** ** The DNS adapter and [verifyDomain] *)

Ltac unfold_eff :=
  unfold bind, try_catch, ret, throw, liftOutcome, modify, console_error
    in *.

(** [lookupDnsTxt] always returns: the unquoted TXT data, or nothing when
    the query failed. It only touches the console. *)
Lemma lookupDnsTxt_run env name w :
  exists logged,
    lookupDnsTxt env name w =
      (Returned (map unquote (txtData env name)),
       mkWorld (db w) (console w ++ logged) (mutationLog w)).
Proof.
  destruct w as [d c m]. unfold lookupDnsTxt, txtData. unfold_eff. simpl.
  destruct (encodeURIComponent env name) as [encoded|e]; simpl;
    [|by exists [e]].
  destruct (fetch env (lookupUrl encoded) lookupHeaders) as [e|r]; simpl;
    [by exists [e]|].
  destruct (Response.ok r); simpl; [|by eexists [_]].
  destruct (Response.json r) as [body|]; simpl; [|by eexists [_]].
  exists []. rewrite app_nil_r.
  destruct (DnsResponse.Answer body) as [answer|]; simpl; [|done].
  by rewrite map_map.
Qed.

Lemma txtData_failure env name :
  LookupFailure env name -> txtData env name = [].
Proof.
  unfold txtData.
  intros [e He|encoded e He Hf|encoded r He Hf Hok|encoded r He Hf Hok Hj
         |encoded r body He Hf Hok Hj Ha]; rewrite He; try done;
    rewrite Hf; try done; rewrite Hok; try done; rewrite Hj; try done.
  by rewrite Ha.
Qed.

Lemma txtData_answered env name answer :
  answered env name answer ->
  txtData env name =
    map DnsAnswer.data (filter (fun a => DnsAnswer.type a = 16) answer).
Proof.
  intros (encoded & r & body & He & Hf & Hok & Hj & Ha).
  unfold txtData. by rewrite He, Hf, Hok, Hj, Ha.
Qed.

Lemma updateStatus_found a d c :
  domains d !! arg_domainId a = Some c ->
  exists d',
    updateStatus a d = Returned d' /\
    domains d' =
      <[arg_domainId a :=
          Domain.mk (Domain.workspaceId c) (Domain.domain c)
            (Domain.verificationToken c) (arg_status a)
            (match arg_verifiedAt a with
             | Some t => Some t
             | None => Domain.verifiedAt c
             end)
            (Domain.createdAt c) (Domain.createdBy c)]> (domains d) /\
    inviteLinks d' = inviteLinks d /\ members d' = members d.
Proof. intros H. unfold updateStatus. rewrite H. eauto. Qed.

(** The handler when the query finds the claim, in one equation: it
    issues one [updateStatus] call, decided by [dnsMatch]; it returns the
    result if the store accepts the call and rejects with the store's error
    otherwise. *)
Lemma verifyDomain_handler_found ctx env domainId w d :
  queryGetById ctx domainId (db w) = Returned (Some d) ->
  exists logged,
    verifyDomain_handler ctx env domainId w =
      match mutationUpdateStatus ctx (statusWrite env domainId d)
                                 (meanwhile ctx (db w)) with
      | Returned d' =>
          (Returned
             (if dnsMatch env d then mkVerifyResult true None
              else mkVerifyResult false
                     (Some (failureMessage d (txtRecordsFor env d)))),
           mkWorld d' (console w ++ logged)
                   (mutationLog w ++ [statusWrite env domainId d]))
      | Thrown e =>
          (Thrown e,
           mkWorld (meanwhile ctx (db w)) (console w ++ logged)
                   (mutationLog w ++ [statusWrite env domainId d]))
      end.
Proof.
  intros Hget.
  destruct (lookupDnsTxt_run env (dnsNameOf d) w) as [logged Hrun].
  exists logged.
  unfold verifyDomain_handler. unfold bind at 1.
  unfold runQuery_getById at 1. rewrite Hget.
  unfold bind at 1. rewrite Hrun.
  fold (txtRecordsFor env d). fold (dnsMatch env d).
  unfold statusWrite.
  destruct (dnsMatch env d).
  - unfold bind, runMutation_updateStatus, ret. simpl.
    by destruct (mutationUpdateStatus ctx _ _).
  - unfold bind at 1. unfold runMutation_updateStatus at 1. simpl.
    destruct (mutationUpdateStatus ctx _ _); [|done].
    unfold failureMessage. destruct (txtRecordsFor env d); reflexivity.
Qed.

Lemma verifyDomain_handler_missing ctx env domainId w :
  queryGetById ctx domainId (db w) = Returned None ->
  verifyDomain_handler ctx env domainId w =
    (Returned (mkVerifyResult false (Some (lit "Domain not found"))), w).
Proof.
  intros Hget. unfold verifyDomain_handler, bind, runQuery_getById, ret.
  by rewrite Hget.
Qed.

(** [verifyDomain] on an existing claim, in one equation: it returns, its
    result is decided by [dnsMatch], and it runs [updateStatus] once. *)
Lemma verifyDomain_found env domainId w d :
  getById domainId (db w) = Some d ->
  exists logged d',
    updateStatus (statusWrite env domainId d) (db w) = Returned d' /\
    verifyDomain env domainId w =
      (Returned
         (if dnsMatch env d then mkVerifyResult true None
          else mkVerifyResult false
                 (Some (failureMessage d (txtRecordsFor env d)))),
       mkWorld d' (console w ++ logged)
               (mutationLog w ++ [statusWrite env domainId d])).
Proof.
  intros Hget.
  destruct (verifyDomain_handler_found specStore env domainId w d)
    as [logged Hrun]; [simpl; by rewrite Hget|].
  destruct (updateStatus_found (statusWrite env domainId d) (db w) d)
    as (d' & Hup & _).
  { unfold statusWrite, getById in *. by destruct (dnsMatch env d). }
  exists logged, d'. split; [exact Hup|].
  unfold verifyDomain. rewrite Hrun. simpl. by rewrite Hup.
Qed.

Lemma verifyDomain_missing env domainId w :
  getById domainId (db w) = None ->
  verifyDomain env domainId w =
    (Returned (mkVerifyResult false (Some (lit "Domain not found"))), w).
Proof.
  intros Hget. apply verifyDomain_handler_missing. simpl. by rewrite Hget.
Qed.

Lemma dnsMatch_spec env d :
  dnsMatch env d = true <->
  exists record,
    In record (txtData env (dnsNameOf d)) /\
    trim (unescapeQuotes (stripQuotes record)) =
      DNS_TXT_PREFIX ++ Domain.verificationToken d.
Proof.
  unfold dnsMatch, txtRecordsFor. rewrite existsb_exists. split.
  - intros (r & Hin & Heq). apply in_map_iff in Hin as (raw & <- & Hin).
    apply bool_decide_eq_true in Heq. by exists raw.
  - intros (raw & Hin & Heq). exists (unquote raw). split.
    + by apply in_map.
    + by apply bool_decide_eq_true.
Qed.

Lemma verifyDomain_succeeds_iff env domainId w d :
  getById domainId (db w) = Some d ->
  succeeds (fst (verifyDomain env domainId w)) <-> dnsMatch env d = true.
Proof.
  intros Hget.
  destruct (verifyDomain_found env domainId w d Hget) as (lg & d' & _ & ->).
  simpl. by destruct (dnsMatch env d).
Qed.

Lemma txtData_In env name record :
  In record (txtData env name) <->
  exists answer a,
    answered env name answer /\ In a answer /\ DnsAnswer.type a = 16 /\
    DnsAnswer.data a = record.
Proof.
  split.
  - unfold txtData, answered.
    destruct (encodeURIComponent env name) as [encoded|] eqn:He; [|done].
    destruct (fetch env (lookupUrl encoded) lookupHeaders) as [|r] eqn:Hf;
      [done|].
    destruct (Response.ok r) eqn:Hok; [|done].
    destruct (Response.json r) as [body|] eqn:Hj; [|done].
    destruct (DnsResponse.Answer body) as [answer|] eqn:Ha; [|done].
    intros (a & <- & Hin)%in_map_iff.
    apply list_elem_of_In, list_elem_of_filter in Hin as [Hty Hin].
    exists answer, a. split; [by exists encoded, r, body|].
    split; [by apply list_elem_of_In|done].
  - intros (answer & a & Hans & Hin & Hty & <-).
    rewrite (txtData_answered _ _ _ Hans). apply in_map.
    apply list_elem_of_In, list_elem_of_filter. split; [done|].
    by apply list_elem_of_In.
Qed.

(** C2. For a claim with token T, [verifyDomain] succeeds if and only if
    the answer to the query for the challenge name has a TXT entry (type 16)
    whose data, with its surrounding quotes stripped, its escaped quotes
    unescaped and its white space trimmed, as the specification words it,
    is exactly the string kiiaren-verification= followed by T; which is
    what the code computes with its two replacements and [trim]. So
    verification does not succeed when every returned record is the
    upper-case spelling KIIAREN-VERIFICATION=T, or contains T and is shorter
    than the expected value (the bare token, say), or contains T, is left
    as it is by normalization and differs from the expected value (the
    expected value with more text before or after it, say). *)
Theorem verifyDomain_exact_match env domainId w d :
  getById domainId (db w) = Some d ->
  (succeeds (fst (verifyDomain env domainId w)) <->
     exists answer a,
       answered env (lit "_kiiaren-verification." ++ Domain.domain d) answer
       /\ In a answer /\ DnsAnswer.type a = 16 /\
       NormalizesTo (DnsAnswer.data a)
         (lit "kiiaren-verification=" ++ Domain.verificationToken d))
  /\
  (succeeds (fst (verifyDomain env domainId w)) <->
     exists record,
       In record (txtData env (dnsNameOf d)) /\
       trim (unescapeQuotes (stripQuotes record)) =
         DNS_TXT_PREFIX ++ Domain.verificationToken d)
  /\
  (Forall (fun record =>
             record = lit "KIIAREN-VERIFICATION=" ++ Domain.verificationToken d
             \/ (contains record (Domain.verificationToken d) /\
                 (length record <
                    length (DNS_TXT_PREFIX ++ Domain.verificationToken d))%nat)
             \/ (contains record (Domain.verificationToken d) /\
                 plain record = true /\
                 record <> DNS_TXT_PREFIX ++ Domain.verificationToken d))
          (txtData env (dnsNameOf d)) ->
   ~ succeeds (fst (verifyDomain env domainId w))).
Proof.
  intros Hget.
  assert (Hiff := verifyDomain_succeeds_iff env domainId w d Hget).
  rewrite dnsMatch_spec in Hiff. split; [|split; [exact Hiff|]].
  - rewrite Hiff. split.
    + intros (record & (answer & a & Hans & Hin & Hty & <-)%txtData_In & Heq).
      exists answer, a. repeat (split; [done|]). by apply NormalizesTo_spec.
    + intros (answer & a & Hans & Hin & Hty & Hnorm%NormalizesTo_spec).
      exists (DnsAnswer.data a). split; [|done].
      apply txtData_In. by exists answer, a.
  - intros Hall Hs. apply Hiff in Hs as (record & Hin & Heq).
    rewrite Forall_forall in Hall.
    destruct (Hall record) as [->|[[_ Hlen]|(_ & Hplain & Hne)]].
    + by apply list_elem_of_In.
    + destruct (trim_unquote_head 75
                  (lit "IIAREN-VERIFICATION=" ++ Domain.verificationToken d))
        as [r Hr]; try done.
      change (lit "KIIAREN-VERIFICATION=" ++ Domain.verificationToken d)
        with (75 :: lit "IIAREN-VERIFICATION=" ++ Domain.verificationToken d)
        in Heq.
      unfold unquote in Hr. rewrite Hr in Heq. discriminate Heq.
    + by apply (short_record_differs record _ Hlen).
    + apply plain_normal, NormalizesTo_spec in Hplain.
      unfold unquote in Hplain. congruence.
Qed.

Lemma verifyDomain_exact_match_witness :
  succeeds (fst (verifyDomain
                   (resolverEnv (Some [txtAnswer
                      (QUOTE :: lit "kiiaren-verification=abc123" ++ [QUOTE])]))
                   5 exampleWorld)) /\
  succeeds (fst (verifyDomain
                   (resolverEnv (Some [txtAnswer
                      (QUOTE :: lit "kiiaren-verification=a"
                         ++ [BACKSLASH; QUOTE] ++ lit "b" ++ [QUOTE])]))
                   5 quotedTokenWorld)) /\
  ~ succeeds (fst (verifyDomain
                     (resolverEnv (Some [txtAnswer
                        (lit "KIIAREN-VERIFICATION=abc123");
                        txtAnswer (lit "abc123");
                        txtAnswer (lit "kiiaren-verification=abc123Z");
                        txtAnswer (lit "xkiiaren-verification=abc123")]))
                     5 exampleWorld)).
Proof.
  split; [|split].
  - match goal with
    | |- succeeds (fst (verifyDomain ?env 5 exampleWorld)) =>
        destruct (verifyDomain_exact_match env 5 exampleWorld exampleClaim
                    eq_refl) as (Hspec & _ & _)
    end.
    apply Hspec.
    eexists _, (txtAnswer
                  (QUOTE :: lit "kiiaren-verification=abc123" ++ [QUOTE])).
    split; [by eexists _, _, _|]. split; [by left|]. split; [done|].
    by apply NormalizesTo_spec.
  - match goal with
    | |- succeeds (fst (verifyDomain ?env 5 quotedTokenWorld)) =>
        destruct (verifyDomain_exact_match env 5 quotedTokenWorld
                    quotedTokenClaim eq_refl) as (Hspec & _ & _)
    end.
    apply Hspec.
    eexists _, (txtAnswer
                  (QUOTE :: lit "kiiaren-verification=a"
                     ++ [BACKSLASH; QUOTE] ++ lit "b" ++ [QUOTE])).
    split; [by eexists _, _, _|]. split; [by left|]. split; [done|].
    by apply NormalizesTo_spec.
  - match goal with
    | |- ~ succeeds (fst (verifyDomain ?env 5 exampleWorld)) =>
        destruct (verifyDomain_exact_match env 5 exampleWorld exampleClaim
                    eq_refl) as (_ & _ & Hneg)
    end.
    apply Hneg.
    match goal with
    | |- Forall _ ?l => let l' := eval vm_compute in l in change l with l'
    end.
    constructor; [left; reflexivity|].
    constructor;
      [right; left; split; [by exists [], []|vm_compute; lia]|].
    constructor;
      [right; right; split;
         [by exists (lit "kiiaren-verification="), (lit "Z")|by split]|].
    constructor;
      [right; right; split;
         [by exists (lit "xkiiaren-verification="), []|by split]|].
    constructor.
Defined.

(** One verification attempt on an existing claim: it returns, it runs the
    status mutation exactly once, and the stored status is the one
    written. *)
Lemma verifyDomain_once env domainId w d :
  getById domainId (db w) = Some d ->
  exists result w' a d',
    verifyDomain env domainId w = (Returned result, w') /\
    mutationLog w' = mutationLog w ++ [a] /\
    arg_domainId a = domainId /\
    getById domainId (db w') = Some d' /\
    Domain.status d' = arg_status a /\
    Domain.domain d' = Domain.domain d /\
    Domain.verificationToken d' = Domain.verificationToken d /\
    (if dnsMatch env d
     then result = mkVerifyResult true None /\
          arg_status a = verified /\
          arg_verifiedAt a = Some (Date_now env) /\
          Domain.verifiedAt d' = Some (Date_now env)
     else success result = false /\ is_Some (error result) /\
          arg_status a = failed).
Proof.
  intros Hget.
  destruct (verifyDomain_found env domainId w d Hget)
    as (lg & d' & Hup & Hrun).
  assert (Hid : arg_domainId (statusWrite env domainId d) = domainId).
  { unfold statusWrite. by destruct (dnsMatch env d). }
  destruct (updateStatus_found (statusWrite env domainId d) (db w) d)
    as (d'' & Hup' & Hdom & _).
  { by rewrite Hid. }
  rewrite Hup in Hup'. injection Hup' as <-.
  rewrite Hid in Hdom.
  eexists _, _, (statusWrite env domainId d), _.
  split; [exact Hrun|]. simpl.
  split; [reflexivity|]. split; [exact Hid|].
  unfold getById. rewrite Hdom, lookup_insert_eq.
  split; [reflexivity|]. simpl.
  unfold statusWrite. destruct (dnsMatch env d); simpl; eauto 10.
Qed.

Lemma statusWrite_args env domainId d :
  arg_domainId (statusWrite env domainId d) = domainId /\
  (if dnsMatch env d
   then arg_status (statusWrite env domainId d) = verified /\
        arg_verifiedAt (statusWrite env domainId d) = Some (Date_now env)
   else arg_status (statusWrite env domainId d) = failed /\
        arg_verifiedAt (statusWrite env domainId d) = None).
Proof. unfold statusWrite. by destruct (dnsMatch env d). Qed.

(** C3, as stated, fails. The claim with id 5 exists when the action
    queries it. If it is removed while the action awaits the DNS lookup,
    the status mutation of the specification's store rejects; and a store
    may reject the mutation for reasons of its own. In both cases the
    handler, which awaits [ctx.runMutation] outside any [try], rejects
    with the store's error instead of returning a result, and no status is
    written. *)
Lemma verifyDomain_write_rejected :
  getById 5 (db exampleWorld) = Some exampleClaim /\
  (let run :=
     verifyDomain_handler
       (specStoreWith (fun d => snd (removeDomain 5 admin d)))
       offlineEnv 5 exampleWorld in
   (exists e, fst run = Thrown e) /\ getById 5 (db (snd run)) = None) /\
  (let run :=
     verifyDomain_handler
       (mkActionCtx (fun domainId d => Returned (getById domainId d))
                    (fun _ _ => Thrown (Error (lit "write conflict")))
                    (fun d => d))
       offlineEnv 5 exampleWorld in
   fst run = Thrown (Error (lit "write conflict")) /\
   db (snd run) = exampleDb).
Proof.
  split; [reflexivity|]. split.
  - split; [|reflexivity]. by eexists.
  - split; reflexivity.
Qed.

(** C3, amended. Every invocation of the handler whose query finds the
    claim issues exactly one [updateStatus] call, whatever was issued
    before: [verified] with [verifiedAt] set to the time of the call when a
    DNS record matches, [failed] without [verifiedAt] otherwise. If the
    store accepts the call, the handler returns a structured result, whose
    [success] tells whether a record matched and which carries an error
    message when none did; if the store rejects it, the handler rejects
    with the store's error and the database is as the other transactions
    left it. Against the store of the specification the call is accepted
    whenever the claim still exists when it runs, and then the stored
    status is the one written; it is rejected when the claim was removed in
    the meantime. With no other transaction in between, the claim is still
    there afterwards, so a further attempt does the same. *)
Theorem verifyDomain_definite_write :
  (forall ctx env domainId w d,
     queryGetById ctx domainId (db w) = Returned (Some d) ->
     exists o w' a,
       verifyDomain_handler ctx env domainId w = (o, w') /\
       mutationLog w' = mutationLog w ++ [a] /\
       arg_domainId a = domainId /\
       (if dnsMatch env d
        then arg_status a = verified /\
             arg_verifiedAt a = Some (Date_now env)
        else arg_status a = failed /\ arg_verifiedAt a = None) /\
       match mutationUpdateStatus ctx a (meanwhile ctx (db w)) with
       | Returned d' =>
           db w' = d' /\
           exists result,
             o = Returned result /\
             success result = dnsMatch env d /\
             (success result = false -> is_Some (error result))
       | Thrown e => o = Thrown e /\ db w' = meanwhile ctx (db w)
       end) /\
  (forall others env domainId w d d1,
     getById domainId (db w) = Some d ->
     getById domainId (others (db w)) = Some d1 ->
     exists result w' d',
       verifyDomain_handler (specStoreWith others) env domainId w
         = (Returned result, w') /\
       mutationLog w' = mutationLog w ++ [statusWrite env domainId d] /\
       getById domainId (db w') = Some d' /\
       Domain.status d' = arg_status (statusWrite env domainId d) /\
       success result = dnsMatch env d /\
       (dnsMatch env d = true ->
        Domain.verifiedAt d' = Some (Date_now env))) /\
  (forall others env domainId w d,
     getById domainId (db w) = Some d ->
     getById domainId (others (db w)) = None ->
     exists e w',
       verifyDomain_handler (specStoreWith others) env domainId w
         = (Thrown e, w') /\
       mutationLog w' = mutationLog w ++ [statusWrite env domainId d] /\
       db w' = others (db w)) /\
  (forall env domainId w d,
     getById domainId (db w) = Some d ->
     exists result w' a d',
       verifyDomain env domainId w = (Returned result, w') /\
       mutationLog w' = mutationLog w ++ [a] /\
       arg_domainId a = domainId /\
       getById domainId (db w') = Some d' /\
       Domain.status d' = arg_status a /\
       (if dnsMatch env d
        then result = mkVerifyResult true None /\
             arg_status a = verified /\
             arg_verifiedAt a = Some (Date_now env) /\
             Domain.verifiedAt d' = Some (Date_now env)
        else success result = false /\ is_Some (error result) /\
             arg_status a = failed) /\
       forall env2,
       exists result2 w2 a2 d2,
         verifyDomain env2 domainId w' = (Returned result2, w2) /\
         mutationLog w2 = mutationLog w ++ [a; a2] /\
         getById domainId (db w2) = Some d2 /\
         Domain.status d2 = arg_status a2 /\
         arg_status a2 = (if dnsMatch env2 d' then verified else failed)).
Proof.
  split; [|split; [|split]].
  - intros ctx env domainId w d Hget.
    destruct (verifyDomain_handler_found ctx env domainId w d Hget)
      as [logged Hrun].
    destruct (statusWrite_args env domainId d) as [Hid Hargs].
    destruct (mutationUpdateStatus ctx (statusWrite env domainId d)
                                   (meanwhile ctx (db w))) as [d'|e] eqn:Hup.
    + eexists _, _, (statusWrite env domainId d).
      split; [exact Hrun|]. simpl. rewrite Hup.
      split; [done|]. split; [done|]. split; [done|]. split; [done|].
      eexists. split; [done|].
      destruct (dnsMatch env d); simpl; (split; [done|]); [done|].
      intros _. by eexists.
    + eexists _, _, (statusWrite env domainId d).
      split; [exact Hrun|]. simpl. rewrite Hup. done.
  - intros others env domainId w d d1 Hget Hstill.
    destruct (verifyDomain_handler_found (specStoreWith others) env domainId
                w d) as [logged Hrun]; [simpl; by rewrite Hget|].
    destruct (statusWrite_args env domainId d) as [Hid Hargs].
    destruct (updateStatus_found (statusWrite env domainId d)
                (others (db w)) d1) as (d' & Hup & Hdom & _).
    { by rewrite Hid. }
    simpl in Hrun. rewrite Hup in Hrun. rewrite Hid in Hdom.
    eexists _, _, _. split; [exact Hrun|]. simpl.
    split; [done|]. unfold getById. rewrite Hdom, lookup_insert_eq.
    split; [done|]. simpl. split; [done|].
    destruct (dnsMatch env d); simpl.
    + split; [done|]. intros _. by destruct Hargs as [_ ->].
    + done.
  - intros others env domainId w d Hget Hgone.
    destruct (verifyDomain_handler_found (specStoreWith others) env domainId
                w d) as [logged Hrun]; [simpl; by rewrite Hget|].
    destruct (statusWrite_args env domainId d) as [Hid _].
    simpl in Hrun. unfold updateStatus in Hrun at 1.
    unfold getById in Hgone. rewrite Hid, Hgone in Hrun.
    eexists _, _. split; [exact Hrun|]. done.
  - intros env domainId w d Hget.
    destruct (verifyDomain_once env domainId w d Hget)
      as (result & w' & a & d' & Hrun & Hlog & Hid & Hget' & Hst & _ & _
          & Hres).
    exists result, w', a, d'. repeat (split; [assumption|]).
    intros env2.
    destruct (verifyDomain_once env2 domainId w' d' Hget')
      as (result2 & w2 & a2 & d2 & Hrun2 & Hlog2 & _ & Hget2 & Hst2 & _ & _
          & Hres2).
    exists result2, w2, a2, d2. split; [assumption|].
    split; [by rewrite Hlog2, Hlog, <- app_assoc|].
    repeat (split; [assumption|]).
    destruct (dnsMatch env2 d'); tauto.
Qed.

Lemma verifyDomain_definite_write_witness :
  exists result w' a d',
    verifyDomain offlineEnv 5 exampleWorld = (Returned result, w') /\
    mutationLog w' = [a] /\
    getById 5 (db w') = Some d' /\
    Domain.status d' = arg_status a /\
    arg_status a = failed.
Proof.
  destruct verifyDomain_definite_write as (_ & _ & _ & Hquiet).
  destruct (Hquiet offlineEnv 5 exampleWorld exampleClaim)
    as (result & w' & a & d' & Hrun & Hlog & _ & Hget & Hst & Hres & _);
    [reflexivity|].
  exists result, w', a, d'.
  repeat (split; [assumption|]).
  change (dnsMatch offlineEnv exampleClaim) with false in Hres.
  exact (proj2 (proj2 Hres)).
Defined.

(** The scenario of the specification: the resolver answers with the
    quoted expected value; the claim becomes verified and the workspace
    gets [domainVerified = true] and [joinCodeEnabled = false]. *)
Example verifyDomain_scenario :
  let env := resolverEnv (Some [txtAnswer
               (QUOTE :: lit "kiiaren-verification=abc123" ++ [QUOTE])]) in
  let w' := snd (verifyDomain env 5 exampleWorld) in
  fst (verifyDomain env 5 exampleWorld) = Returned (mkVerifyResult true None)
  /\ Domain.status <$> getById 5 (db w') = Some verified
  /\ transformWorkspace <$> workspaces (db w') !! 1 =
       Some (Workspace.mk 1 (lit "Acme") 7 (lit "a1b2c3") 0%Z true false).
Proof. repeat split. Qed.

(** C4. Whatever the name, [lookupDnsTxt] returns a list and never
    propagates a fault. When the query fails at the transport or parse
    level (network error, non-OK status, malformed JSON, and also a name
    that cannot be encoded) or the response has no [Answer], the list is
    empty, and [verifyDomain] on a claim returns the failure whose message
    says that no TXT records were found. When there is an [Answer], the
    records are exactly the unquoted [data] of its entries of type 16. *)
Theorem lookupDnsTxt_tolerates_failure env name w :
  (exists records w', lookupDnsTxt env name w = (Returned records, w')) /\
  (LookupFailure env name ->
   fst (lookupDnsTxt env name w) = Returned []) /\
  (forall domainId d,
     getById domainId (db w) = Some d ->
     LookupFailure env (dnsNameOf d) ->
     failsWith (fst (verifyDomain env domainId w))
       (lit "No TXT records found at " ++ dnsNameOf d ++
        lit ". Please add the DNS record and wait for propagation (usually 5-15 minutes).")) /\
  (forall answer,
     answered env name answer ->
     fst (lookupDnsTxt env name w) =
       Returned (map (fun a => unquote (DnsAnswer.data a))
                     (filter (fun a => DnsAnswer.type a = 16) answer))).
Proof.
  destruct (lookupDnsTxt_run env name w) as [lg Hrun].
  split; [eauto|]. split; [|split].
  - intros Hf. rewrite Hrun. simpl. by rewrite (txtData_failure _ _ Hf).
  - intros domainId d Hget Hf.
    destruct (verifyDomain_found env domainId w d Hget) as (lg' & d' & _ & ->).
    unfold failsWith, dnsMatch, txtRecordsFor.
    by rewrite (txtData_failure _ _ Hf).
  - intros answer Ha. rewrite Hrun. simpl.
    by rewrite (txtData_answered _ _ _ Ha), map_map.
Qed.

Lemma lookupDnsTxt_tolerates_failure_witness :
  fst (lookupDnsTxt offlineEnv (lit "_kiiaren-verification.acme.com")
         exampleWorld) = Returned [] /\
  fst (lookupDnsTxt
         (resolverEnv (Some [DnsAnswer.mk [] 5 300 (lit "alias.acme.com.");
                             txtAnswer (QUOTE :: lit "v=spf1" ++ [QUOTE])]))
         (lit "_kiiaren-verification.acme.com") exampleWorld)
    = Returned [lit "v=spf1"].
Proof.
  split.
  - apply (lookupDnsTxt_tolerates_failure offlineEnv).
    by eapply network_error.
  - match goal with
    | |- fst (lookupDnsTxt ?env ?name ?w) = _ =>
        destruct (lookupDnsTxt_tolerates_failure env name w)
          as (_ & _ & _ & Hanswer)
    end.
    rewrite (Hanswer [DnsAnswer.mk [] 5 300 (lit "alias.acme.com.");
                      txtAnswer (QUOTE :: lit "v=spf1" ++ [QUOTE])]).
    + reflexivity.
    + by eexists _, _, _.
Defined.

(** C5, as the code has it. When the query of [verifyDomain] finds no
    claim for the [domainId], the handler returns the structured result
    with [success = false] and the message Domain not found. Nothing is
    thrown, and the database, the console and the log of status writes are
    as they were, whatever the store and the network are. So it is for an
    id that references no claim of the specification's store. *)
Theorem verifyDomain_unknown_id_returns :
  (forall ctx env domainId w,
     queryGetById ctx domainId (db w) = Returned None ->
     verifyDomain_handler ctx env domainId w =
       (Returned (mkVerifyResult false (Some (lit "Domain not found"))), w))
  /\
  (forall env domainId w,
     getById domainId (db w) = None ->
     verifyDomain env domainId w =
       (Returned (mkVerifyResult false (Some (lit "Domain not found"))), w)).
Proof.
  split; [apply verifyDomain_handler_missing|apply verifyDomain_missing].
Qed.

Lemma verifyDomain_unknown_id_returns_witness :
  verifyDomain offlineEnv 6 exampleWorld =
    (Returned (mkVerifyResult false (Some (lit "Domain not found"))),
     exampleWorld).
Proof.
  apply (proj2 verifyDomain_unknown_id_returns offlineEnv 6 exampleWorld).
  reflexivity.
Defined.

(** C5, as stated, fails: for the id 6, which references no claim of the
    example database, the call does not end in a thrown error. *)
Lemma verifyDomain_unknown_id_not_thrown :
  getById 6 (db exampleWorld) = None /\
  ~ exists e, fst (verifyDomain offlineEnv 6 exampleWorld) = Thrown e.
Proof.
  split; [reflexivity|]. intros [e He]. discriminate He.
Qed.

(** [join] puts the separator before every element but the first. *)
Lemma join_spec sep (first : list N) rest :
  join sep (first :: rest) =
  first ++ concat (map (fun record => sep ++ record) rest).
Proof.
  revert first. induction rest as [|y rest IH]; intros first.
  - simpl. by rewrite app_nil_r.
  - change (join sep (first :: y :: rest))
      with (first ++ sep ++ join sep (y :: rest)).
    rewrite IH. simpl. by rewrite <- !app_assoc.
Qed.

Lemma join_contains sep (records : list (list N)) record :
  In record records -> contains (join sep records) record.
Proof.
  induction records as [|x records IH]; [done|].
  intros [->|Hin].
  - destruct records as [|y records].
    + exists [], []. by rewrite app_nil_r.
    + by exists [], (sep ++ join sep (y :: records)).
  - destruct records as [|y records]; [done|].
    destruct (IH Hin) as (pre & post & Heq).
    exists (x ++ sep ++ pre), post.
    change (join sep (x :: y :: records))
      with (x ++ sep ++ join sep (y :: records)).
    rewrite Heq. by rewrite <- !app_assoc.
Qed.

(** C8. When [verifyDomain] on a claim fails, the message it returns names
    the DNS name that was queried, the challenge prefix followed by the
    claim's domain. If the lookup found no TXT record, the message is the
    one with the propagation hint and its 5-15 minutes. If it found
    records and none matched, the message ends with the found values, each
    of them in full and in the order found, separated by a comma and a
    space. *)
Theorem verifyDomain_failure_message env domainId w d r :
  getById domainId (db w) = Some d ->
  fst (verifyDomain env domainId w) = Returned r ->
  success r = false ->
  exists msg records,
    error r = Some msg /\
    fst (lookupDnsTxt env (lit "_kiiaren-verification." ++ Domain.domain d) w)
      = Returned records /\
    records = txtRecordsFor env d /\
    contains msg (lit "_kiiaren-verification." ++ Domain.domain d) /\
    (txtRecordsFor env d = [] ->
     contains msg (lit "propagation") /\ contains msg (lit "5-15 minutes")) /\
    (txtRecordsFor env d <> [] ->
     contains msg (lit "Found: " ++ join (lit ", ") (txtRecordsFor env d))) /\
    match records with
    | [] =>
        msg = lit "No TXT records found at _kiiaren-verification."
              ++ Domain.domain d
              ++ lit ". Please add the DNS record and wait for propagation (usually 5-15 minutes)."
    | first :: rest =>
        msg = lit "TXT records found at _kiiaren-verification."
              ++ Domain.domain d
              ++ lit " but none match the expected value. Found: "
              ++ first
              ++ concat (map (fun record => lit ", " ++ record) rest)
        /\ Forall (fun record => contains msg record) records
    end.
Proof.
  intros Hget Hrun Hfail.
  destruct (verifyDomain_found env domainId w d Hget) as (lg & d' & _ & Heq).
  rewrite Heq in Hrun. simpl in Hrun.
  destruct (dnsMatch env d); injection Hrun as <-; [discriminate Hfail|].
  destruct (lookupDnsTxt_run env (dnsNameOf d) w) as [logged Hlookup].
  eexists _, (txtRecordsFor env d). split; [reflexivity|].
  split; [unfold dnsNameOf in Hlookup; by rewrite Hlookup|]. split; [done|].
  unfold failureMessage, dnsNameOf.
  destruct (txtRecordsFor env d) as [|x l] eqn:Hrec.
  - split; [|split; [intros _; split|split; [done|]]].
    + apply contains_intro.
    + exists (lit "No TXT records found at " ++
              (lit "_kiiaren-verification." ++ Domain.domain d) ++
              lit ". Please add the DNS record and wait for "),
             (lit " (usually 5-15 minutes).").
      by rewrite <- !app_assoc.
    + exists (lit "No TXT records found at " ++
              (lit "_kiiaren-verification." ++ Domain.domain d) ++
              lit ". Please add the DNS record and wait for propagation (usually "),
             (lit ").").
      by rewrite <- !app_assoc.
    + by rewrite <- !app_assoc.
  - split; [|split; [done|split; [intros _|split]]].
    + apply contains_intro.
    + exists (lit "TXT records found at " ++
              (lit "_kiiaren-verification." ++ Domain.domain d) ++
              lit " but none match the expected value. "), [].
      by rewrite app_nil_r, <- !app_assoc.
    + rewrite join_spec. by rewrite <- !app_assoc.
    + apply Forall_forall. intros record Hin%list_elem_of_In.
      destruct (join_contains (lit ", ") (x :: l) record Hin)
        as (pre & post & Hj).
      exists (lit "TXT records found at " ++
              (lit "_kiiaren-verification." ++ Domain.domain d) ++
              lit " but none match the expected value. Found: " ++ pre), post.
      rewrite Hj. by rewrite <- !app_assoc.
Qed.

Lemma verifyDomain_failure_message_witness :
  (exists msg,
     fst (verifyDomain (resolverEnv None) 5 exampleWorld)
       = Returned (mkVerifyResult false (Some msg)) /\
     contains msg (lit "_kiiaren-verification.acme.com") /\
     contains msg (lit "propagation")) /\
  fst (verifyDomain
         (resolverEnv (Some [txtAnswer (QUOTE :: lit "v=spf1" ++ [QUOTE]);
                             DnsAnswer.mk [] 5 300 (lit "alias.acme.com.");
                             txtAnswer (lit "kiiaren-verification=other")]))
         5 exampleWorld)
  = Returned (mkVerifyResult false (Some (lit
      "TXT records found at _kiiaren-verification.acme.com but none match the expected value. Found: v=spf1, kiiaren-verification=other"))).
Proof.
  split.
  - destruct (verifyDomain_failure_message (resolverEnv None) 5 exampleWorld
                exampleClaim (mkVerifyResult false (Some
                  (failureMessage exampleClaim []))))
      as (msg & records & Herr & _ & _ & Hname & Hnone & _); try reflexivity.
    exists msg. injection Herr as <-.
    split; [reflexivity|]. split; [exact Hname|]. by apply Hnone.
  - match goal with
    | |- fst (verifyDomain ?env 5 exampleWorld) = _ =>
        destruct (fst (verifyDomain env 5 exampleWorld)) as [r|e] eqn:Hrun;
          [|discriminate Hrun];
        destruct (verifyDomain_failure_message env 5 exampleWorld
                    exampleClaim r)
          as (msg & records & Herr & Hrecords & _ & _ & _ & _ & Hmsg)
    end.
    + reflexivity.
    + exact Hrun.
    + vm_compute in Hrun. by injection Hrun as <-.
    + injection Hrecords as <-. destruct Hmsg as [-> _].
      vm_compute in Hrun. injection Hrun as <-.
      reflexivity.
Defined.

(** ** The hooks and the workspace transformation *)

Lemma notImplemented_message pid op :
  contains (message (notImplemented pid op)) (lit "[" ++ pid ++ lit "]") /\
  contains (message (notImplemented pid op)) (lit "is not implemented").
Proof.
  unfold notImplemented, message. split.
  - exists [], (lit " " ++ op ++ lit " is not implemented. " ++
                lit "See docs/EDITIONING.md for self-host status.").
    by rewrite <- !app_assoc.
  - exists (lit "[" ++ pid ++ lit "] " ++ op ++ lit " "),
           (lit ". " ++ lit "See docs/EDITIONING.md for self-host status.").
    by rewrite <- !app_assoc.
Qed.

Lemma isConvex_false pid : pid <> lit "convex" -> isConvex pid = false.
Proof. intros H. unfold isConvex. by apply bool_decide_eq_false. Qed.

Lemma stoppedByGuard_intro {A} pid op t calls :
  Forall (fun c => issuesBackendCall c = false) calls ->
  @stoppedByGuard A pid t (Thrown (notImplemented pid op), t ++ calls).
Proof.
  intros H. exists (notImplemented pid op), calls.
  split; [done|]. split; [apply notImplemented_message|].
  split; [apply notImplemented_message|done].
Qed.

Section HookRuns.
Context {D : Type} (r : ReactEnv D) (t : list HookCall).
Hypothesis Hne : isConvex (providerId r) = false.

Ltac run_hook :=
  unfold useAddDomain, useVerifyDomain, useListDomains, useRemoveDomain,
         useGetVerificationInstructions, useProviderId, useMutation,
         useAction, useState, called, bind, throw;
  rewrite Hne; simpl; by rewrite <- ?app_assoc.

Lemma useAddDomain_guard :
  useAddDomain r t =
    (Thrown (notImplemented (providerId r) (lit "domains.add")),
     t ++ [UseProviderId; UseMutation (lit "domains.addDomain"); UseState]).
Proof. run_hook. Qed.

Lemma useVerifyDomain_guard :
  useVerifyDomain r t =
    (Thrown (notImplemented (providerId r) (lit "domains.verify")),
     t ++ [UseProviderId; UseAction (lit "domainActions.verifyDomain");
           UseState]).
Proof. run_hook. Qed.

Lemma useListDomains_guard workspaceId :
  useListDomains r workspaceId t =
    (Thrown (notImplemented (providerId r) (lit "domains.list")),
     t ++ [UseProviderId]).
Proof. run_hook. Qed.

Lemma useRemoveDomain_guard :
  useRemoveDomain r t =
    (Thrown (notImplemented (providerId r) (lit "domains.remove")),
     t ++ [UseProviderId; UseMutation (lit "domains.removeDomain");
           UseState]).
Proof. run_hook. Qed.

Lemma useGetVerificationInstructions_guard domainId :
  useGetVerificationInstructions r domainId t =
    (Thrown (notImplemented (providerId r)
               (lit "domains.getVerificationInstructions")),
     t ++ [UseProviderId]).
Proof. run_hook. Qed.

End HookRuns.

(** C9. For every provider id other than convex, each domain hook
    ([useAddDomain], [useVerifyDomain], [useListDomains],
    [useRemoveDomain], [useGetVerificationInstructions]) throws the
    not-implemented error, and no backend call is issued before it. *)
Theorem domain_hooks_convex_only {D} (r : ReactEnv D)
    (workspaceId : N) (domainId : option N) (t : list HookCall) :
  providerId r <> lit "convex" ->
  stoppedByGuard (providerId r) t (useAddDomain r t) /\
  stoppedByGuard (providerId r) t (useVerifyDomain r t) /\
  stoppedByGuard (providerId r) t (useListDomains r workspaceId t) /\
  stoppedByGuard (providerId r) t (useRemoveDomain r t) /\
  stoppedByGuard (providerId r) t
    (useGetVerificationInstructions r domainId t).
Proof.
  intros Hne. apply isConvex_false in Hne.
  rewrite useAddDomain_guard, useVerifyDomain_guard, useListDomains_guard,
    useRemoveDomain_guard, useGetVerificationInstructions_guard by done.
  repeat split; apply stoppedByGuard_intro; repeat constructor.
Qed.

Lemma domain_hooks_convex_only_witness :
  stoppedByGuard (lit "self-host") []
    (useListDomains (mkReactEnv (list N) (lit "self-host") (fun _ _ => None))
                    1 []) /\
  stoppedByGuard (lit "self-host") []
    (useAddDomain (mkReactEnv (list N) (lit "self-host") (fun _ _ => None))
                  []).
Proof.
  destruct (domain_hooks_convex_only
              (mkReactEnv (list N) (lit "self-host") (fun _ _ => None))
              1 (Some 5) [])
    as (Hadd & _ & Hlist & _); [discriminate|].
  split; assumption.
Defined.

(** C10. For a stored workspace whose domain trust fields are absent, the
    transformed workspace has [domainVerified = false] and
    [joinCodeEnabled = true]. *)
Theorem transformWorkspace_defaults w :
  WorkspaceDoc.domainVerified w = None ->
  WorkspaceDoc.joinCodeEnabled w = None ->
  Workspace.domainVerified (transformWorkspace w) = false /\
  Workspace.joinCodeEnabled (transformWorkspace w) = true.
Proof.
  intros Hdv Hjc. unfold transformWorkspace. simpl.
  by rewrite Hdv, Hjc.
Qed.

Lemma transformWorkspace_defaults_witness :
  Workspace.domainVerified
    (transformWorkspace
       (WorkspaceDoc.mk 1 (lit "Acme") 7 (lit "a1b2c3") 0%Z None None))
    = false /\
  Workspace.joinCodeEnabled
    (transformWorkspace
       (WorkspaceDoc.mk 1 (lit "Acme") 7 (lit "a1b2c3") 0%Z None None))
    = true.
Proof.
  apply (transformWorkspace_defaults
           (WorkspaceDoc.mk 1 (lit "Acme") 7 (lit "a1b2c3") 0%Z None None));
    reflexivity.
Defined.

(** ** Invite links *)

Section InviteFacts.

Lemma getInviteLinkByCode_Some code d id l :
  getInviteLinkByCode code d = Some (id, l) ->
  inviteLinks d !! id = Some l /\ InviteLink.code l = code.
Proof.
  unfold getInviteLinkByCode. intros H.
  apply find_some in H as [Hin Hc]. simpl in Hc.
  apply bool_decide_eq_true in Hc.
  apply list_elem_of_In, elem_of_map_to_list in Hin. done.
Qed.

Lemma getInviteLinkByCode_None code d :
  getInviteLinkByCode code d = None <->
  ~ exists id l, inviteLinks d !! id = Some l /\ InviteLink.code l = code.
Proof.
  unfold getInviteLinkByCode. split.
  - intros H (id & l & Hl & Hc).
    apply elem_of_map_to_list, list_elem_of_In in Hl.
    apply (find_none _ _ H) in Hl. simpl in Hl.
    by apply bool_decide_eq_false in Hl.
  - intros Hno.
    destruct (find _ _) as [[id l]|] eqn:Hf; [|done].
    apply getInviteLinkByCode_Some in Hf. destruct Hno. eauto.
Qed.

Lemma getInviteLinkByCode_exists code d :
  (exists id l, inviteLinks d !! id = Some l /\ InviteLink.code l = code) ->
  exists id l,
    getInviteLinkByCode code d = Some (id, l) /\
    inviteLinks d !! id = Some l /\ InviteLink.code l = code.
Proof.
  intros Hex.
  destruct (getInviteLinkByCode code d) as [[id l]|] eqn:Hf.
  - exists id, l. split; [done|]. by apply getInviteLinkByCode_Some.
  - apply getInviteLinkByCode_None in Hf. by destruct Hf.
Qed.

Lemma atMaxUses_true l :
  atMaxUses l = true <->
  exists n, InviteLink.maxUses l = Some n /\ n <= InviteLink.usedCount l.
Proof.
  unfold atMaxUses. destruct (InviteLink.maxUses l) as [n|].
  - rewrite N.leb_le. split; [eauto|]. by intros (? & [= <-] & ?).
  - split; [done|]. by intros (? & ? & ?).
Qed.

(** The four outcomes of the checks that precede the increment. *)
Lemma redeemInviteLink_cases code userId now d :
  (exists reason, redeemInviteLink code userId now d = (inl reason, d)) \/
  (exists id l,
     getInviteLinkByCode code d = Some (id, l) /\
     InviteLink.revokedAt l = None /\
     (now < InviteLink.expiresAt l)%Z /\
     atMaxUses l = false /\
     members d !! (InviteLink.workspaceId l, userId) = None /\
     redeemInviteLink code userId now d =
       (inr (InviteLink.workspaceId l),
        mkDb (domains d) (workspaces d)
             (<[id := incrementUsedCount l]> (inviteLinks d))
             (<[(InviteLink.workspaceId l, userId) := member]>
                (members d)))).
Proof.
  unfold redeemInviteLink.
  destruct (getInviteLinkByCode code d) as [[id l]|] eqn:Hf; [|eauto].
  destruct (InviteLink.revokedAt l) eqn:Hr; [eauto|].
  destruct (Z.leb_spec (InviteLink.expiresAt l) now); [eauto|].
  destruct (atMaxUses l) eqn:Hm; [eauto|].
  destruct (members d !! _) eqn:Hmem; [eauto|].
  right. exists id, l. eauto 10.
Qed.

End InviteFacts.

(** ** The store as a transition system *)

Section StoreFacts.

Variable validHost : list N -> bool.
Variable failedReserves : bool.

(** The database after a verification: unchanged if the id is unknown,
    the result of the one [updateStatus] otherwise. *)
Lemma verifyDomain_db env domainId d :
  (domains d !! domainId = None /\
   db (snd (verifyDomain env domainId (mkWorld d [] []))) = d) \/
  (exists c d',
     domains d !! domainId = Some c /\
     updateStatus (statusWrite env domainId c) d = Returned d' /\
     db (snd (verifyDomain env domainId (mkWorld d [] []))) = d').
Proof.
  destruct (domains d !! domainId) as [c|] eqn:Hc.
  - right.
    destruct (verifyDomain_found env domainId (mkWorld d [] []) c Hc)
      as (lg & d' & Hup & ->).
    by exists c, d'.
  - left. split; [done|].
    by rewrite (verifyDomain_missing env domainId (mkWorld d [] [])).
Qed.

Lemma statusWrite_id env domainId c :
  arg_domainId (statusWrite env domainId c) = domainId.
Proof. unfold statusWrite. by destruct (dnsMatch env c). Qed.

Lemma addDomain_cases ws name u r tok now d :
  (exists e, addDomain validHost failedReserves ws name u r tok now d = (inl e, d)) \/
  (exists host,
     r = admin /\ normalizeDomain validHost name = Some host /\
     ~ claimed failedReserves host d /\
     addDomain validHost failedReserves ws name u r tok now d =
       (inr (fresh (dom (domains d))),
        mkDb (<[fresh (dom (domains d)) :=
                  Domain.mk ws host tok pending None now u]> (domains d))
             (workspaces d) (inviteLinks d) (members d))).
Proof.
  unfold addDomain. destruct r; [|eauto].
  destruct (normalizeDomain validHost name) as [host|]; [|eauto].
  destruct (decide (claimed failedReserves host d)); [eauto|].
  right. by exists host.
Qed.

Lemma fresh_domain_id (d : Db) : domains d !! fresh (dom (domains d)) = None.
Proof. apply not_elem_of_dom, is_fresh. Qed.

Lemma removeDomain_domains id r d :
  domains (snd (removeDomain id r d)) = domains d \/
  domains (snd (removeDomain id r d)) = delete id (domains d).
Proof.
  unfold removeDomain. destruct (domains d !! id); [|by left].
  destruct r; [by right|by left].
Qed.

Lemma removeDomain_inviteLinks id r d :
  inviteLinks (snd (removeDomain id r d)) = inviteLinks d.
Proof.
  unfold removeDomain. destruct (domains d !! id); [|done]. by destruct r.
Qed.




(** *** Use counts *)

Lemma withinMaxUses_insert d id l (links := <[id := l]> (inviteLinks d)) :
  withinMaxUses d ->
  (forall n, InviteLink.maxUses l = Some n -> InviteLink.usedCount l <= n) ->
  forall ds ws ms, withinMaxUses (mkDb ds ws links ms).
Proof.
  intros Hinv Hl ds ws ms id' l' n. simpl. subst links.
  rewrite lookup_insert_Some. intros [[<- <-]|[_ Hold]] Hmax.
  - by apply Hl.
  - by apply (Hinv id' l').
Qed.

Lemma withinMaxUses_exec c d :
  withinMaxUses d -> withinMaxUses (exec validHost failedReserves c d).
Proof.
  intros Hinv. destruct c as [ws name u r tok now|env id|id r
    |ws sc h mx u r code now|code u now|id r now|ws ms]; simpl.
  - destruct (addDomain_cases ws name u r tok now d)
      as [[e ->]|(host & _ & _ & _ & ->)]; done.
  - destruct (verifyDomain_db env id d)
      as [[_ ->]|(c & d' & Hc & Hup & ->)]; [done|].
    destruct (updateStatus_found (statusWrite env id c) d c)
      as (d'' & Hup' & _ & Hlinks & _).
    { by rewrite statusWrite_id. }
    rewrite Hup in Hup'. injection Hup' as <-.
    unfold withinMaxUses. rewrite Hlinks. exact Hinv.
  - unfold withinMaxUses. rewrite removeDomain_inviteLinks. exact Hinv.
  - unfold createInviteLink. destruct r; [|done]. simpl.
    apply withinMaxUses_insert; [done|]. simpl. lia.
  - destruct (redeemInviteLink_cases code u now d)
      as [[reason ->]|(id & l & Hf & _ & _ & Hm & _ & ->)]; [done|].
    simpl. apply withinMaxUses_insert; [done|].
    intros n Hn. simpl in *. unfold atMaxUses in Hm. rewrite Hn in Hm.
    apply N.leb_gt in Hm. lia.
  - unfold revokeInviteLink.
    destruct (inviteLinks d !! id) as [l|] eqn:Hl; [|done].
    destruct r; [|done]. simpl.
    apply withinMaxUses_insert; [done|]. simpl. intros n Hn.
    by apply (Hinv id l).
  - exact Hinv.
Qed.

Lemma reachable_withinMaxUses d :
  reachable validHost failedReserves d -> withinMaxUses d.
Proof.
  induction 1 as [|c d _ IH].
  - intros id l n H. simpl in H. by rewrite lookup_empty in H.
  - by apply withinMaxUses_exec.
Qed.

(** *** Uniqueness of claims *)










Lemma reachable_run cs : reachable validHost failedReserves (run validHost failedReserves cs emptyDb).
Proof.
  unfold run. rewrite <- fold_left_rev_right.
  induction (rev cs) as [|c l IH]; simpl; by constructor.
Qed.

End StoreFacts.

(** ** Claims about the store operations *)

(** *** A store in which every claim reserves its domain *)

Section ReservingStore.

Variable validHost : list N -> bool.




End ReservingStore.

(** What the choice of section 9 decides. In a store where a failed claim
    frees its domain, the commands of [retryCommands] leave workspace 1 with
    a verified claim and workspace 2 with a pending claim for acme.com. In a
    store where it keeps the domain, the second [addDomain] is refused and
    the same commands leave one claim. *)
Example uniqueness_broken_by_retry :
  reachable hostLike false retriedDb /\ ~ uniqueness retriedDb /\
  reachable hostLike true retriedReservingDb /\
  Domain.workspaceId <$> domains retriedReservingDb = {[ 0 := 1 ]}.
Proof.
  split; [apply reachable_run|]. split; [|split; [apply reachable_run|]].
  - intros Hu.
    assert (H0 : domains retriedDb !! 0 =
                 Some (Domain.mk 1 (lit "acme.com") (lit "tok1") verified
                                 (Some 1000%Z) 0%Z 11)) by reflexivity.
    assert (H1 : domains retriedDb !! 1 =
                 Some (Domain.mk 2 (lit "acme.com") (lit "tok2") pending
                                 None 5%Z 22)) by reflexivity.
    specialize (Hu 0 1 _ _ H0 H1 eq_refl eq_refl eq_refl).
    discriminate Hu.
  - reflexivity.
Qed.




(** C6. [getInviteLinkByCode] returns a stored link with the given code
    whenever one exists, the stored link itself when the code is unique,
    whether or not that link is expired, revoked or at its use limit: the
    lookup reads neither the clock nor those fields. It returns nothing only
    when no stored link has the code. *)
Theorem getInviteLinkByCode_any_validity code d :
  ((exists id l, inviteLinks d !! id = Some l /\ InviteLink.code l = code) ->
   exists id l,
     getInviteLinkByCode code d = Some (id, l) /\
     inviteLinks d !! id = Some l /\ InviteLink.code l = code) /\
  (forall id l,
     inviteLinks d !! id = Some l -> InviteLink.code l = code ->
     (forall id' l', inviteLinks d !! id' = Some l' ->
                     InviteLink.code l' = code -> id' = id) ->
     getInviteLinkByCode code d = Some (id, l)) /\
  (getInviteLinkByCode code d = None <->
   ~ exists id l, inviteLinks d !! id = Some l /\ InviteLink.code l = code).
Proof.
  split; [apply getInviteLinkByCode_exists|].
  split; [|apply getInviteLinkByCode_None].
  intros id l Hl Hc Huniq.
  destruct (getInviteLinkByCode_exists code d) as (id' & l' & -> & Hl' & Hc');
    [eauto|].
  pose proof (Huniq id' l' Hl' Hc') as ->.
  rewrite Hl in Hl'. by injection Hl' as ->.
Qed.

Lemma getInviteLinkByCode_any_validity_witness :
  InviteLink.revokedAt spentLink = Some 5%Z /\
  InviteLink.expiresAt spentLink = 10%Z /\
  atMaxUses spentLink = true /\
  getInviteLinkByCode (lit "c0de") spentDb = Some (0, spentLink).
Proof.
  repeat (split; [reflexivity|]).
  destruct (getInviteLinkByCode_any_validity (lit "c0de") spentDb)
    as (_ & Hget & _).
  apply (Hget 0 spentLink); [reflexivity|reflexivity|].
  intros id' l' Hl' _. simpl in Hl'.
  apply lookup_singleton_Some in Hl' as [<- _]. reflexivity.
Defined.

(** C7. In every reachable state, a link with [maxUses = N] has
    [usedCount <= N]. A redemption attempt on a link with [usedCount >= N]
    fails and leaves the database, so the count, unchanged; the reason is
    [max_uses] when the link is neither revoked nor expired, the two checks
    that come first. A successful redemption adds one to a count that was
    below N, so it does not overshoot. *)
Theorem redeemInviteLink_bounded validHost failedReserves d :
  reachable validHost failedReserves d ->
  withinMaxUses d /\
  (forall code userId now id l n,
     getInviteLinkByCode code d = Some (id, l) ->
     InviteLink.maxUses l = Some n -> n <= InviteLink.usedCount l ->
     (exists reason, redeemInviteLink code userId now d = (inl reason, d)) /\
     (InviteLink.revokedAt l = None -> (now < InviteLink.expiresAt l)%Z ->
      redeemInviteLink code userId now d = (inl max_uses, d))) /\
  (forall code userId now ws d',
     redeemInviteLink code userId now d = (inr ws, d') ->
     withinMaxUses d' /\
     exists id l,
       getInviteLinkByCode code d = Some (id, l) /\
       inviteLinks d' !! id = Some (incrementUsedCount l) /\
       InviteLink.usedCount (incrementUsedCount l)
         = InviteLink.usedCount l + 1 /\
       forall n, InviteLink.maxUses l = Some n ->
                 InviteLink.usedCount l < n).
Proof.
  intros Hreach.
  split; [by apply (reachable_withinMaxUses validHost failedReserves)|].
  split.
  - intros code userId now id l n Hf Hmax Hn.
    assert (Hm : atMaxUses l = true) by (apply atMaxUses_true; eauto).
    unfold redeemInviteLink. rewrite Hf.
    split.
    + destruct (InviteLink.revokedAt l); [eauto|].
      destruct (_ <=? _)%Z; [eauto|]. rewrite Hm. eauto.
    + intros -> Hexp. apply Z.leb_gt in Hexp. by rewrite Hexp, Hm.
  - intros code userId now ws d' Hred.
    split.
    + change d' with (snd (inr (A:=InviteLinkReason) ws, d')).
      rewrite <- Hred.
      apply (reachable_withinMaxUses validHost failedReserves).
      by apply (reachable_step validHost failedReserves
                  (CRedeemInviteLink code userId now)).
    + destruct (redeemInviteLink_cases code userId now d)
        as [[reason Hr]|(id & l & Hf & _ & _ & Hm & _ & Hr)];
        rewrite Hr in Hred; [discriminate|].
      injection Hred as <- <-. exists id, l.
      split; [done|]. simpl. split; [apply lookup_insert_eq|].
      split; [done|]. intros n Hn.
      unfold atMaxUses in Hm. rewrite Hn in Hm. by apply N.leb_gt in Hm.
Qed.

(** The order of the checks: a link that is revoked, expired and at its
    limit is refused as revoked. *)
Example redeemInviteLink_spent_link :
  redeemInviteLink (lit "c0de") 6 20%Z spentDb = (inl revoked, spentDb).
Proof. reflexivity. Qed.

Lemma redeemInviteLink_bounded_witness :
  withinMaxUses redeemedDb /\
  redeemInviteLink (lit "c0de") 6 20%Z redeemedDb = (inl max_uses, redeemedDb).
Proof.
  destruct (redeemInviteLink_bounded hostLike false redeemedDb)
    as (Hinv & Hfull & _); [apply reachable_run|].
  split; [exact Hinv|].
  eapply (Hfull (lit "c0de") 6 20%Z 0 _ 1); [reflexivity| | | |];
    try reflexivity; vm_compute; congruence.
Defined.

(** * Further properties of the code *)

(** ** The DNS adapter *)

Lemma escapeQuotes_head s :
  match escapeQuotes s with
  | c :: _ => c <> QUOTE
  | [] => True
  end.
Proof.
  destruct s as [|c s]; simpl; [done|].
  destruct (N.eqb_spec c QUOTE); simpl; [discriminate|done].
Qed.

Lemma unescapeQuotes_cons c s :
  (c =? BACKSLASH) && (match s with d :: _ => d =? QUOTE | [] => false end)
    = false ->
  unescapeQuotes (c :: s) = c :: unescapeQuotes s.
Proof.
  intros H. destruct s as [|d s]; [reflexivity|].
  change (unescapeQuotes (c :: d :: s))
    with (if (c =? BACKSLASH) && (d =? QUOTE)
          then QUOTE :: unescapeQuotes s
          else c :: unescapeQuotes (d :: s)).
  by rewrite H.
Qed.

Lemma unescapeQuotes_escapeQuotes s :
  unescapeQuotes (escapeQuotes s) = s.
Proof.
  induction s as [|c s IH]; [reflexivity|]. simpl.
  destruct (N.eqb_spec c QUOTE) as [->|Hc].
  - change (unescapeQuotes (BACKSLASH :: QUOTE :: escapeQuotes s))
      with (QUOTE :: unescapeQuotes (escapeQuotes s)).
    by rewrite IH.
  - rewrite unescapeQuotes_cons, IH; [done|].
    pose proof (escapeQuotes_head s) as Hh.
    destruct (escapeQuotes s) as [|d r]; [apply andb_false_r|].
    apply N.eqb_neq in Hh. rewrite Hh. apply andb_false_r.
Qed.

(** X1. Decoding the presentation form gives the value back: for every
    string, quoting it, with a backslash before each inner quote, and then
    applying the two replacements of [lookupDnsTxt] is the identity. *)
Theorem unquote_presentTxt value : unquote (presentTxt value) = value.
Proof.
  unfold unquote, presentTxt.
  by rewrite stripQuotes_quoted, unescapeQuotes_escapeQuotes.
Qed.

(** X2. Publishing the expected value suffices: if the answer for the
    challenge name has a type-16 entry that presents, quoted and escaped, a
    value whose trimmed content is the expected value, [verifyDomain]
    returns success, whatever other entries the answer has. *)
Theorem verifyDomain_complete env domainId w d answer a value :
  getById domainId (db w) = Some d ->
  answered env (dnsNameOf d) answer ->
  In a answer -> DnsAnswer.type a = 16 ->
  DnsAnswer.data a = presentTxt value ->
  trim value = expectedValueOf d ->
  fst (verifyDomain env domainId w) = Returned (mkVerifyResult true None).
Proof.
  intros Hget Hans Hin Hty Hdata Htrim.
  destruct (verifyDomain_found env domainId w d Hget) as (lg & d' & _ & ->).
  simpl.
  assert (Hm : dnsMatch env d = true); [|by rewrite Hm].
  apply dnsMatch_spec. exists (DnsAnswer.data a). split.
  - rewrite (txtData_answered _ _ _ Hans). apply in_map.
    apply list_elem_of_In, list_elem_of_filter. split; [done|].
    by apply list_elem_of_In.
  - rewrite Hdata. fold (unquote (presentTxt value)).
    by rewrite unquote_presentTxt.
Qed.

Lemma verifyDomain_complete_witness :
  fst (verifyDomain
         (resolverEnv (Some [txtAnswer (lit "v=spf1 -all");
                             txtAnswer (presentTxt
                               (lit " kiiaren-verification=abc123 "))]))
         5 exampleWorld)
    = Returned (mkVerifyResult true None).
Proof.
  eapply (verifyDomain_complete _ 5 exampleWorld exampleClaim _
            (txtAnswer (presentTxt (lit " kiiaren-verification=abc123 ")))
            (lit " kiiaren-verification=abc123 "));
    try reflexivity.
  - by eexists _, _, _.
  - right. by left.
Defined.

Lemma trimEnd_last s r c :
  trimEnd s = r ++ [c] -> isWhiteSpace c = false.
Proof.
  revert r. induction s as [|a s IH]; intros r; simpl.
  - by destruct r.
  - destruct (trimEnd s) as [|x t] eqn:Ht.
    + destruct (isWhiteSpace a) eqn:Ha; [by destruct r|].
      destruct r as [|y [|z r]]; simpl; intros [= -> ]; try done.
    + destruct r as [|y r]; simpl; [intros [= _ Habs]; discriminate Habs|].
      intros [= _ Hr]. by apply (IH r).
Qed.

(** X3. A trimmed record never ends in white space, so a claim whose
    token ends in a white-space character can never be verified, whatever
    the DNS answers. *)
Theorem verifyDomain_token_trailing_space env domainId w d t c :
  getById domainId (db w) = Some d ->
  Domain.verificationToken d = t ++ [c] -> isWhiteSpace c = true ->
  ~ succeeds (fst (verifyDomain env domainId w)).
Proof.
  intros Hget Htok Hws Hs.
  apply (verifyDomain_succeeds_iff env domainId w d Hget) in Hs.
  apply dnsMatch_spec in Hs as (record & _ & Heq).
  unfold trim in Heq. change DNS_TXT_PREFIX with (lit "kiiaren-verification=") in Heq.
  rewrite Htok, app_assoc in Heq.
  apply trimEnd_last in Heq. congruence.
Qed.

Lemma verifyDomain_token_trailing_space_witness :
  ~ succeeds
      (fst (verifyDomain
              (resolverEnv (Some [txtAnswer (lit "kiiaren-verification=abc ")]))
              5
              (mkWorld (mkDb {[ 5 := Domain.mk 1 (lit "acme.com") (lit "abc ")
                                       pending None 0%Z 7 ]} ∅ ∅ ∅) [] []))).
Proof.
  eapply (verifyDomain_token_trailing_space _ 5 _ _ (lit "abc") 32);
    reflexivity.
Defined.

(** X4. Records never spoil a verification: if every TXT record returned
    in one environment is also returned in another, a verification that
    succeeds in the first succeeds in the second. *)
Theorem verifyDomain_more_records env env' domainId w d :
  getById domainId (db w) = Some d ->
  (forall record, In record (txtData env (dnsNameOf d)) ->
                  In record (txtData env' (dnsNameOf d))) ->
  succeeds (fst (verifyDomain env domainId w)) ->
  succeeds (fst (verifyDomain env' domainId w)).
Proof.
  intros Hget Hsub.
  rewrite !(verifyDomain_succeeds_iff _ domainId w d Hget), !dnsMatch_spec.
  intros (record & Hin & Heq). exists record. split; [by apply Hsub|done].
Qed.

Lemma verifyDomain_more_records_witness :
  succeeds
    (fst (verifyDomain
            (resolverEnv (Some [txtAnswer (lit "v=spf1 -all");
                                txtAnswer (lit "kiiaren-verification=abc123");
                                txtAnswer (lit "unrelated")]))
            5 exampleWorld)).
Proof.
  apply (verifyDomain_more_records
           (resolverEnv (Some [txtAnswer (lit "kiiaren-verification=abc123")]))
           _ 5 exampleWorld exampleClaim).
  - reflexivity.
  - intros record [<-|[]]. right. by left.
  - reflexivity.
Defined.

(** ** Error classes *)

(** X5. The message of a [DomainVerificationError] tells the reason: for
    the same domain and details, two errors with the same message have the
    same reason. The same holds for [InviteLinkError], whatever the
    codes. *)
Theorem error_messages_tell_reason :
  (forall domain details r1 r2,
     dve_message (DomainVerificationError domain r1 details) =
     dve_message (DomainVerificationError domain r2 details) -> r1 = r2) /\
  (forall code1 code2 r1 r2,
     ile_message (InviteLinkError code1 r1) =
     ile_message (InviteLinkError code2 r2) -> r1 = r2).
Proof.
  split.
  - intros domain details r1 r2 H. simpl in H.
    destruct r1, r2; try reflexivity; simpl in H; discriminate H.
  - intros code1 code2 r1 r2 H.
    destruct r1, r2; try reflexivity; vm_compute in H; discriminate H.
Qed.

(** X6. The details of a [DomainVerificationError] are appended after a
    full stop and a space when they are a non-empty string; an empty
    string is dropped, exactly as when no details are given. *)
Theorem DomainVerificationError_details domain reason :
  dve_message (DomainVerificationError domain reason (Some [])) =
  dve_message (DomainVerificationError domain reason None) /\
  forall c details,
    dve_message (DomainVerificationError domain reason (Some (c :: details))) =
    dve_message (DomainVerificationError domain reason None)
      ++ lit ". " ++ c :: details.
Proof.
  split; [reflexivity|]. intros c details.
  unfold DomainVerificationError.
  cbn [dve_message truthy nullish].
  by rewrite app_nil_r, <- !app_assoc.
Qed.

(** X7. The [not_found] error names the DNS name that [verifyDomain]
    queries for a claim of that domain. *)
Theorem DomainVerificationError_names_challenge d details :
  contains
    (dve_message
       (DomainVerificationError (Domain.domain d) domain_not_found details))
    (dnsNameOf d).
Proof.
  unfold dnsNameOf. simpl dve_message.
  exists (lit "[KIIAREN] Domain verification failed: DNS TXT record not found for "),
         (if truthy details then lit ". " ++ nullish details [] else []).
  by rewrite <- !app_assoc.
Qed.

Lemma error_messages_tell_reason_witness :
  dve_message (DomainVerificationError (lit "acme.com") domain_not_found None)
  <> dve_message (DomainVerificationError (lit "acme.com") dns_error None) /\
  ile_message (InviteLinkError (lit "c0de") expired)
  <> ile_message (InviteLinkError (lit "c0de") revoked).
Proof.
  destruct error_messages_tell_reason as [Hd Hi].
  split; intros H; [apply Hd in H|apply Hi in H]; discriminate H.
Defined.

(** ** The [mutate] callbacks *)

Section MutateFacts.

Context {Arg Res : Type}.
Variable backend : BackendFn -> Arg -> Outcome Res.
Variable h : MutateHook.
Variable args : Arg.

(** What each optional callback does when it is called. *)
Lemma callOnSuccess_run {R} (options : option (MutateOptions R)) (r : R)
    (t : list (CallbackEvent Arg R)) :
  exists o, callOnSuccess options r t = (o, t ++ onSuccessEvents options r)
            /\ (quiet options -> o = Returned tt)
            /\ (forall op f, options = Some op -> onSuccess op = Some f ->
                             o = f r).
Proof.
  unfold callOnSuccess, onSuccessEvents, quiet, ret.
  destruct options as [op|]; [destruct (onSuccess op) as [f|] eqn:Hf|].
  - exists (f r). split; [done|]. split.
    + intros Hq. destruct (Hq op eq_refl) as (Hs & _ & _). by apply Hs.
    + intros op' f' [= <-]. rewrite Hf. by intros [= <-].
  - exists (Returned tt). rewrite app_nil_r. split; [done|]. split; [done|].
    intros op' f' [= <-]. by rewrite Hf.
  - exists (Returned tt). rewrite app_nil_r. done.
Qed.

Lemma callOnError_run {R} (options : option (MutateOptions R)) (e : JsError)
    (t : list (CallbackEvent Arg R)) :
  exists o, callOnError options e t = (o, t ++ onErrorEvents options e)
            /\ (quiet options -> o = Returned tt).
Proof.
  unfold callOnError, onErrorEvents, quiet, ret.
  destruct options as [op|]; [destruct (onError op) as [f|] eqn:Hf|].
  - exists (f e). split; [done|]. intros Hq.
    destruct (Hq op eq_refl) as (_ & He & _). by apply He.
  - exists (Returned tt). by rewrite app_nil_r.
  - exists (Returned tt). by rewrite app_nil_r.
Qed.

Lemma callOnSettled_run {R} (options : option (MutateOptions R))
    (t : list (CallbackEvent Arg R)) :
  exists o, callOnSettled options t = (o, t ++ onSettledEvents options)
            /\ (quiet options -> o = Returned tt).
Proof.
  unfold callOnSettled, onSettledEvents, quiet, ret.
  destruct options as [op|]; [destruct (onSettled op) as [f|] eqn:Hf|].
  - exists f. split; [done|]. intros Hq.
    destruct (Hq op eq_refl) as (_ & _ & Hs). by apply Hs.
  - exists (Returned tt). by rewrite app_nil_r.
  - exists (Returned tt). by rewrite app_nil_r.
Qed.

(** The cleanup of the [finally] block. *)
Lemma finally_run {R A} (options : option (MutateOptions R))
    (body : Eff (list (CallbackEvent Arg R)) A) o t t1 :
  body t = (o, t1) ->
  exists o',
    try_finally body
      (bind (emit (EvSetIsPending false)) (fun _ => callOnSettled options)) t
    = (o', t1 ++ [EvSetIsPending false] ++ onSettledEvents options)
    /\ (quiet options -> o' = o)
    /\ (forall e, o = Thrown e -> exists e', o' = Thrown e').
Proof.
  intros Hb. unfold try_finally, bind, emit. rewrite Hb.
  destruct (callOnSettled_run options (t1 ++ [EvSetIsPending false]))
    as (os & -> & Hq).
  rewrite <- app_assoc.
  destruct os as [[]|e'].
  - exists o. split; [done|]. split; [done|]. intros e ->. eauto.
  - exists (Thrown e'). split; [done|]. split.
    + intros Hqq. by specialize (Hq Hqq).
    + eauto.
Qed.

(** The [catch] block. *)
Lemma catch_run {R A} (options : option (MutateOptions R)) (e : JsError)
    (t : list (CallbackEvent Arg R)) :
  exists e',
    bind (callOnError options e) (fun _ => throw (A:=A) e) t
    = (Thrown e', t ++ onErrorEvents options e)
    /\ (quiet options -> e' = e).
Proof.
  unfold bind, throw.
  destruct (callOnError_run options e t) as (o & -> & Hq).
  destruct o as [[]|e'].
  - by exists e.
  - exists e'. split; [done|]. intros Hqq. by specialize (Hq Hqq).
Qed.

(** The [try] and [catch] blocks of [mutateReturning]. *)
Lemma mutateReturning_body (options : option (MutateOptions Res)) t :
  let fn := mutate h in
  let t1 := t ++ [EvBackend fn args] in
  exists o middle,
    try_catch
      (bind (awaitBackend backend fn args) (fun result =>
         bind (callOnSuccess options result) (fun _ => ret result)))
      (fun error => bind (callOnError options error)
                         (fun _ => throw error)) t
    = (o, t1 ++ middle) /\
    forallb (fun ev => negb (isSettling ev)) middle = true /\
    match backend fn args with
    | Thrown e =>
        middle = onErrorEvents options e /\
        exists e', o = Thrown e' /\ (quiet options -> e' = e)
    | Returned r =>
        (quiet options ->
         o = Returned r /\ middle = onSuccessEvents options r) /\
        (forall op f e, options = Some op -> onSuccess op = Some f ->
                        f r = Thrown e ->
                        middle = EvOnSuccess r :: onErrorEvents options e /\
                        exists e', o = Thrown e')
    end.
Proof.
  intros fn t1. subst t1.
  assert (quietEv : forall e,
            forallb (fun ev : CallbackEvent Arg Res => negb (isSettling ev))
                    (onErrorEvents options e) = true).
  { intros e. unfold onErrorEvents.
    destruct options as [[? [?|] ?]|]; reflexivity. }
  assert (quietSucc : forall r,
            forallb (fun ev : CallbackEvent Arg Res => negb (isSettling ev))
                    (onSuccessEvents options r) = true).
  { intros r. unfold onSuccessEvents.
    destruct options as [[[?|] ? ?]|]; reflexivity. }
  unfold try_catch, bind at 1, awaitBackend.
  destruct (backend fn args) as [r|e].
  - unfold bind at 1, ret.
    destruct (callOnSuccess_run options r (t ++ [EvBackend fn args]))
      as (os & -> & Hq & Hf).
    destruct os as [[]|e].
    + exists (Returned r), (onSuccessEvents options r).
      split; [done|]. split; [apply quietSucc|]. split; [done|].
      intros op f e Hop Hs Hfr. rewrite <- (Hf op f Hop Hs) in Hfr.
      discriminate Hfr.
    + destruct (catch_run (A:=Res) options e
                  ((t ++ [EvBackend fn args]) ++ onSuccessEvents options r))
        as (e' & -> & He').
      exists (Thrown e'), (onSuccessEvents options r ++ onErrorEvents options e).
      rewrite <- !app_assoc. split; [done|].
      split; [by rewrite forallb_app, quietSucc, quietEv|]. split.
      * intros Hqq. by specialize (Hq Hqq).
      * intros op f e0 Hop Hs Hfr. rewrite <- (Hf op f Hop Hs) in Hfr.
        injection Hfr as <-. unfold onSuccessEvents. rewrite Hop, Hs.
        split; [done|]. eauto.
  - destruct (catch_run (A:=Res) options e (t ++ [EvBackend fn args]))
      as (e' & -> & He').
    exists (Thrown e'), (onErrorEvents options e).
    split; [done|]. split; [apply quietEv|]. split; [done|]. eauto.
Qed.

Lemma mutateVoid_body (options : option (MutateOptions unit)) t :
  exists o middle,
    try_catch
      (bind (awaitBackend backend (mutate h) args) (fun _result =>
         callOnSuccess options tt))
      (fun error => bind (callOnError options error)
                         (fun _ => throw error)) t
    = (o, (t ++ [EvBackend (mutate h) args]) ++ middle) /\
    forallb (fun ev => negb (isSettling ev)) middle = true /\
    match backend (mutate h) args with
    | Thrown e =>
        middle = onErrorEvents options e /\
        exists e', o = Thrown e' /\ (quiet options -> e' = e)
    | Returned _ =>
        (quiet options ->
         o = Returned tt /\ middle = onSuccessEvents options tt) /\
        (forall op f e, options = Some op -> onSuccess op = Some f ->
                        f tt = Thrown e ->
                        middle = EvOnSuccess tt :: onErrorEvents options e /\
                        exists e', o = Thrown e')
    end.
Proof.
  assert (quietEv : forall e,
            forallb (fun ev : CallbackEvent Arg unit => negb (isSettling ev))
                    (onErrorEvents options e) = true).
  { intros e. unfold onErrorEvents.
    destruct options as [[? [?|] ?]|]; reflexivity. }
  assert (quietSucc :
            forallb (fun ev : CallbackEvent Arg unit => negb (isSettling ev))
                    (onSuccessEvents options tt) = true).
  { unfold onSuccessEvents. destruct options as [[[?|] ? ?]|]; reflexivity. }
  unfold try_catch, bind at 1, awaitBackend.
  destruct (backend (mutate h) args) as [r|e].
  - destruct (callOnSuccess_run options tt (t ++ [EvBackend (mutate h) args]))
      as (os & -> & Hq & Hf).
    destruct os as [[]|e].
    + exists (Returned tt), (onSuccessEvents options tt).
      split; [done|]. split; [apply quietSucc|]. split; [done|].
      intros op f e Hop Hs Hfr. rewrite <- (Hf op f Hop Hs) in Hfr.
      discriminate Hfr.
    + destruct (catch_run (A:=unit) options e
                  ((t ++ [EvBackend (mutate h) args])
                     ++ onSuccessEvents options tt))
        as (e' & -> & _).
      exists (Thrown e'), (onSuccessEvents options tt ++ onErrorEvents options e).
      rewrite <- !app_assoc. split; [done|].
      split; [by rewrite forallb_app, quietSucc, quietEv|]. split.
      * intros Hqq. by specialize (Hq Hqq).
      * intros op f e0 Hop Hs Hfr. rewrite <- (Hf op f Hop Hs) in Hfr.
        injection Hfr as <-. unfold onSuccessEvents. rewrite Hop, Hs.
        split; [done|]. eauto.
  - destruct (catch_run (A:=unit) options e (t ++ [EvBackend (mutate h) args]))
      as (e' & -> & He').
    exists (Thrown e'), (onErrorEvents options e).
    split; [done|]. split; [apply quietEv|]. split; [done|]. eauto.
Qed.

(** X8. Whatever the backend and the callbacks do, a [mutate] call of the
    domain hooks sets the pending flag, clears it again at the end, and
    then calls [onSettled] once if it is given; nothing in between touches
    the flag or calls [onSettled]. This holds for the [mutate] of
    [useAddDomain] and [useVerifyDomain] and for that of
    [useRemoveDomain]. *)
Theorem mutate_always_settles
    (options : option (MutateOptions Res))
    (optionsVoid : option (MutateOptions unit))
    (t : list (CallbackEvent Arg Res)) (t' : list (CallbackEvent Arg unit)) :
  (exists o middle,
     mutateReturning backend h args options t =
       (o, t ++ [EvSetIsPending true; EvBackend (mutate h) args] ++ middle
             ++ [EvSetIsPending false] ++ onSettledEvents options) /\
     forallb (fun ev => negb (isSettling ev)) middle = true) /\
  (exists o middle,
     mutateVoid backend h args optionsVoid t' =
       (o, t' ++ [EvSetIsPending true; EvBackend (mutate h) args] ++ middle
              ++ [EvSetIsPending false] ++ onSettledEvents optionsVoid) /\
     forallb (fun ev => negb (isSettling ev)) middle = true).
Proof.
  split.
  - destruct (mutateReturning_body options (t ++ [EvSetIsPending true]))
      as (o & middle & Hbody & Hquiet & _).
    destruct (finally_run options _ _ _ _ Hbody) as (o' & Hfin & _).
    exists o', middle. split; [|done].
    unfold mutateReturning, bind at 1, emit at 1.
    rewrite Hfin. by rewrite <- !app_assoc.
  - destruct (mutateVoid_body optionsVoid (t' ++ [EvSetIsPending true]))
      as (o & middle & Hbody & Hquiet & _).
    destruct (finally_run optionsVoid _ _ _ _ Hbody) as (o' & Hfin & _).
    exists o', middle. split; [|done].
    unfold mutateVoid, bind at 1, emit at 1.
    rewrite Hfin. by rewrite <- !app_assoc.
Qed.

(** X9. When the backend function rejects with an error, [mutate] never
    calls [onSuccess]; it calls [onError] with that error once, if given,
    and rejects. If the callbacks do not throw, it rejects with the
    backend's error. This holds for the [mutate] of [useAddDomain] and
    [useVerifyDomain] and for that of [useRemoveDomain]. *)
Theorem mutate_backend_rejects
    (options : option (MutateOptions Res))
    (optionsVoid : option (MutateOptions unit))
    (t : list (CallbackEvent Arg Res)) (t' : list (CallbackEvent Arg unit))
    (e : JsError) :
  backend (mutate h) args = Thrown e ->
  (exists e',
     mutateReturning backend h args options t =
       (Thrown e',
        t ++ [EvSetIsPending true; EvBackend (mutate h) args]
          ++ onErrorEvents options e
          ++ [EvSetIsPending false] ++ onSettledEvents options) /\
     (quiet options -> e' = e)) /\
  (exists e',
     mutateVoid backend h args optionsVoid t' =
       (Thrown e',
        t' ++ [EvSetIsPending true; EvBackend (mutate h) args]
           ++ onErrorEvents optionsVoid e
           ++ [EvSetIsPending false] ++ onSettledEvents optionsVoid) /\
     (quiet optionsVoid -> e' = e)).
Proof.
  intros Hb. split.
  - destruct (mutateReturning_body options (t ++ [EvSetIsPending true]))
      as (o & middle & Hbody & _ & Hcase).
    simpl in Hcase. rewrite Hb in Hcase.
    destruct Hcase as (-> & e1 & -> & He1).
    destruct (finally_run options _ _ _ _ Hbody)
      as (o' & Hfin & Hq & Hthrown).
    destruct (Hthrown e1 eq_refl) as [e' ->].
    exists e'. split.
    + unfold mutateReturning, bind at 1, emit at 1.
      rewrite Hfin. by rewrite <- !app_assoc.
    + intros Hqq. specialize (Hq Hqq). specialize (He1 Hqq). congruence.
  - destruct (mutateVoid_body optionsVoid (t' ++ [EvSetIsPending true]))
      as (o & middle & Hbody & _ & Hcase).
    rewrite Hb in Hcase.
    destruct Hcase as (-> & e1 & -> & He1).
    destruct (finally_run optionsVoid _ _ _ _ Hbody)
      as (o' & Hfin & Hq & Hthrown).
    destruct (Hthrown e1 eq_refl) as [e' ->].
    exists e'. split.
    + unfold mutateVoid, bind at 1, emit at 1.
      rewrite Hfin. by rewrite <- !app_assoc.
    + intros Hqq. specialize (Hq Hqq). specialize (He1 Hqq). congruence.
Qed.

(** X10. When the backend function resolves, [mutate] calls [onSuccess]:
    with the result in [useAddDomain] and [useVerifyDomain], without an
    argument in [useRemoveDomain], which drops the result. If no callback
    throws, [onError] is not called and [mutate] resolves, with the result
    in the first two and with nothing in [useRemoveDomain]. If [onSuccess]
    throws, [onError] is called with what it threw although the backend
    call succeeded, and [mutate] rejects. *)
Theorem mutate_backend_resolves
    (options : option (MutateOptions Res))
    (optionsVoid : option (MutateOptions unit))
    (t : list (CallbackEvent Arg Res)) (t' : list (CallbackEvent Arg unit))
    (r : Res) :
  backend (mutate h) args = Returned r ->
  ((quiet options ->
    mutateReturning backend h args options t =
      (Returned r,
       t ++ [EvSetIsPending true; EvBackend (mutate h) args]
         ++ onSuccessEvents options r
         ++ [EvSetIsPending false] ++ onSettledEvents options)) /\
   (forall op f e,
      options = Some op -> onSuccess op = Some f -> f r = Thrown e ->
      exists e',
        mutateReturning backend h args options t =
          (Thrown e',
           t ++ [EvSetIsPending true; EvBackend (mutate h) args;
                 EvOnSuccess r]
             ++ onErrorEvents options e
             ++ [EvSetIsPending false] ++ onSettledEvents options))) /\
  ((quiet optionsVoid ->
    mutateVoid backend h args optionsVoid t' =
      (Returned tt,
       t' ++ [EvSetIsPending true; EvBackend (mutate h) args]
          ++ onSuccessEvents optionsVoid tt
          ++ [EvSetIsPending false] ++ onSettledEvents optionsVoid)) /\
   (forall op f e,
      optionsVoid = Some op -> onSuccess op = Some f -> f tt = Thrown e ->
      exists e',
        mutateVoid backend h args optionsVoid t' =
          (Thrown e',
           t' ++ [EvSetIsPending true; EvBackend (mutate h) args;
                  EvOnSuccess tt]
              ++ onErrorEvents optionsVoid e
              ++ [EvSetIsPending false] ++ onSettledEvents optionsVoid))).
Proof.
  intros Hb. split.
  - destruct (mutateReturning_body options (t ++ [EvSetIsPending true]))
      as (o & middle & Hbody & _ & Hcase).
    simpl in Hcase. rewrite Hb in Hcase. destruct Hcase as [Hquiet Hthrow].
    destruct (finally_run options _ _ _ _ Hbody)
      as (o' & Hfin & Hq & Hthrown).
    split.
    + intros Hqq. destruct (Hquiet Hqq) as [-> ->]. rewrite (Hq Hqq) in Hfin.
      unfold mutateReturning, bind at 1, emit at 1.
      rewrite Hfin. by rewrite <- !app_assoc.
    + intros op f e Hop Hs Hf.
      destruct (Hthrow op f e Hop Hs Hf) as (-> & e1 & ->).
      destruct (Hthrown e1 eq_refl) as [e' ->]. exists e'.
      unfold mutateReturning, bind at 1, emit at 1.
      rewrite Hfin. by rewrite <- !app_assoc.
  - destruct (mutateVoid_body optionsVoid (t' ++ [EvSetIsPending true]))
      as (o & middle & Hbody & _ & Hcase).
    rewrite Hb in Hcase. destruct Hcase as [Hquiet Hthrow].
    destruct (finally_run optionsVoid _ _ _ _ Hbody)
      as (o' & Hfin & Hq & Hthrown).
    split.
    + intros Hqq. destruct (Hquiet Hqq) as [-> ->]. rewrite (Hq Hqq) in Hfin.
      unfold mutateVoid, bind at 1, emit at 1.
      rewrite Hfin. by rewrite <- !app_assoc.
    + intros op f e Hop Hs Hf.
      destruct (Hthrow op f e Hop Hs Hf) as (-> & e1 & ->).
      destruct (Hthrown e1 eq_refl) as [e' ->]. exists e'.
      unfold mutateVoid, bind at 1, emit at 1.
      rewrite Hfin. by rewrite <- !app_assoc.
Qed.

End MutateFacts.

Lemma mutate_backend_rejects_witness :
  mutateReturning (Arg:=N) (Res:=N)
    (fun _ _ => Thrown (Error (lit "Domain already claimed")))
    (mkMutateHook (MutationFn (lit "domains.addDomain")) false) 1
    (Some (mkMutateOptions None (Some (fun _ => Returned tt)) None)) []
  = (Thrown (Error (lit "Domain already claimed")),
     [EvSetIsPending true;
      EvBackend (MutationFn (lit "domains.addDomain")) 1;
      EvOnError (Error (lit "Domain already claimed"));
      EvSetIsPending false]) /\
  mutateVoid (Arg:=N) (Res:=unit)
    (fun _ _ => Thrown (Error (lit "Domain not found")))
    (mkMutateHook (MutationFn (lit "domains.removeDomain")) false) 5
    (Some (mkMutateOptions (Some (fun _ => Returned tt))
                           (Some (fun _ => Returned tt)) None)) []
  = (Thrown (Error (lit "Domain not found")),
     [EvSetIsPending true;
      EvBackend (MutationFn (lit "domains.removeDomain")) 5;
      EvOnError (Error (lit "Domain not found"));
      EvSetIsPending false]).
Proof.
  split.
  - destruct (mutate_backend_rejects (Arg:=N) (Res:=N)
                (fun _ _ => Thrown (Error (lit "Domain already claimed")))
                (mkMutateHook (MutationFn (lit "domains.addDomain")) false) 1
                (Some (mkMutateOptions None (Some (fun _ => Returned tt)) None))
                None [] [] (Error (lit "Domain already claimed")) eq_refl)
      as [(e' & Hrun & He) _].
    rewrite Hrun, He; [reflexivity|].
    intros o [= <-]. repeat split; intros; by simplify_eq/=.
  - destruct (mutate_backend_rejects (Arg:=N) (Res:=unit)
                (fun _ _ => Thrown (Error (lit "Domain not found")))
                (mkMutateHook (MutationFn (lit "domains.removeDomain")) false)
                5 None
                (Some (mkMutateOptions (Some (fun _ => Returned tt))
                                       (Some (fun _ => Returned tt)) None))
                [] [] (Error (lit "Domain not found")) eq_refl)
      as [_ (e' & Hrun & He)].
    rewrite Hrun, He; [reflexivity|].
    intros o [= <-]. repeat split; intros; by simplify_eq/=.
Defined.

Lemma mutate_backend_resolves_witness :
  (exists e',
     mutateReturning (Arg:=N) (Res:=N) (fun _ a => Returned (a + 1))
       (mkMutateHook (MutationFn (lit "domains.addDomain")) false) 1
       (Some (mkMutateOptions
                (Some (fun _ => Thrown (Error (lit "render failed"))))
                (Some (fun _ => Returned tt)) None)) []
     = (Thrown e',
        [EvSetIsPending true;
         EvBackend (MutationFn (lit "domains.addDomain")) 1;
         EvOnSuccess 2;
         EvOnError (Error (lit "render failed"));
         EvSetIsPending false])) /\
  mutateVoid (Arg:=N) (Res:=N) (fun _ a => Returned (a + 1))
    (mkMutateHook (MutationFn (lit "domains.removeDomain")) false) 5
    (Some (mkMutateOptions (Some (fun _ => Returned tt)) None
                           (Some (Returned tt)))) []
  = (Returned tt,
     [EvSetIsPending true;
      EvBackend (MutationFn (lit "domains.removeDomain")) 5;
      EvOnSuccess tt;
      EvSetIsPending false;
      EvOnSettled]).
Proof.
  split.
  - destruct (mutate_backend_resolves (Arg:=N) (Res:=N)
                (fun _ a => Returned (a + 1))
                (mkMutateHook (MutationFn (lit "domains.addDomain")) false) 1
                (Some (mkMutateOptions
                         (Some (fun _ => Thrown (Error (lit "render failed"))))
                         (Some (fun _ => Returned tt)) None))
                None [] [] 2 eq_refl) as [[_ Hthrow] _].
    destruct (Hthrow _ _ (Error (lit "render failed")) eq_refl eq_refl eq_refl)
      as (e' & Hrun).
    exists e'. exact Hrun.
  - destruct (mutate_backend_resolves (Arg:=N) (Res:=N)
                (fun _ a => Returned (a + 1))
                (mkMutateHook (MutationFn (lit "domains.removeDomain")) false)
                5 None
                (Some (mkMutateOptions (Some (fun _ => Returned tt)) None
                                       (Some (Returned tt))))
                [] [] 6 eq_refl) as [_ [Hquiet _]].
    rewrite Hquiet; [reflexivity|].
    intros o [= <-]. repeat split; intros; by simplify_eq/=.
Defined.

(** ** The hooks on the Convex provider *)



(** ** The Convex client singleton *)

(** X12. [getConvexClient] memoizes: once a call has returned a client,
    every later call returns that same client without reading the
    environment; a call that throws leaves the cache as it was, and with an
    empty cache a missing or empty URL throws. *)
Theorem getConvexClient_memoizes (Client : Type)
    (newClient : list N -> Outcome Client)
    (url : option (list N)) (cache : option Client) :
  (forall c cache',
     getConvexClient Client newClient url cache = (Returned c, cache') ->
     cache' = Some c /\
     forall url', getConvexClient Client newClient url' cache'
                  = (Returned c, cache')) /\
  (forall e cache',
     getConvexClient Client newClient url cache = (Thrown e, cache') ->
     cache' = cache /\ cache = None) /\
  (cache = None -> truthy url = false ->
   getConvexClient Client newClient url cache =
     (Thrown (Error (lit
        "NEXT_PUBLIC_CONVEX_URL is required for Convex provider")), None)).
Proof.
  unfold getConvexClient. split; [|split].
  - intros c cache' H. destruct cache as [c0|].
    + injection H as <- <-. done.
    + destruct (truthy url); simpl in H; [|discriminate H].
      destruct (newClient _); [|discriminate H].
      injection H as <- <-. done.
  - intros e cache' H. destruct cache as [c0|]; [discriminate H|].
    destruct (truthy url); simpl in H.
    + destruct (newClient _); [discriminate H|]. by injection H as <- <-.
    + by injection H as <- <-.
  - intros -> ->. reflexivity.
Qed.

Lemma getConvexClient_memoizes_witness :
  getConvexClient (list N) (fun a => Returned a) None
    (Some (lit "https://example.convex.cloud"))
  = (Returned (lit "https://example.convex.cloud"),
     Some (lit "https://example.convex.cloud")).
Proof.
  destruct (getConvexClient_memoizes (list N) (fun a => Returned a)
              (Some (lit "https://example.convex.cloud")) None)
    as (Hret & _ & _).
  destruct (Hret (lit "https://example.convex.cloud")
                 (Some (lit "https://example.convex.cloud")) eq_refl)
    as [_ Hagain].
  apply Hagain.
Defined.

(** ** Access control *)

Lemma unique_Some {A} (l : list A) x :
  unique l = Returned (Some x) <-> l = [x].
Proof.
  destruct l as [|a [|b l]]; simpl; split; intros H; try discriminate H.
  - by injection H as ->.
  - by injection H as ->.
Qed.

Lemma unique_None {A} (l : list A) : unique l = Returned None <-> l = [].
Proof.
  destruct l as [|a [|b l]]; simpl; split; intros H; try discriminate H; done.
Qed.

Lemma unique_Thrown {A} (l : list A) :
  (exists e, unique l = Thrown e) <-> (2 <= length l)%nat.
Proof.
  destruct l as [|a [|b l]]; simpl; split; intros H;
    try (destruct H as [e H]; discriminate H); try lia.
  eauto.
Qed.

(** X13. [requireWorkspaceAdmin] returns a row exactly when there is a
    session, the session's user has exactly one membership row in the
    workspace, and that row has the admin role; the row returned is that
    row, so it belongs to the workspace and to the user. *)
Theorem requireWorkspaceAdmin_returns ctx workspaceId row :
  requireWorkspaceAdmin ctx workspaceId = Returned row <->
  exists userId,
    authUserId ctx = Some userId /\
    memberQuery ctx workspaceId userId = [row] /\
    member_role row = admin /\
    member_workspaceId row = workspaceId /\ member_userId row = userId.
Proof.
  unfold requireWorkspaceAdmin, requireWorkspaceMember, requireAuth, andThen.
  split.
  - destruct (authUserId ctx) as [u|]; [|discriminate].
    destruct (unique _) as [[m|]|] eqn:Hu; try discriminate.
    apply unique_Some in Hu.
    destruct (bool_decide _) eqn:Hr; [discriminate|].
    intros [= ->]. exists u.
    apply bool_decide_eq_false in Hr.
    assert (Hin : row ∈ memberQuery ctx workspaceId u)
      by (rewrite Hu; apply list_elem_of_here).
    apply list_elem_of_filter in Hin as [[Hw Hus] _].
    repeat split; try done.
    destruct (member_role row); [done|by destruct Hr].
  - intros (u & -> & Hq & Hr & _). rewrite Hq. simpl.
    rewrite bool_decide_eq_false_2; [done|]. by rewrite Hr; intros [].
Qed.

Lemma requireWorkspaceAdmin_returns_witness :
  requireWorkspaceAdmin
    (mkAuthCtx (Some 7) [mkMember 1 7 admin; mkMember 2 7 member;
                         mkMember 1 8 member]) 1
  = Returned (mkMember 1 7 admin).
Proof.
  apply requireWorkspaceAdmin_returns. exists 7. repeat split.
Defined.

(** X14. The failures come in a fixed order: without a session both
    [requireWorkspaceMember] and [requireWorkspaceAdmin] throw the
    unauthorized error, whatever the memberships; with a session and no
    membership row they throw the not-a-member error; with a single row of
    role member, [requireWorkspaceMember] returns it and
    [requireWorkspaceAdmin] throws the admin error. *)
Theorem access_control_failures ctx workspaceId :
  (authUserId ctx = None ->
   requireWorkspaceMember ctx workspaceId =
     Thrown (Error (lit "Unauthorized. Please sign in.")) /\
   requireWorkspaceAdmin ctx workspaceId =
     Thrown (Error (lit "Unauthorized. Please sign in."))) /\
  (forall userId,
     authUserId ctx = Some userId ->
     memberQuery ctx workspaceId userId = [] ->
     requireWorkspaceMember ctx workspaceId =
       Thrown (Error (lit "You are not a member of this workspace.")) /\
     requireWorkspaceAdmin ctx workspaceId =
       Thrown (Error (lit "You are not a member of this workspace."))) /\
  (forall userId row,
     authUserId ctx = Some userId ->
     memberQuery ctx workspaceId userId = [row] ->
     member_role row = member ->
     requireWorkspaceMember ctx workspaceId = Returned row /\
     requireWorkspaceAdmin ctx workspaceId =
       Thrown (Error (lit
         "You must be a workspace admin to perform this action."))).
Proof.
  unfold requireWorkspaceAdmin, requireWorkspaceMember, requireAuth, andThen.
  split; [|split].
  - by intros ->.
  - by intros u -> ->.
  - intros u row -> -> Hr. simpl. split; [done|].
    rewrite bool_decide_eq_true_2; [done|]. by rewrite Hr.
Qed.

Lemma access_control_failures_witness :
  requireWorkspaceAdmin
    (mkAuthCtx (Some 8) [mkMember 1 7 admin; mkMember 1 8 member]) 1
  = Thrown (Error (lit
      "You must be a workspace admin to perform this action.")) /\
  requireWorkspaceAdmin
    (mkAuthCtx None [mkMember 1 7 admin; mkMember 1 8 member]) 1
  = Thrown (Error (lit "Unauthorized. Please sign in.")).
Proof.
  split.
  - destruct (access_control_failures
                (mkAuthCtx (Some 8) [mkMember 1 7 admin; mkMember 1 8 member])
                1) as (_ & _ & Hrole).
    by destruct (Hrole 8 (mkMember 1 8 member) eq_refl eq_refl eq_refl).
  - destruct (access_control_failures
                (mkAuthCtx None [mkMember 1 7 admin; mkMember 1 8 member]) 1)
      as (Hnone & _).
    by destruct (Hnone eq_refl).
Defined.

(** X15. [getWorkspaceMember] agrees with [requireWorkspaceMember]
    wherever that one returns, and returns [null] without a session. It
    throws exactly when the session's user has more than one membership row
    in the workspace. *)
Theorem getWorkspaceMember_agrees ctx workspaceId :
  (forall row,
     requireWorkspaceMember ctx workspaceId = Returned row ->
     getWorkspaceMember ctx workspaceId = Returned (Some row)) /\
  (authUserId ctx = None ->
   getWorkspaceMember ctx workspaceId = Returned None) /\
  ((exists e, getWorkspaceMember ctx workspaceId = Thrown e) <->
   exists userId,
     authUserId ctx = Some userId /\
     (2 <= length (memberQuery ctx workspaceId userId))%nat).
Proof.
  unfold getWorkspaceMember, requireWorkspaceMember, requireAuth, getAuth,
         andThen.
  split; [|split].
  - intros row. destruct (authUserId ctx) as [u|]; [|discriminate].
    destruct (unique _) as [[m|]|]; try discriminate. by intros [= ->].
  - by intros ->.
  - destruct (authUserId ctx) as [u|].
    + rewrite unique_Thrown. split; [eauto|]. by intros (? & [= <-] & ?).
    + split; [intros [e H]; discriminate H|]. by intros (? & ? & ?).
Qed.

Lemma getWorkspaceMember_agrees_witness :
  getWorkspaceMember
    (mkAuthCtx (Some 7) [mkMember 1 7 admin; mkMember 2 7 member]) 2
  = Returned (Some (mkMember 2 7 member)).
Proof.
  destruct (getWorkspaceMember_agrees
              (mkAuthCtx (Some 7) [mkMember 1 7 admin; mkMember 2 7 member])
              2) as (Hagree & _).
  by apply Hagree.
Defined.

(** ** The routing middleware *)

Lemma startsWith_app prefix s : startsWith (prefix ++ s) prefix = true.
Proof.
  induction prefix as [|p prefix IH]; [by destruct s|].
  simpl. by rewrite N.eqb_refl, IH.
Qed.

Lemma withPrefix_startsWith prefix url :
  startsWith (pathname (withPrefix prefix url)) prefix = true.
Proof.
  unfold withPrefix.
  destruct (startsWith (pathname url) prefix) eqn:Hs; simpl; [done|].
  apply startsWith_app.
Qed.

Lemma startsWith_spec s prefix :
  startsWith s prefix = true <-> exists rest, s = prefix ++ rest.
Proof.
  split.
  - revert s. induction prefix as [|p prefix IH]; intros s; [by exists s|].
    destruct s as [|c s]; [done|]. simpl.
    intros [Hc Hs]%andb_true_iff. apply N.eqb_eq in Hc as ->.
    destruct (IH s Hs) as [rest ->]. by exists rest.
  - intros [rest ->]. apply startsWith_app.
Qed.

(** X16. The rewrite of an area host always targets a path under the
    area's prefix, and adds the prefix only when it is missing: a path
    that already starts with the prefix is left alone, so rewriting twice
    equals rewriting once, and any other path is the old path with the
    prefix put in front of it. The host name is never changed by it. *)
Theorem withPrefix_idempotent prefix url :
  startsWith (pathname (withPrefix prefix url)) prefix = true /\
  withPrefix prefix (withPrefix prefix url) = withPrefix prefix url /\
  (startsWith (pathname url) prefix = true -> withPrefix prefix url = url) /\
  hostname (withPrefix prefix url) = hostname url /\
  (startsWith (pathname url) prefix = true <->
   exists rest, pathname url = prefix ++ rest) /\
  ((~ exists rest, pathname url = prefix ++ rest) ->
   pathname (withPrefix prefix url) = prefix ++ pathname url).
Proof.
  split; [apply withPrefix_startsWith|]. split; [|split; [|split; [|split]]].
  - unfold withPrefix at 1. by rewrite withPrefix_startsWith.
  - intros H. unfold withPrefix. by rewrite H.
  - unfold withPrefix. by destruct (startsWith _ _).
  - apply startsWith_spec.
  - intros Hno. unfold withPrefix.
    destruct (startsWith (pathname url) prefix) eqn:Hs; [|done].
    by apply startsWith_spec in Hs.
Qed.

Lemma withPrefix_idempotent_witness :
  withPrefix (lit "/app") (mkNextUrl (lit "dashboard.kiiaren.com")
                                     (lit "/app/workspace/1"))
  = mkNextUrl (lit "dashboard.kiiaren.com") (lit "/app/workspace/1") /\
  pathname (withPrefix (lit "/app") (mkNextUrl (lit "dashboard.kiiaren.com")
                                               (lit "/workspace/1")))
  = lit "/app/workspace/1".
Proof.
  split.
  - by apply (withPrefix_idempotent (lit "/app")
                (mkNextUrl (lit "dashboard.kiiaren.com")
                           (lit "/app/workspace/1"))).
  - apply (withPrefix_idempotent (lit "/app")
             (mkNextUrl (lit "dashboard.kiiaren.com") (lit "/workspace/1"))).
    intros [rest Hrest]. vm_compute in Hrest. discriminate Hrest.
Defined.

Section MiddlewareFacts.

Variable isSignInPage : NextUrl -> NextUrl -> bool.

(** X17. The API host, the www host and the marketing host are public:
    whatever the session and the route matcher say, a request to the API
    host is rewritten under /api, a request to the www host is redirected
    to the same path on kiiaren.com, and a request to kiiaren.com passes
    through. *)
Theorem middleware_public_hosts (authenticated : bool) (requested : NextUrl) :
  middleware isSignInPage authenticated (Some (lit "api.kiiaren.com"))
             requested
    = Rewrite (withPrefix (lit "/api") requested) /\
  middleware isSignInPage authenticated (Some (lit "www.kiiaren.com"))
             requested
    = Redirect (mkNextUrl (lit "kiiaren.com") (pathname requested)) /\
  middleware isSignInPage authenticated (Some (lit "kiiaren.com")) requested
    = Next.
Proof. repeat split. Qed.

(** X18. A request with a session is never sent to the sign-in page, on
    any host. A request without a session that the route matcher does not
    take for the sign-in page is sent to /auth on every host other than the
    three public ones. *)
Theorem middleware_sign_in_gate (hostHeader : option (list N))
    (requested : NextUrl) :
  middleware isSignInPage true hostHeader requested <> RedirectTo (lit "/auth")
  /\
  (nullish hostHeader [] <> lit "api.kiiaren.com" ->
   nullish hostHeader [] <> lit "www.kiiaren.com" ->
   nullish hostHeader [] <> lit "kiiaren.com" ->
   (forall url, isSignInPage requested url = false) ->
   middleware isSignInPage false hostHeader requested
     = RedirectTo (lit "/auth")).
Proof.
  unfold middleware. split.
  - rewrite !andb_false_r, !andb_true_r.
    repeat case_bool_decide; try discriminate.
    destruct (isSignInPage requested requested); discriminate.
  - intros Hapi Hwww Hmkt Hsign. rewrite !Hsign. simpl.
    repeat case_bool_decide; done.
Qed.

(** X19. On the account host and on the dashboard host the matcher is
    asked about the request after its path has been moved under the area's
    prefix. So if the matcher takes no path under that prefix for the
    sign-in page, as one that tests the path of [req.nextUrl] against /auth
    does, every request without a session is redirected to /auth on these
    hosts, the request for /auth itself included. *)
Theorem middleware_area_hosts_redirect (requested : NextUrl) :
  (forall url, startsWith (pathname url) (lit "/account") = true ->
               isSignInPage requested url = false) ->
  (forall url, startsWith (pathname url) (lit "/app") = true ->
               isSignInPage requested url = false) ->
  middleware isSignInPage false (Some (lit "account.kiiaren.com")) requested
    = RedirectTo (lit "/auth") /\
  middleware isSignInPage false (Some (lit "dashboard.kiiaren.com")) requested
    = RedirectTo (lit "/auth").
Proof.
  intros Hacc Happ. unfold middleware. simpl.
  rewrite (Hacc _ (withPrefix_startsWith (lit "/account") requested)).
  by rewrite (Happ _ (withPrefix_startsWith (lit "/app") requested)).
Qed.

End MiddlewareFacts.

Lemma middleware_sign_in_gate_witness :
  middleware (fun req _ => bool_decide (pathname req = lit "/auth")) false
             (Some (lit "localhost:3000"))
             (mkNextUrl (lit "localhost") (lit "/workspace/1"))
  = RedirectTo (lit "/auth").
Proof.
  by apply (middleware_sign_in_gate
              (fun req _ => bool_decide (pathname req = lit "/auth"))
              (Some (lit "localhost:3000"))
              (mkNextUrl (lit "localhost") (lit "/workspace/1"))).
Defined.

Lemma pathMatcher_not_under prefix url :
  startsWith (lit "/auth") prefix = false ->
  startsWith (pathname url) prefix = true ->
  bool_decide (pathname url = lit "/auth") = false.
Proof.
  intros Hno Hs. apply bool_decide_eq_false. intros Heq.
  rewrite Heq in Hs. congruence.
Qed.

Lemma middleware_area_hosts_redirect_witness :
  middleware (fun _ url => bool_decide (pathname url = lit "/auth")) false
             (Some (lit "account.kiiaren.com"))
             (mkNextUrl (lit "account.kiiaren.com") (lit "/auth"))
  = RedirectTo (lit "/auth").
Proof.
  apply (middleware_area_hosts_redirect
           (fun _ url => bool_decide (pathname url = lit "/auth"))
           (mkNextUrl (lit "account.kiiaren.com") (lit "/auth")));
    intros url; by apply pathMatcher_not_under.
Defined.

(** ** Documents *)

Lemma lookupDoc_elem_of id rows d :
  lookupDoc id rows = Some d -> (id, d) ∈ rows.
Proof.
  unfold lookupDoc. induction rows as [|[i x] rows IH]; simpl; [done|].
  case_bool_decide; simpl in *.
  - intros [= <-]. subst. left.
  - intros H'. right. auto.
Qed.

Lemma lookupDoc_None id rows :
  lookupDoc id rows = None <-> id ∉ (fst <$> rows).
Proof.
  unfold lookupDoc. induction rows as [|[i x] rows IH]; simpl.
  - split; [intros _; apply not_elem_of_nil|done].
  - case_bool_decide; simpl in *.
    + subst. split; [done|]. intros H'. exfalso. apply H'. left.
    + rewrite IH. rewrite not_elem_of_cons. naive_solver.
Qed.

Lemma elem_of_lookupDoc id d rows :
  NoDup (fst <$> rows) -> (id, d) ∈ rows -> lookupDoc id rows = Some d.
Proof.
  unfold lookupDoc. induction rows as [|[i x] rows IH]; simpl.
  - intros _ H'. by apply elem_of_nil in H'.
  - intros Hnd Hin. apply NoDup_cons in Hnd as [Hni Hnd].
    apply elem_of_cons in Hin as [Heq|Hin].
    + inversion Heq; subst. by rewrite bool_decide_eq_true_2.
    + rewrite bool_decide_eq_false_2; [by apply IH|].
      simpl. intros ->. apply Hni.
      apply list_elem_of_fmap. by exists (id, d).
Qed.

Lemma skeleton_ids rows : fst <$> skeleton rows = fst <$> rows.
Proof.
  unfold skeleton. rewrite <- list_fmap_compose. done.
Qed.

Lemma childIn_skeleton ws rows p c :
  childIn ws (skeleton rows) p c <->
  exists d, (c, d) ∈ rows /\ Doc.workspaceId d = ws
            /\ Doc.parentDocumentId d = Some p.
Proof.
  unfold childIn, skeleton. rewrite list_elem_of_fmap. split.
  - intros ([i d] & Heq & Hin). simpl in Heq. inversion Heq; subst.
    by exists d.
  - intros (d & Hin & <- & Hp). exists (c, d). simpl. by rewrite Hp.
Qed.

Lemma childIn_byWorkspaceParent ws rows p c :
  childIn ws (skeleton rows) p c <->
  exists r, r ∈ byWorkspaceParent ws (Some p) rows /\ fst r = c.
Proof.
  rewrite childIn_skeleton. unfold byWorkspaceParent. split.
  - intros (d & Hin & Hws & Hp). exists (c, d). split; [|done].
    apply list_elem_of_filter. done.
  - intros ([i d] & Hin & <-). apply list_elem_of_filter in Hin.
    simpl in *. exists d. naive_solver.
Qed.

Lemma archivedRow_skeleton P rows rows' :
  Forall2 (archivedRow P) rows rows' -> skeleton rows' = skeleton rows.
Proof.
  induction 1 as [|[i d] [i' d'] rows rows' (Hi & _ & Hd) _ IH]; [done|].
  unfold skeleton in *. rewrite !fmap_cons, IH. f_equal. simpl in *.
  subst i'. destruct Hd as [->|(_ & now & ->)]; done.
Qed.

Lemma archivedRow_refl (P : N -> Prop) rows :
  (forall x, ~ P x) -> Forall2 (archivedRow P) rows rows.
Proof.
  intros HP. apply Forall_Forall2_diag, Forall_forall. intros r _.
  split; [done|]. split; [|by left]. intros H'. by apply HP in H'.
Qed.

Lemma archivedRow_trans P Q rows rows' rows'' :
  Forall2 (archivedRow P) rows rows' ->
  Forall2 (archivedRow Q) rows' rows'' ->
  Forall2 (archivedRow (fun x => P x \/ Q x)) rows rows''.
Proof.
  intros H1. revert rows''.
  induction H1 as [|r r' rows rows' (Hi & Ha & Hd) _ IH];
    intros rows'' H2; inversion H2 as [|? r'' ? rest (Hi' & Ha' & Hd') H2'];
    subst; constructor; [|by apply IH].
  rewrite Hi in *. split; [congruence|]. split.
  - intros [HP|HQ]; [|by auto].
    destruct Hd' as [->|(_ & now & ->)]; [by auto|done].
  - destruct Hd' as [->|(HQ & now & ->)].
    + destruct Hd as [->|(HP & now & ->)]; [by left|].
      right. split; [by left|]. by exists now.
    + right. split; [by right|]. exists now.
      destruct Hd as [->|(HP & now' & ->)]; done.
Qed.

Lemma archivedRow_iff P Q rows rows' :
  (forall x, P x <-> Q x) ->
  Forall2 (archivedRow P) rows rows' -> Forall2 (archivedRow Q) rows rows'.
Proof.
  intros HPQ H'. eapply Forall2_impl; [exact H'|].
  intros r r' (Hi & Ha & Hd).
  split; [done|]. split; [intros HQ; by apply Ha, HPQ|].
  destruct Hd as [?|(HP & ?)]; [by left|]. right. split; [by apply HPQ|done].
Qed.

Lemma patchRows_archived id now rows :
  Forall2 (archivedRow (eq id)) rows (patchRows id (setArchived true now) rows).
Proof.
  unfold patchRows. induction rows as [|[i d] rows IH]; [constructor|].
  rewrite fmap_cons. constructor; [|exact IH]. clear IH.
  case_bool_decide; simpl in *.
  - subst. split; [done|]. split; [done|]. right. split; [done|].
    by exists now.
  - split; [done|]. split; [|by left]. intros ->. done.
Qed.

Lemma inSubtree_below ws sk p x :
  inSubtree ws sk p x <-> p = x \/ below ws sk p x.
Proof.
  unfold inSubtree, below. split.
  - intros H'. destruct H' as [|p c x Hc Hr]; [by left|]. right. by exists c.
  - intros [<-|(c & Hc & Hr)]; [done|]. by eapply rtc_l.
Qed.

Lemma wellFormed_ordered d :
  wellFormed d -> ordered (skeleton (docRows d)) (nextDocId d).
Proof.
  intros Hwf c ws p Hin. apply childIn_skeleton in Hin as (x & Hin & _ & Hp).
  split; [by eapply wf_older|by eapply wf_below].
Qed.

Lemma dbind_returned {S A B} (m : Div S A) (k : A -> Div S B) s a s' :
  m s = Some (Returned a, s') -> dbind m k s = k a s'.
Proof. unfold dbind. by intros ->. Qed.

Lemma dbind_thrown {S A B} (m : Div S A) (k : A -> Div S B) s e s' :
  m s = Some (Thrown e, s') -> dbind m k s = Some (Thrown e, s').
Proof. unfold dbind. by intros ->. Qed.

Lemma db_patch_returns id f s :
  id ∈ (fst <$> docRows (table s)) ->
  db_patch id f s =
  (Returned tt,
   mkHandlerState (mkDocsDb (patchRows id f (docRows (table s)))
                            (nextDocId (table s))) (ticks s)).
Proof.
  intros Hin. unfold db_patch.
  destruct (lookupDoc id (docRows (table s))) eqn:E; [done|].
  by apply lookupDoc_None in E.
Qed.

Lemma childIn_id ws rows p c :
  childIn ws (skeleton rows) p c -> c ∈ (fst <$> rows).
Proof.
  intros (d & Hin & _)%childIn_skeleton.
  apply list_elem_of_fmap. by exists (c, d).
Qed.

(** [archiveChildren] returns when parents are older than their children,
    and archives the rows below [parentId], and only them. *)
Lemma archiveChildren_spec env fuel : forall ws p s,
  ordered (skeleton (docRows (table s))) (nextDocId (table s)) ->
  (N.to_nat (nextDocId (table s) - p) < fuel)%nat ->
  exists s',
    Docs.archiveChildren env fuel ws p s = Some (Returned tt, s')
    /\ nextDocId (table s') = nextDocId (table s)
    /\ Forall2 (archivedRow (below ws (skeleton (docRows (table s))) p))
               (docRows (table s)) (docRows (table s')).
Proof.
  induction fuel as [|fuel IH]; intros ws p s Hord Hfuel; [lia|].
  set (sk0 := skeleton (docRows (table s))) in *.
  set (next0 := nextDocId (table s)) in *.
  assert (Hloop : forall (cs : list (N * Doc.t)) s1,
    (forall c, c ∈ cs -> childIn ws sk0 p (fst c)) ->
    skeleton (docRows (table s1)) = sk0 ->
    nextDocId (table s1) = next0 ->
    exists s',
      forEach cs (fun child =>
        step! now := lift (dateNow env) in
        step! _ := lift (db_patch (fst child) (setArchived true now)) in
        Docs.archiveChildren env fuel ws (fst child)) s1
      = Some (Returned tt, s')
      /\ nextDocId (table s') = next0
      /\ Forall2 (archivedRow
                    (fun x => exists c, c ∈ cs /\ inSubtree ws sk0 (fst c) x))
                 (docRows (table s1)) (docRows (table s'))).
  { induction cs as [|c cs IHcs]; intros s1 Hcs Hsk Hnext.
    - exists s1. split; [done|]. split; [done|].
      apply archivedRow_refl. intros x (c & Hc & _). by apply elem_of_nil in Hc.
    - assert (Hc : childIn ws sk0 p (fst c)) by (apply Hcs; left).
      pose proof (patchRows_archived (fst c) (clock env (ticks s1))
                    (docRows (table s1))) as Hpatch.
      set (s2 := mkHandlerState
                   (mkDocsDb (patchRows (fst c)
                                (setArchived true (clock env (ticks s1)))
                                (docRows (table s1)))
                             (nextDocId (table s1))) (S (ticks s1))).
      destruct (Hord _ _ _ Hc) as [Hlt Hlt'].
      destruct (IH ws (fst c) s2) as (s3 & Hrun & Hn3 & Hrel3).
      { simpl. rewrite (archivedRow_skeleton _ _ _ Hpatch), Hsk, Hnext.
        exact Hord. }
      { simpl. rewrite Hnext. lia. }
      simpl in Hn3, Hrel3.
      rewrite (archivedRow_skeleton _ _ _ Hpatch), Hsk in Hrel3.
      destruct (IHcs s3) as (s4 & Hrun4 & Hn4 & Hrel4).
      { intros c' Hc'. apply Hcs. by right. }
      { rewrite (archivedRow_skeleton _ _ _ Hrel3).
        rewrite (archivedRow_skeleton _ _ _ Hpatch). exact Hsk. }
      { by rewrite Hn3. }
      exists s4. split; [|split; [done|]].
      + simpl. erewrite dbind_returned; [exact Hrun4|].
        erewrite dbind_returned; [|reflexivity].
        erewrite dbind_returned; [exact Hrun|].
        unfold lift. rewrite db_patch_returns; [done|].
        simpl. rewrite <- Hsk in Hc. by apply childIn_id in Hc.
      + eapply archivedRow_iff;
          [|exact (archivedRow_trans _ _ _ _ _
                     (archivedRow_trans _ _ _ _ _ Hpatch Hrel3) Hrel4)].
        intros x. simpl. split.
        * intros [[<-|Hb]|(c' & Hc' & Hsub)].
          -- exists c. split; [left|]. apply inSubtree_below. by left.
          -- exists c. split; [left|]. apply inSubtree_below. by right.
          -- exists c'. split; [by right|done].
        * intros (c' & [->|Hc']%elem_of_cons & Hsub).
          -- left. by apply inSubtree_below.
          -- right. by exists c'. }
  destruct (Hloop (byWorkspaceParent ws (Some p) (docRows (table s))) s)
    as (s' & Hrun & Hn & Hrel); [|done|done|].
  { intros c Hc. apply childIn_byWorkspaceParent. by exists c. }
  exists s'. split; [|split; [done|]].
  - simpl. erewrite dbind_returned; [exact Hrun|done].
  - eapply archivedRow_iff; [|exact Hrel]. intros x. unfold below. split.
    + intros (r & Hr & Hsub). exists (fst r). split; [|done].
      apply childIn_byWorkspaceParent. by exists r.
    + intros (c & (r & Hr & <-)%childIn_byWorkspaceParent & Hsub). by exists r.
Qed.

Lemma archivedRow_lookup P rows rows' x :
  Forall2 (archivedRow P) rows rows' ->
  (forall doc0, P x -> lookupDoc x rows = Some doc0 ->
     exists now, lookupDoc x rows' = Some (setArchived true now doc0))
  /\ (~ P x -> lookupDoc x rows' = lookupDoc x rows).
Proof.
  unfold lookupDoc.
  induction 1 as [|[i d] [i' d'] rows rows' (Hi & Ha & Hd) _ [IH1 IH2]];
    [done|].
  simpl in *. subst i'. case_bool_decide; simpl; [subst i|done].
  split.
  - intros doc0 HP [= <-]. destruct Hd as [->|(_ & now & ->)]; [|by exists now].
    exists (Doc.updatedAt d). specialize (Ha HP).
    destruct d; simpl in *; by subst.
  - intros HnP. destruct Hd as [->|(HP & _)]; done.
Qed.

Lemma requireWorkspaceMember_auth ctx ws row :
  requireWorkspaceMember ctx ws = Returned row ->
  exists userId, requireAuth ctx = Returned userId.
Proof.
  unfold requireWorkspaceMember, andThen.
  destruct (requireAuth ctx) as [u|]; [by exists u|done].
Qed.

Lemma lookupDoc_id id rows d :
  lookupDoc id rows = Some d -> id ∈ (fst <$> rows).
Proof.
  intros H'%lookupDoc_elem_of. apply list_elem_of_fmap. by exists (id, d).
Qed.

(** [archive] by a member, with enough fuel. *)
Lemma archive_runs env fuel id d doc row :
  wellFormed d ->
  lookupDoc id (docRows d) = Some doc ->
  requireWorkspaceMember (auth env) (Doc.workspaceId doc) = Returned row ->
  (N.to_nat (nextDocId d) < fuel)%nat ->
  exists d',
    Docs.archive env fuel id d = Some (Returned id, d')
    /\ nextDocId d' = nextDocId d
    /\ Forall2 (archivedRow
                  (inSubtree (Doc.workspaceId doc) (skeleton (docRows d)) id))
               (docRows d) (docRows d').
Proof.
  intros Hwf Hdoc Hmem Hfuel.
  destruct (requireWorkspaceMember_auth _ _ _ Hmem) as [u Hu].
  pose proof (patchRows_archived id (clock env 0) (docRows d)) as Hpatch.
  set (s2 := mkHandlerState
               (mkDocsDb (patchRows id (setArchived true (clock env 0))
                            (docRows d)) (nextDocId d)) 1).
  destruct (archiveChildren_spec env fuel (Doc.workspaceId doc) id s2)
    as (s3 & Hrun & Hn & Hrel).
  { simpl. rewrite (archivedRow_skeleton _ _ _ Hpatch).
    by apply wellFormed_ordered. }
  { simpl. lia. }
  simpl in Hn, Hrel. rewrite (archivedRow_skeleton _ _ _ Hpatch) in Hrel.
  pose proof (archivedRow_trans _ _ _ _ _ Hpatch Hrel) as Hall.
  eapply archivedRow_iff in Hall;
    [|intros x; symmetry; apply inSubtree_below].
  exists (table s3). split; [|split; [done|exact Hall]].
  unfold Docs.archive, transaction, Docs.archiveHandler.
  erewrite dbind_returned; [|unfold lift, liftOutcome; by rewrite Hu].
  erewrite dbind_returned; [|unfold lift, db_get; simpl; by rewrite Hdoc].
  cbv beta iota.
  erewrite dbind_returned; [|unfold lift, liftOutcome; by rewrite Hmem].
  erewrite dbind_returned; [|reflexivity].
  erewrite dbind_returned;
    [|unfold lift; rewrite db_patch_returns;
      [reflexivity|by eapply lookupDoc_id]].
  erewrite dbind_returned; [|exact Hrun]. done.
Qed.

Lemma removedRel_refl (P : N -> Prop) rows :
  (forall x, ~ P x) -> removedRel P rows rows.
Proof.
  intros HP. induction rows as [|r rows IH]; constructor; [apply HP|done].
Qed.

Lemma removedRel_trans P Q rows rows' rows'' :
  removedRel P rows rows' -> removedRel Q rows' rows'' ->
  removedRel (fun x => P x \/ Q x) rows rows''.
Proof.
  intros H1. revert rows''.
  induction H1 as [|r rows rows' HnP _ IH|r rows rows' HP _ IH];
    intros rows'' H2.
  - inversion H2; subst. constructor.
  - inversion H2; subst.
    + apply removedRel_keep; [tauto|by apply IH].
    + apply removedRel_drop; [tauto|by apply IH].
  - apply removedRel_drop; [tauto|by apply IH].
Qed.

Lemma removedRel_iff P Q rows rows' :
  (forall x, P x <-> Q x) -> removedRel P rows rows' -> removedRel Q rows rows'.
Proof.
  intros HPQ. induction 1; constructor; try done; rewrite <- HPQ; done.
Qed.

Lemma deleteRows_removed id rows :
  removedRel (eq id) rows (deleteRows id rows).
Proof.
  unfold deleteRows. induction rows as [|r rows IH]; [constructor|].
  destruct (decide (fst r = id)) as [Heq|Hne].
  - rewrite filter_cons_False by tauto. by apply removedRel_drop.
  - rewrite filter_cons_True by done. apply removedRel_keep; [congruence|done].
Qed.

Lemma removedRel_elem_of P rows rows' r :
  removedRel P rows rows' -> r ∈ rows' -> r ∈ rows /\ ~ P (fst r).
Proof.
  induction 1 as [|r0 rows rows' HnP _ IH|r0 rows rows' HP _ IH]; intros Hin.
  - by apply elem_of_nil in Hin.
  - apply elem_of_cons in Hin as [->|Hin]; [split; [left|done]|].
    destruct (IH Hin). split; [by right|done].
  - destruct (IH Hin). split; [by right|done].
Qed.

Lemma removedRel_kept P rows rows' r :
  removedRel P rows rows' -> r ∈ rows -> r ∈ rows' \/ P (fst r).
Proof.
  induction 1 as [|r0 rows rows' HnP _ IH|r0 rows rows' HP _ IH]; intros Hin.
  - by apply elem_of_nil in Hin.
  - apply elem_of_cons in Hin as [->|Hin]; [left; left|].
    destruct (IH Hin); [left; by right|by right].
  - apply elem_of_cons in Hin as [->|Hin]; [by right|]. by apply IH.
Qed.

Lemma removedRel_NoDup P rows rows' :
  removedRel P rows rows' -> NoDup (fst <$> rows) -> NoDup (fst <$> rows').
Proof.
  induction 1 as [|r0 rows rows' HnP Hrel IH|r0 rows rows' HP _ IH];
    rewrite ?fmap_cons, ?NoDup_cons; [done| |naive_solver].
  intros [Hni Hnd]. split; [|by apply IH]. intros Hin. apply Hni.
  apply list_elem_of_fmap in Hin as (r & -> & Hin).
  apply list_elem_of_fmap. exists r. split; [done|].
  by eapply removedRel_elem_of in Hin as [? _].
Qed.

Lemma removedRel_lookup P rows rows' x :
  removedRel P rows rows' ->
  (P x -> lookupDoc x rows' = None)
  /\ (~ P x -> lookupDoc x rows' = lookupDoc x rows).
Proof.
  unfold lookupDoc.
  induction 1 as [|[i d] rows rows' HnP _ [IH1 IH2]
                  |[i d] rows rows' HP _ [IH1 IH2]]; [done| |]; simpl in *.
  - case_bool_decide; simpl; [subst|done]. split; done.
  - split; [done|]. intros HnP. rewrite bool_decide_eq_false_2; [auto|].
    simpl. intros ->. done.
Qed.

Lemma NoDup_fst_eq {A} (l : list (N * A)) k x y :
  NoDup (fst <$> l) -> (k, x) ∈ l -> (k, y) ∈ l -> x = y.
Proof.
  induction l as [|[i a] l IH]; [by intros _ ?%elem_of_nil|].
  rewrite fmap_cons, NoDup_cons. simpl. intros [Hni Hnd] Hx Hy.
  apply elem_of_cons in Hx as [Hx|Hx]; apply elem_of_cons in Hy as [Hy|Hy].
  - congruence.
  - inversion Hx; subst. exfalso. apply Hni.
    apply list_elem_of_fmap. by exists (i, y).
  - inversion Hy; subst. exfalso. apply Hni.
    apply list_elem_of_fmap. by exists (i, x).
  - by apply IH.
Qed.

Lemma inSubtree_le ws sk next a b :
  ordered sk next -> inSubtree ws sk a b -> a <= b.
Proof.
  intros Hord. induction 1 as [|a c b Hc _ IH]; [lia|].
  destruct (Hord _ _ _ Hc). lia.
Qed.

Lemma below_lt ws sk next a b :
  ordered sk next -> below ws sk a b -> a < b.
Proof.
  intros Hord (c & Hc & Hsub). destruct (Hord _ _ _ Hc).
  pose proof (inSubtree_le _ _ _ _ _ Hord Hsub). lia.
Qed.

Lemma inSubtree_mono ws (sk sk' : list (N * (N * option N))) a b :
  (forall e, e ∈ sk -> e ∈ sk') -> inSubtree ws sk a b -> inSubtree ws sk' a b.
Proof.
  intros Hsub. induction 1 as [|a c b Hc _ IH]; [apply rtc_refl|].
  eapply rtc_l; [|exact IH]. by apply Hsub.
Qed.

Lemma skeleton_elem_of rows c ws q :
  (c, (ws, q)) ∈ skeleton rows <->
  exists d, (c, d) ∈ rows /\ Doc.workspaceId d = ws
            /\ Doc.parentDocumentId d = q.
Proof.
  unfold skeleton. rewrite list_elem_of_fmap. split.
  - intros ([i d] & Heq & Hin). simpl in Heq. inversion Heq; subst.
    by exists d.
  - intros (d & Hin & <- & <-). by exists (c, d).
Qed.

(** A child of [p] is in the subtree of no other child of [p]. *)
Lemma siblings_apart ws sk next p c c' :
  NoDup (fst <$> sk) -> ordered sk next ->
  childIn ws sk p c -> childIn ws sk p c' -> inSubtree ws sk c' c -> c' = c.
Proof.
  intros Hnd Hord Hc Hc' Hsub.
  apply rtc_inv_r in Hsub as [->|(z & Hsub & Hz)]; [done|].
  pose proof (NoDup_fst_eq _ _ _ _ Hnd Hc Hz) as [= ->].
  pose proof (inSubtree_le _ _ _ _ _ Hord Hsub).
  destruct (Hord _ _ _ Hc'). lia.
Qed.

Lemma db_delete_returns id s :
  id ∈ (fst <$> docRows (table s)) ->
  db_delete id s =
  (Returned tt,
   mkHandlerState (mkDocsDb (deleteRows id (docRows (table s)))
                            (nextDocId (table s))) (ticks s)).
Proof.
  intros Hin. unfold db_delete.
  destruct (lookupDoc id (docRows (table s))) eqn:E; [done|].
  by apply lookupDoc_None in E.
Qed.

Lemma removedRel_skeleton P rows rows' e :
  removedRel P rows rows' -> e ∈ skeleton rows' -> e ∈ skeleton rows.
Proof.
  intros Hrel. unfold skeleton. rewrite !list_elem_of_fmap.
  intros (r & -> & Hin). exists r. split; [done|].
  by eapply removedRel_elem_of in Hin as [? _].
Qed.

Lemma ordered_mono (sk sk' : list (N * (N * option N))) next :
  (forall e, e ∈ sk -> e ∈ sk') -> ordered sk' next -> ordered sk next.
Proof. intros Hsub Hord c ws p Hin. by eapply Hord, Hsub. Qed.

Lemma byWorkspaceParent_NoDup ws parent rows :
  NoDup (fst <$> rows) -> NoDup (fst <$> byWorkspaceParent ws parent rows).
Proof.
  intros Hnd. eapply sublist_NoDup; [exact Hnd|].
  apply fmap_sublist, sublist_filter.
Qed.

Lemma byWorkspaceParent_child ws rows p c :
  c ∈ byWorkspaceParent ws (Some p) rows ->
  c ∈ rows /\ childIn ws (skeleton rows) p (fst c).
Proof.
  intros Hc. split.
  - unfold byWorkspaceParent in Hc. by apply list_elem_of_filter in Hc as [_ ?].
  - apply childIn_byWorkspaceParent. by exists c.
Qed.

(** [deleteChildren] returns on a table whose ids are unique and whose
    parents are older than their children, and deletes the rows below
    [parentId], and only them. *)
Lemma deleteChildren_spec fuel : forall ws p s,
  NoDup (fst <$> docRows (table s)) ->
  ordered (skeleton (docRows (table s))) (nextDocId (table s)) ->
  (N.to_nat (nextDocId (table s) - p) < fuel)%nat ->
  exists s',
    Docs.deleteChildren fuel ws p s = Some (Returned tt, s')
    /\ nextDocId (table s') = nextDocId (table s)
    /\ removedRel (below ws (skeleton (docRows (table s))) p)
                  (docRows (table s)) (docRows (table s')).
Proof.
  induction fuel as [|fuel IH]; intros ws p s Hnd Hord Hfuel; [lia|].
  set (rows0 := docRows (table s)) in *.
  set (sk0 := skeleton rows0) in *.
  set (next0 := nextDocId (table s)) in *.
  set (D := fun (l : list (N * Doc.t)) (x : N) =>
              exists c, c ∈ l /\ inSubtree ws sk0 (fst c) x).
  assert (Hnd0 : NoDup (fst <$> sk0)) by (unfold sk0; by rewrite skeleton_ids).
  assert (Hloop : forall (cs done : list (N * Doc.t)) s1,
    (forall c, c ∈ done ++ cs -> c ∈ byWorkspaceParent ws (Some p) rows0) ->
    NoDup (fst <$> (done ++ cs)) ->
    removedRel (D done) rows0 (docRows (table s1)) ->
    nextDocId (table s1) = next0 ->
    exists s',
      forEach cs (fun child =>
        step! _ := Docs.deleteChildren fuel ws (fst child) in
        lift (db_delete (fst child))) s1
      = Some (Returned tt, s')
      /\ nextDocId (table s') = next0
      /\ removedRel (D (done ++ cs)) rows0 (docRows (table s'))).
  { induction cs as [|c cs IHcs]; intros done s1 Hcs Hndc Hrel1 Hnext.
    - exists s1. rewrite app_nil_r. done.
    - destruct (byWorkspaceParent_child ws rows0 p c) as [Hc0 Hc];
        [apply Hcs, elem_of_app; right; left|]. fold sk0 in Hc.
      destruct (Hord _ _ _ Hc) as [Hlt Hlt'].
      set (rows1 := docRows (table s1)) in *.
      assert (Hsub1 : forall e, e ∈ skeleton rows1 -> e ∈ sk0)
        by (intros e; by apply removedRel_skeleton with (P := D done)).
      destruct (IH ws (fst c) s1) as (s2 & Hrun2 & Hn2 & Hrel2).
      { by eapply removedRel_NoDup. }
      { rewrite Hnext. by eapply ordered_mono. }
      { rewrite Hnext. lia. }
      fold rows1 in Hrel2.
      assert (Hc1 : c ∈ rows1).
      { destruct (removedRel_kept _ _ _ c Hrel1 Hc0) as [?|(c' & Hc' & Hs)];
          [done|exfalso].
        assert (Hcc : childIn ws sk0 p (fst c')).
        { eapply byWorkspaceParent_child, Hcs, elem_of_app. by left. }
        pose proof (siblings_apart _ _ _ _ _ _ Hnd0 Hord Hc Hcc Hs) as Heq.
        rewrite fmap_app in Hndc. apply NoDup_app in Hndc as (_ & Hdis & _).
        apply (Hdis (fst c')).
        - apply list_elem_of_fmap. by exists c'.
        - rewrite Heq. apply list_elem_of_fmap. exists c. split; [done|left]. }
      assert (Hc2 : c ∈ docRows (table s2)).
      { destruct (removedRel_kept _ _ _ c Hrel2 Hc1) as [?|Hb]; [done|].
        exfalso. eapply below_lt in Hb; [lia|].
        eapply ordered_mono; [exact Hsub1|exact Hord]. }
      pose proof (deleteRows_removed (fst c) (docRows (table s2))) as Hrel3.
      set (s3 := mkHandlerState
                   (mkDocsDb (deleteRows (fst c) (docRows (table s2)))
                             (nextDocId (table s2))) (ticks s2)).
      destruct (IHcs (done ++ [c]) s3) as (s4 & Hrun4 & Hn4 & Hrel4).
      { intros c'. rewrite <- app_assoc. apply Hcs. }
      { by rewrite <- app_assoc. }
      { simpl.
        eapply removedRel_iff;
          [|exact (removedRel_trans _ _ _ _ _
                     (removedRel_trans _ _ _ _ _ Hrel1 Hrel2) Hrel3)].
        intros x. simpl. unfold D. split.
        - intros [[(c' & Hc' & Hs)|Hb]| <-].
          + exists c'. split; [apply elem_of_app; by left|done].
          + exists c. split; [apply elem_of_app; right; left|].
            apply inSubtree_below. right. destruct Hb as (c1 & Hc1' & Hs).
            exists c1. split; [by apply Hsub1|].
            by eapply inSubtree_mono.
          + exists c. split; [apply elem_of_app; right; left|apply rtc_refl].
        - intros (c' & [Hc'|Hc']%elem_of_app & Hs).
          + left. left. by exists c'.
          + apply list_elem_of_singleton in Hc'. subst c'. revert x Hs.
            apply rtc_ind_r; [by right|].
            intros y x Hy Hyx IHy.
            pose proof Hyx as (dx & Hdx & Hws & Hpar)%childIn_skeleton.
            destruct (removedRel_kept _ _ _ _ Hrel1 Hdx)
              as [Hin1|(c' & Hc' & Hs)].
            * assert (Hyx1 : childIn ws (skeleton rows1) y x)
                by (apply childIn_skeleton; by exists dx).
              destruct IHy as [[(c' & Hc' & Hs)|(c1 & Hc1' & Hs)]| <-].
              -- left. left. exists c'. split; [done|]. by eapply rtc_r.
              -- left. right. exists c1. split; [done|]. by eapply rtc_r.
              -- left. right. exists x. split; [done|apply rtc_refl].
            * left. left. by exists c'. }
      { simpl. by rewrite Hn2. }
      exists s4. split; [|split; [done|]].
      + simpl. erewrite dbind_returned; [exact Hrun4|].
        erewrite dbind_returned; [|exact Hrun2].
        unfold lift. rewrite db_delete_returns; [done|].
        apply list_elem_of_fmap. by exists c.
      + rewrite <- app_assoc in Hrel4. exact Hrel4. }
  destruct (Hloop (byWorkspaceParent ws (Some p) rows0) [] s)
    as (s' & Hrun & Hn & Hrel); [done| | |done|].
  { by apply byWorkspaceParent_NoDup. }
  { apply removedRel_refl. intros x (c & Hc & _). by apply elem_of_nil in Hc. }
  exists s'. split; [|split; [done|]].
  - simpl. erewrite dbind_returned; [exact Hrun|done].
  - eapply removedRel_iff; [|exact Hrel]. intros x. unfold D, below. split.
    + intros (r & Hr & Hsub). exists (fst r). split; [|done].
      apply childIn_byWorkspaceParent. by exists r.
    + intros (c & (r & Hr & <-)%childIn_byWorkspaceParent & Hsub). by exists r.
Qed.

(** [remove] by a member, with enough fuel. *)
Lemma remove_runs env fuel id d doc row :
  wellFormed d ->
  lookupDoc id (docRows d) = Some doc ->
  requireWorkspaceMember (auth env) (Doc.workspaceId doc) = Returned row ->
  (N.to_nat (nextDocId d) < fuel)%nat ->
  exists d',
    Docs.remove env fuel id d = Some (Returned id, d')
    /\ nextDocId d' = nextDocId d
    /\ removedRel
         (inSubtree (Doc.workspaceId doc) (skeleton (docRows d)) id)
         (docRows d) (docRows d').
Proof.
  intros Hwf Hdoc Hmem Hfuel.
  destruct (requireWorkspaceMember_auth _ _ _ Hmem) as [u Hu].
  pose proof (wellFormed_ordered _ Hwf) as Hord.
  destruct (deleteChildren_spec fuel (Doc.workspaceId doc) id
              (mkHandlerState d 0)) as (s1 & Hrun & Hn & Hrel).
  { simpl. by apply wf_nodup. }
  { done. }
  { simpl. lia. }
  simpl in Hn, Hrel.
  assert (Hin1 : (id, doc) ∈ docRows (table s1)).
  { destruct (removedRel_kept _ _ _ _ Hrel (lookupDoc_elem_of _ _ _ Hdoc))
      as [?|Hb]; [done|].
    eapply below_lt in Hb; [|exact Hord]. simpl in Hb. lia. }
  assert (Hall : removedRel
            (inSubtree (Doc.workspaceId doc) (skeleton (docRows d)) id)
            (docRows d) (deleteRows id (docRows (table s1)))).
  { eapply removedRel_iff;
      [|exact (removedRel_trans _ _ _ _ _ Hrel
                 (deleteRows_removed id (docRows (table s1))))].
    intros x. rewrite inSubtree_below. simpl. tauto. }
  exists (mkDocsDb (deleteRows id (docRows (table s1)))
                   (nextDocId (table s1))).
  split; [|split; [done|exact Hall]].
  unfold Docs.remove, transaction, Docs.removeHandler.
  erewrite dbind_returned; [|unfold lift, liftOutcome; by rewrite Hu].
  erewrite dbind_returned; [|unfold lift, db_get; simpl; by rewrite Hdoc].
  cbv beta iota.
  erewrite dbind_returned; [|unfold lift, liftOutcome; by rewrite Hmem].
  erewrite dbind_returned; [|exact Hrun].
  erewrite dbind_returned;
    [|unfold lift; rewrite db_delete_returns;
      [reflexivity|apply list_elem_of_fmap; by exists (id, doc)]].
  done.
Qed.

Lemma wellFormed_wfSk d :
  wellFormed d <-> wfSk (skeleton (docRows d)) (nextDocId d).
Proof.
  unfold wfSk. rewrite skeleton_ids. split.
  - intros [Hnd Hb Ho Hw]. split; [done|]. split; [|split].
    + intros c w q (x & Hin & _)%skeleton_elem_of. by eapply Hb.
    + intros c w p (x & Hin & _ & Hp)%skeleton_elem_of. by eapply Ho.
    + intros c w p w' q' (x & Hin & <- & Hp)%skeleton_elem_of
             (y & Hin' & <- & _)%skeleton_elem_of.
      eapply Hw; [exact Hin|exact Hp|]. by apply elem_of_lookupDoc.
  - intros (Hnd & Hb & Ho & Hw). split; [done| | |].
    + intros id doc Hin. eapply Hb. apply skeleton_elem_of. by exists doc.
    + intros id doc p Hin Hp. eapply Ho. apply skeleton_elem_of. by exists doc.
    + intros id doc p pd Hin Hp Hpd%lookupDoc_elem_of.
      eapply Hw; apply skeleton_elem_of; [by exists doc|by exists pd].
Qed.

Lemma wfSk_sublist sk sk' next :
  sk' `sublist_of` sk -> wfSk sk next -> wfSk sk' next.
Proof.
  intros Hsub (Hnd & Hb & Ho & Hw).
  assert (Hin : forall e, e ∈ sk' -> e ∈ sk)
    by (intros e He; by eapply elem_of_sublist).
  split; [|split; [|split]].
  - eapply sublist_NoDup; [exact Hnd|]. by apply fmap_sublist.
  - intros c w q H'. by eapply Hb, Hin.
  - intros c w p H'. by eapply Ho, Hin.
  - intros c w p w' q' H1 H2. eapply Hw; by apply Hin.
Qed.

Lemma wfSk_insert sk next ws parent :
  wfSk sk next ->
  (forall p, parent = Some p -> exists q, (p, (ws, q)) ∈ sk) ->
  wfSk (sk ++ [(next, (ws, parent))]) (next + 1).
Proof.
  intros (Hnd & Hb & Ho & Hw) Hpar.
  assert (Hfresh : forall w q, (next, (w, q)) ∉ sk).
  { intros w q Hin. apply Hb in Hin. lia. }
  split; [|split; [|split]].
  - rewrite fmap_app. apply NoDup_app. split; [done|]. split.
    + intros x ([c [w q]] & -> & Hin)%list_elem_of_fmap.
      simpl. intros ->%list_elem_of_singleton. by eapply Hfresh.
    + apply NoDup_singleton.
  - intros c w q [Hin|[= -> -> ->]%list_elem_of_singleton]%elem_of_app;
      [apply Hb in Hin|]; lia.
  - intros c w p [Hin|[= -> -> <-]%list_elem_of_singleton]%elem_of_app;
      [by eapply Ho|].
    destruct (Hpar p eq_refl) as (q & Hq). by apply Hb in Hq.
  - intros c w p w' q'
           [Hin|[= -> -> <-]%list_elem_of_singleton]%elem_of_app
           [Hin'|[= -> -> ->]%list_elem_of_singleton]%elem_of_app.
    + by eapply Hw.
    + pose proof (Ho _ _ _ Hin). pose proof (Hb _ _ _ Hin). lia.
    + destruct (Hpar p eq_refl) as (q & Hq).
      pose proof (NoDup_fst_eq _ _ _ _ Hnd Hq Hin') as [= -> _]. done.
    + destruct (Hpar next eq_refl) as (q & Hq). by apply Hfresh in Hq.
Qed.

Lemma lookupDoc_patchRows x id f rows :
  lookupDoc x (patchRows id f rows) =
  if bool_decide (x = id) then f <$> lookupDoc x rows else lookupDoc x rows.
Proof.
  unfold lookupDoc, patchRows. induction rows as [|[i d] rows IH].
  - by case_bool_decide.
  - rewrite fmap_cons. simpl.
    destruct (decide (i = id)) as [->|Hne].
    + rewrite (bool_decide_eq_true_2 (id = id)) by done. simpl.
      destruct (decide (id = x)) as [->|Hne'].
      * rewrite !bool_decide_eq_true_2 by done. done.
      * rewrite (bool_decide_eq_false_2 (id = x)) by done. exact IH.
    + rewrite (bool_decide_eq_false_2 (i = id)) by done. simpl.
      destruct (decide (i = x)) as [->|Hne'].
      * rewrite (bool_decide_eq_true_2 (x = x)) by done.
        by rewrite (bool_decide_eq_false_2 (x = id)).
      * rewrite (bool_decide_eq_false_2 (i = x)) by done. exact IH.
Qed.

Lemma lookupDoc_snoc x id doc rows :
  lookupDoc id rows = None ->
  lookupDoc x (rows ++ [(id, doc)]) =
  if bool_decide (x = id) then Some doc else lookupDoc x rows.
Proof.
  unfold lookupDoc. induction rows as [|[i d] rows IH]; simpl.
  - intros _. destruct (decide (id = x)) as [->|Hne].
    + by rewrite !bool_decide_eq_true_2.
    + rewrite (bool_decide_eq_false_2 (id = x)) by done.
      by rewrite (bool_decide_eq_false_2 (x = id)).
  - destruct (decide (i = id)) as [->|Hne].
    + by rewrite (bool_decide_eq_true_2 (id = id)).
    + rewrite (bool_decide_eq_false_2 (i = id)) by done. intros Hn.
      destruct (decide (i = x)) as [->|Hne'].
      * rewrite (bool_decide_eq_true_2 (x = x)) by done.
        by rewrite (bool_decide_eq_false_2 (x = id)).
      * rewrite (bool_decide_eq_false_2 (i = x)) by done. by apply IH.
Qed.

(** [restore] by a member. *)
Lemma restore_runs env id d doc row :
  lookupDoc id (docRows d) = Some doc ->
  requireWorkspaceMember (auth env) (Doc.workspaceId doc) = Returned row ->
  Docs.restore env id d =
  Some (Returned id,
        mkDocsDb (patchRows id
                    (setRestored (restoredParent doc (docRows d))
                                 (clock env 0)) (docRows d))
                 (nextDocId d)).
Proof.
  intros Hdoc Hmem.
  destruct (requireWorkspaceMember_auth _ _ _ Hmem) as [u Hu].
  unfold Docs.restore, transaction, lift, Docs.restoreHandler, bind,
    liftOutcome, db_get, dateNow, ret. simpl.
  rewrite Hu, Hdoc, Hmem. unfold restoredParent.
  destruct (Doc.parentDocumentId doc) as [pid|]; simpl.
  - destruct (lookupDoc pid (docRows d)) as [p|]; simpl.
    + destruct (Doc.isArchived p); simpl;
        rewrite db_patch_returns by (simpl; by eapply lookupDoc_id); done.
    + rewrite db_patch_returns by (simpl; by eapply lookupDoc_id). done.
  - rewrite db_patch_returns by (simpl; by eapply lookupDoc_id). done.
Qed.

Lemma dbind_rel {S A B} (R : S -> S -> Prop) (m : Div S A)
    (k : A -> Div S B) s o s' :
  (forall x y z, R x y -> R y z -> R x z) ->
  (forall o1 s1, m s = Some (o1, s1) -> R s s1) ->
  (forall a s1, m s = Some (Returned a, s1) ->
                k a s1 = Some (o, s') -> R s1 s') ->
  dbind m k s = Some (o, s') -> R s s'.
Proof.
  intros Htrans Hm Hk. unfold dbind.
  destruct (m s) as [[[a|e] s1]|] eqn:E; [| |done].
  - intros Hrun. eapply Htrans; [by eapply Hm|by eapply Hk].
  - intros [= <- <-]. by eapply Hm.
Qed.

Lemma forEach_rel {S A} (R : S -> S -> Prop) (items : list A)
    (body : A -> Div S unit) :
  (forall x, R x x) ->
  (forall x y z, R x y -> R y z -> R x z) ->
  (forall x s o s', body x s = Some (o, s') -> R s s') ->
  forall s o s', forEach items body s = Some (o, s') -> R s s'.
Proof.
  intros Hrefl Htrans Hbody.
  induction items as [|x items IH]; intros s o s'; simpl.
  - intros [= <- <-]. apply Hrefl.
  - apply dbind_rel; [done|apply Hbody|]. intros _ s1 _. apply IH.
Qed.

Lemma sameShape_refl s : sameShape s s.
Proof. done. Qed.

Lemma sameShape_trans s1 s2 s3 :
  sameShape s1 s2 -> sameShape s2 s3 -> sameShape s1 s3.
Proof. intros [H1 H2] [H3 H4]. split; congruence. Qed.

Lemma shrinks_refl s : shrinks s s.
Proof. done. Qed.

Lemma shrinks_trans s1 s2 s3 :
  shrinks s1 s2 -> shrinks s2 s3 -> shrinks s1 s3.
Proof.
  intros [H1 H2] [H3 H4]. split; [by etrans|congruence].
Qed.

Lemma db_patch_sameShape id now o s s' :
  db_patch id (setArchived true now) s = (o, s') -> sameShape s s'.
Proof.
  unfold db_patch. destruct (lookupDoc id (docRows (table s)));
    intros [= <- <-]; [|done].
  split; [|done]. simpl.
  by apply (archivedRow_skeleton (eq id)), patchRows_archived.
Qed.

Lemma db_delete_shrinks id o s s' :
  db_delete id s = (o, s') -> shrinks s s'.
Proof.
  unfold db_delete. destruct (lookupDoc id (docRows (table s)));
    intros [= <- <-]; [|done].
  split; [|done]. simpl. apply sublist_filter.
Qed.

Lemma archiveChildren_sameShape env fuel : forall ws p s o s',
  Docs.archiveChildren env fuel ws p s = Some (o, s') -> sameShape s s'.
Proof.
  induction fuel as [|fuel IH]; intros ws p s o s'; [done|]. simpl.
  apply dbind_rel; [apply sameShape_trans|by intros ? ? [= <- <-]|].
  intros cs s1 [= <- <-].
  apply forEach_rel; [apply sameShape_refl|apply sameShape_trans|].
  clear o s'. intros c s1 o s'.
  apply dbind_rel; [apply sameShape_trans|by intros ? ? [= <- <-]|].
  intros now s2 _.
  apply dbind_rel; [apply sameShape_trans| |].
  - intros o1 s3 [= H']. by eapply db_patch_sameShape.
  - intros _ s3 _. apply IH.
Qed.

Lemma deleteChildren_shrinks fuel : forall ws p s o s',
  Docs.deleteChildren fuel ws p s = Some (o, s') -> shrinks s s'.
Proof.
  induction fuel as [|fuel IH]; intros ws p s o s'; [done|]. simpl.
  apply dbind_rel; [apply shrinks_trans|by intros ? ? [= <- <-]|].
  intros cs s1 [= <- <-].
  apply forEach_rel; [apply shrinks_refl|apply shrinks_trans|].
  clear o s'. intros c s1 o s'.
  apply dbind_rel; [apply shrinks_trans|apply IH|].
  intros _ s2 _ [= H']. by eapply db_delete_shrinks.
Qed.

Lemma archiveHandler_sameShape env fuel id s o s' :
  Docs.archiveHandler env fuel id s = Some (o, s') -> sameShape s s'.
Proof.
  unfold Docs.archiveHandler.
  apply dbind_rel; [apply sameShape_trans|by intros ? ? [= <- <-]|].
  intros _ s1 _.
  apply dbind_rel; [apply sameShape_trans|by intros ? ? [= <- <-]|].
  intros [doc|] s2 _; [|by intros [= <- <-]].
  apply dbind_rel; [apply sameShape_trans|by intros ? ? [= <- <-]|].
  intros _ s3 _.
  apply dbind_rel; [apply sameShape_trans|by intros ? ? [= <- <-]|].
  intros now s4 _.
  apply dbind_rel; [apply sameShape_trans| |].
  { intros o1 s5 [= H']. by eapply db_patch_sameShape. }
  intros _ s5 _.
  apply dbind_rel; [apply sameShape_trans|apply archiveChildren_sameShape|].
  by intros _ s6 _ [= <- <-].
Qed.

Lemma removeHandler_shrinks env fuel id s o s' :
  Docs.removeHandler env fuel id s = Some (o, s') -> shrinks s s'.
Proof.
  unfold Docs.removeHandler.
  apply dbind_rel; [apply shrinks_trans|by intros ? ? [= <- <-]|].
  intros _ s1 _.
  apply dbind_rel; [apply shrinks_trans|by intros ? ? [= <- <-]|].
  intros [doc|] s2 _; [|by intros [= <- <-]].
  apply dbind_rel; [apply shrinks_trans|by intros ? ? [= <- <-]|].
  intros _ s3 _.
  apply dbind_rel; [apply shrinks_trans|apply deleteChildren_shrinks|].
  intros _ s4 _.
  apply dbind_rel; [apply shrinks_trans| |].
  { intros o1 s5 [= H']. by eapply db_delete_shrinks. }
  by intros _ s5 _ [= <- <-].
Qed.

Lemma transaction_cases {A} (handler : Div HandlerState A) d o d' :
  transaction handler d = Some (o, d') ->
  d' = d \/ exists a s,
    handler (mkHandlerState d 0) = Some (Returned a, s)
    /\ o = Returned a /\ d' = table s.
Proof.
  unfold transaction.
  destruct (handler (mkHandlerState d 0)) as [[[a|e] s]|]; [| |done].
  - intros [= <- <-]. right. by exists a, s.
  - intros [= <- <-]. by left.
Qed.

Lemma createHandler_returned env title ws parent s a s' :
  Docs.createHandler env title ws parent s = (Returned a, s') ->
  exists userId now,
    a = nextDocId (table s)
    /\ requireAuth (auth env) = Returned userId
    /\ table s' =
       mkDocsDb (docRows (table s)
                 ++ [(nextDocId (table s),
                      Doc.mk title ws parent None None None false false
                             userId now now)])
                (nextDocId (table s) + 1)
    /\ (forall p, parent = Some p ->
          exists pd, lookupDoc p (docRows (table s)) = Some pd
                     /\ Doc.workspaceId pd = ws).
Proof.
  unfold Docs.createHandler, bind, liftOutcome, db_get, dateNow, db_insert,
    throw, ret.
  destruct (requireAuth (auth env)) as [u|]; [|done].
  destruct (requireWorkspaceMember (auth env) ws); [|done].
  destruct parent as [pid|]; simpl.
  - destruct (lookupDoc pid (docRows (table s))) as [pd|] eqn:E; [|done].
    case_bool_decide as Hws; [done|]. simpl. intros [= <- <-].
    exists u, (clock env (ticks s)). split; [done|]. split; [done|].
    split; [done|]. intros p [= <-]. exists pd. split; [done|].
    by destruct (decide (Doc.workspaceId pd = ws)).
  - intros [= <- <-]. exists u, (clock env (ticks s)). done.
Qed.

Lemma restoreHandler_returned env id s a s' :
  Docs.restoreHandler env id s = (Returned a, s') ->
  exists doc now,
    lookupDoc id (docRows (table s)) = Some doc
    /\ table s' =
       mkDocsDb (patchRows id
                   (setRestored (restoredParent doc (docRows (table s))) now)
                   (docRows (table s)))
                (nextDocId (table s)).
Proof.
  unfold Docs.restoreHandler, bind, liftOutcome, db_get, dateNow, throw, ret.
  destruct (requireAuth (auth env)) as [u|]; [|done].
  destruct (lookupDoc id (docRows (table s))) as [doc|] eqn:Hdoc; [|done].
  destruct (requireWorkspaceMember (auth env) (Doc.workspaceId doc)); [|done].
  intros Hrun. exists doc, (clock env (ticks s)). split; [done|].
  unfold restoredParent. revert Hrun.
  destruct (Doc.parentDocumentId doc) as [pid|]; simpl.
  - destruct (lookupDoc pid (docRows (table s))) as [p|]; simpl.
    + destruct (Doc.isArchived p); simpl;
        rewrite db_patch_returns by (simpl; by eapply lookupDoc_id);
        by intros [= <- <-].
    + rewrite db_patch_returns by (simpl; by eapply lookupDoc_id).
      by intros [= <- <-].
  - rewrite db_patch_returns by (simpl; by eapply lookupDoc_id).
    by intros [= <- <-].
Qed.

Lemma skeleton_snoc rows id doc :
  skeleton (rows ++ [(id, doc)]) =
  skeleton rows ++ [(id, (Doc.workspaceId doc, Doc.parentDocumentId doc))].
Proof. unfold skeleton. by rewrite fmap_app. Qed.

Lemma skeleton_restore id q now rows :
  skeleton (patchRows id (setRestored q now) rows) =
  (fun e => if bool_decide (fst e = id) then (fst e, (fst (snd e), q)) else e)
    <$> skeleton rows.
Proof.
  unfold skeleton, patchRows. rewrite <- !list_fmap_compose.
  apply list_fmap_ext. intros _ [i d] _. simpl. by case_bool_decide.
Qed.

Lemma wfSk_reparent sk next id q :
  wfSk sk next ->
  (forall p, q = Some p -> forall w q0, (id, (w, q0)) ∈ sk -> q0 = q) ->
  wfSk ((fun e => if bool_decide (fst e = id)
                  then (fst e, (fst (snd e), q)) else e) <$> sk) next.
Proof.
  intros (Hnd & Hb & Ho & Hw) Hq.
  set (f := fun e : N * (N * option N) =>
              if bool_decide (fst e = id)
              then (fst e, (fst (snd e), q)) else e).
  assert (Hinv : forall c w r, (c, (w, r)) ∈ f <$> sk ->
            exists r0, (c, (w, r0)) ∈ sk
                       /\ (forall p, r = Some p -> r0 = Some p)).
  { intros c w r ([c0 [w0 r0]] & Heq & Hin)%list_elem_of_fmap.
    unfold f in Heq. simpl in Heq. case_bool_decide as Hc.
    - inversion Heq; subst. exists r0. split; [done|].
      intros p Hp. rewrite <- Hp. by eapply Hq.
    - inversion Heq; subst. by exists r0. }
  split; [|split; [|split]].
  - rewrite <- list_fmap_compose.
    erewrite list_fmap_ext; [exact Hnd|].
    intros _ e _. unfold f. simpl. by case_bool_decide.
  - intros c w r (r0 & Hin & _)%Hinv. by eapply Hb.
  - intros c w p (r0 & Hin & Hr)%Hinv. rewrite (Hr p eq_refl) in Hin.
    by eapply Ho.
  - intros c w p w' q' (r0 & Hin & Hr)%Hinv (r1 & Hin' & _)%Hinv.
    rewrite (Hr p eq_refl) in Hin. by eapply Hw.
Qed.

Lemma restoredParent_Some doc rows p :
  restoredParent doc rows = Some p -> Doc.parentDocumentId doc = Some p.
Proof.
  unfold restoredParent. destruct (Doc.parentDocumentId doc) as [pid|]; [|done].
  destruct (lookupDoc pid rows) as [pd|]; [|done].
  by destruct (Doc.isArchived pd).
Qed.

(** Every mutation keeps the table well-formed. *)
Lemma runDocs_wellFormed env c d o d' :
  wellFormed d -> runDocs env c d = Some (o, d') -> wellFormed d'.
Proof.
  intros Hwf. destruct c as [title ws parent|fuel id|id|fuel id]; simpl;
    intros [->|(a & s & Hrun & _ & ->)]%transaction_cases; try done.
  - injection Hrun as Hrun.
    apply createHandler_returned in Hrun as (u & now & _ & _ & -> & Hpar).
    apply wellFormed_wfSk. simpl. rewrite skeleton_snoc. simpl.
    apply wfSk_insert; [by apply wellFormed_wfSk|].
    intros p Hp. destruct (Hpar p Hp) as (pd & Hpd%lookupDoc_elem_of & Hws).
    exists (Doc.parentDocumentId pd). apply skeleton_elem_of. by exists pd.
  - apply archiveHandler_sameShape in Hrun as [Hsk Hn]. simpl in *.
    apply wellFormed_wfSk. rewrite Hsk, Hn. by apply wellFormed_wfSk.
  - injection Hrun as Hrun.
    apply restoreHandler_returned in Hrun as (doc & now & Hdoc & ->).
    simpl in *. apply wellFormed_wfSk. simpl. rewrite skeleton_restore.
    apply wfSk_reparent; [by apply wellFormed_wfSk|].
    intros p Hp w q0 (x & Hin & _ & <-)%skeleton_elem_of.
    apply restoredParent_Some in Hp as Hp'. rewrite Hp, <- Hp'.
    apply lookupDoc_elem_of in Hdoc.
    by rewrite (NoDup_fst_eq _ _ _ _ (wf_nodup _ Hwf) Hin Hdoc).
  - apply removeHandler_shrinks in Hrun as [Hsub Hn]. simpl in *.
    apply wellFormed_wfSk. rewrite Hn.
    eapply wfSk_sublist; [|by apply wellFormed_wfSk].
    by apply fmap_sublist.
Qed.

Lemma wellFormed_empty : wellFormed (mkDocsDb [] 0).
Proof.
  split; simpl; [apply NoDup_nil_2| | |]; intros;
    match goal with H : _ ∈ [] |- _ => by apply elem_of_nil in H end.
Qed.

Lemma docsReachable_inv d : docsReachable d -> wellFormed d.
Proof.
  induction 1 as [|env c d o d' _ IH Hrun]; [apply wellFormed_empty|].
  by eapply runDocs_wellFormed.
Qed.

Lemma runAllDocs_reachable env cs : forall d d',
  docsReachable d -> runAllDocs env cs d = Some d' -> docsReachable d'.
Proof.
  induction cs as [|c cs IH]; intros d d' Hd; simpl.
  - by intros [= <-].
  - destruct (runDocs env c d) as [[o d1]|] eqn:E; [|done].
    apply IH. by eapply docsReachable_step.
Qed.

Lemma exampleDocs_reachable : docsReachable exampleDocs.
Proof.
  apply (runAllDocs_reachable memberEnv exampleDocsCommands (mkDocsDb [] 0));
    [constructor|]. vm_compute. reflexivity.
Qed.

Lemma exampleDocs_wellFormed : wellFormed exampleDocs.
Proof. apply docsReachable_inv, exampleDocs_reachable. Qed.

Lemma archivedRow_elem_of_r P rows rows' r' :
  Forall2 (archivedRow P) rows rows' -> r' ∈ rows' ->
  exists r, r ∈ rows /\ archivedRow P r r'.
Proof.
  intros Hrel (i & Hi)%list_elem_of_lookup.
  destruct (Forall2_lookup_r _ _ _ _ _ Hrel Hi) as (r & Hr & Hrow).
  exists r. split; [by eapply list_elem_of_lookup_2|done].
Qed.

Lemma archivedRow_elem_of_l P rows rows' r :
  Forall2 (archivedRow P) rows rows' -> r ∈ rows ->
  exists r', r' ∈ rows' /\ archivedRow P r r'.
Proof.
  intros Hrel (i & Hi)%list_elem_of_lookup.
  destruct (Forall2_lookup_l _ _ _ _ _ Hrel Hi) as (r' & Hr & Hrow).
  exists r'. split; [by eapply list_elem_of_lookup_2|done].
Qed.

(** The documents of a subtree are in the workspace of its root. *)
Lemma inSubtree_workspace d id doc x doc0 :
  wellFormed d ->
  lookupDoc id (docRows d) = Some doc ->
  inSubtree (Doc.workspaceId doc) (skeleton (docRows d)) id x ->
  lookupDoc x (docRows d) = Some doc0 ->
  Doc.workspaceId doc0 = Doc.workspaceId doc.
Proof.
  intros Hwf Hdoc Hsub Hx.
  apply rtc_inv_r in Hsub as [<-|(z & _ & Hz)]; [congruence|].
  apply childIn_skeleton in Hz as (d1 & Hin & Hws & _).
  apply lookupDoc_elem_of in Hx.
  by rewrite (NoDup_fst_eq _ _ _ _ (wf_nodup _ Hwf) Hx Hin).
Qed.



(** X21. After such an archive no document of the subtree is in any
    listing of [list], whoever asks and for whatever workspace and parent,
    and every document of the subtree is in the [listArchived] of the
    workspace. *)
Theorem docs_archive_listing env fuel id d doc row :
  wellFormed d ->
  lookupDoc id (docRows d) = Some doc ->
  requireWorkspaceMember (auth env) (Doc.workspaceId doc) = Returned row ->
  (N.to_nat (nextDocId d) < fuel)%nat ->
  exists d',
    Docs.archive env fuel id d = Some (Returned id, d')
    /\ (forall ctx ws parent listed r,
          Docs.list ctx ws parent d' = Returned listed -> r ∈ listed ->
          ~ inSubtree (Doc.workspaceId doc) (skeleton (docRows d)) id (fst r))
    /\ (forall x doc0,
          inSubtree (Doc.workspaceId doc) (skeleton (docRows d)) id x ->
          lookupDoc x (docRows d) = Some doc0 ->
          exists listed doc',
            Docs.listArchived (auth env) (Doc.workspaceId doc) d'
            = Returned listed
            /\ (x, doc') ∈ listed).
Proof.
  intros Hwf Hdoc Hmem Hfuel.
  destruct (archive_runs env fuel id d doc row Hwf Hdoc Hmem Hfuel)
    as (d' & Hrun & Hn & Hrel).
  exists d'. split; [done|]. split.
  - intros ctx ws parent listed r. unfold Docs.list, andThen.
    destruct (requireWorkspaceMember ctx ws); [|done].
    intros [= <-] Hr Hsub.
    apply elem_of_reverse, list_elem_of_filter in Hr as [Hflag Hr].
    apply list_elem_of_filter in Hr as [_ Hr].
    destruct (archivedRow_elem_of_r _ _ _ _ Hrel Hr) as (r0 & _ & Hi & Ha & _).
    rewrite <- Hi in Ha. rewrite (Ha Hsub) in Hflag. done.
  - intros x doc0 Hsub Hx. unfold Docs.listArchived, andThen. rewrite Hmem.
    destruct (archivedRow_elem_of_l _ _ _ _ Hrel (lookupDoc_elem_of _ _ _ Hx))
      as ([x' doc'] & Hin & Hi & Ha & Hd).
    simpl in *. subst x'. eexists _, doc'. split; [done|].
    apply elem_of_reverse, list_elem_of_filter. split; [by apply Ha|].
    apply list_elem_of_filter. split; [|done]. simpl.
    rewrite <- (inSubtree_workspace d id doc x doc0 Hwf Hdoc Hsub Hx).
    by destruct Hd as [->|(_ & now & ->)].
Qed.

Lemma docs_archive_listing_witness :
  exists d',
    Docs.archive memberEnv 5 1 exampleDocs = Some (Returned 1, d')
    /\ (forall ctx ws parent listed r,
          Docs.list ctx ws parent d' = Returned listed -> r ∈ listed ->
          ~ inSubtree 1 (skeleton (docRows exampleDocs)) 1 (fst r))
    /\ (forall x doc0,
          inSubtree 1 (skeleton (docRows exampleDocs)) 1 x ->
          lookupDoc x (docRows exampleDocs) = Some doc0 ->
          exists listed doc',
            Docs.listArchived (auth memberEnv) 1 d' = Returned listed
            /\ (x, doc') ∈ listed).
Proof.
  apply (docs_archive_listing memberEnv 5 1 exampleDocs
           (exampleDoc (lit "Draft") (Some 0)) (mkMember 1 7 admin)).
  - exact exampleDocs_wellFormed.
  - reflexivity.
  - reflexivity.
  - simpl. lia.
Defined.

(** X22. Restoring a document, by a member of its workspace, returns the
    id and changes that document alone. Afterwards it is not archived; it
    has its old parent or none; and it has no archived parent in the
    table. Every other document, its descendants among them, is as it
    was. *)
Theorem docs_restore_one env id d doc row :
  lookupDoc id (docRows d) = Some doc ->
  requireWorkspaceMember (auth env) (Doc.workspaceId doc) = Returned row ->
  exists d' doc',
    Docs.restore env id d = Some (Returned id, d')
    /\ lookupDoc id (docRows d') = Some doc'
    /\ Doc.isArchived doc' = false
    /\ (Doc.parentDocumentId doc' = Doc.parentDocumentId doc
        \/ Doc.parentDocumentId doc' = None)
    /\ (forall p pd,
          Doc.parentDocumentId doc' = Some p ->
          lookupDoc p (docRows d') = Some pd -> Doc.isArchived pd = false)
    /\ (forall x, x <> id ->
          lookupDoc x (docRows d') = lookupDoc x (docRows d)).
Proof.
  intros Hdoc Hmem. eexists _, _. split; [by eapply restore_runs|]. simpl.
  split; [by rewrite lookupDoc_patchRows, bool_decide_eq_true_2, Hdoc|].
  split; [done|]. simpl. split; [|split].
  - unfold restoredParent.
    destruct (Doc.parentDocumentId doc) as [pid|]; [|by left].
    destruct (lookupDoc pid (docRows d)) as [p|]; [|by left].
    destruct (Doc.isArchived p); [by right|by left].
  - intros p pd Hp. rewrite lookupDoc_patchRows.
    case_bool_decide as Hpid; [by destruct (lookupDoc p (docRows d)); intros [= <-]|].
    intros Hpd. unfold restoredParent in Hp.
    destruct (Doc.parentDocumentId doc) as [pid|]; [|done].
    destruct (lookupDoc pid (docRows d)) as [p0|] eqn:E.
    + destruct (Doc.isArchived p0) eqn:Ea; [done|].
      injection Hp as <-. congruence.
    + injection Hp as <-. congruence.
  - intros x Hx. by rewrite lookupDoc_patchRows, bool_decide_eq_false_2.
Qed.

Lemma docs_restore_one_witness :
  exists d' doc',
    Docs.restore memberEnv 1 exampleDocs = Some (Returned 1, d')
    /\ lookupDoc 1 (docRows d') = Some doc'
    /\ Doc.isArchived doc' = false
    /\ (Doc.parentDocumentId doc' = Some 0
        \/ Doc.parentDocumentId doc' = None)
    /\ (forall p pd,
          Doc.parentDocumentId doc' = Some p ->
          lookupDoc p (docRows d') = Some pd -> Doc.isArchived pd = false)
    /\ (forall x, x <> 1 ->
          lookupDoc x (docRows d') = lookupDoc x (docRows exampleDocs)).
Proof.
  apply (docs_restore_one memberEnv 1 exampleDocs
           (exampleDoc (lit "Draft") (Some 0)) (mkMember 1 7 admin));
    reflexivity.
Defined.

(** X23. [restore] does not undo [archive]: when a document is archived
    and then restored, each by a member of the workspace, the document is
    no longer archived but every document below it still is. *)
Theorem docs_restore_after_archive env env' fuel id d doc row row' x doc0 :
  wellFormed d ->
  lookupDoc id (docRows d) = Some doc ->
  requireWorkspaceMember (auth env) (Doc.workspaceId doc) = Returned row ->
  requireWorkspaceMember (auth env') (Doc.workspaceId doc) = Returned row' ->
  (N.to_nat (nextDocId d) < fuel)%nat ->
  below (Doc.workspaceId doc) (skeleton (docRows d)) id x ->
  lookupDoc x (docRows d) = Some doc0 ->
  exists d1 d2 now doc',
    Docs.archive env fuel id d = Some (Returned id, d1)
    /\ Docs.restore env' id d1 = Some (Returned id, d2)
    /\ lookupDoc x (docRows d2) = Some (setArchived true now doc0)
    /\ lookupDoc id (docRows d2) = Some doc'
    /\ Doc.isArchived doc' = false.
Proof.
  intros Hwf Hdoc Hmem Hmem' Hfuel Hx Hx0.
  destruct (archive_runs env fuel id d doc row Hwf Hdoc Hmem Hfuel)
    as (d1 & Hrun & Hn & Hrel).
  assert (Hsub : forall y, y = id \/ below (Doc.workspaceId doc)
                                      (skeleton (docRows d)) id y ->
                 inSubtree (Doc.workspaceId doc) (skeleton (docRows d)) id y).
  { intros y Hy. apply inSubtree_below. naive_solver. }
  destruct (archivedRow_lookup _ _ _ id Hrel) as [Hid _].
  destruct (Hid doc (Hsub id (or_introl eq_refl)) Hdoc) as (now0 & Hdoc1).
  destruct (archivedRow_lookup _ _ _ x Hrel) as [Hxa _].
  destruct (Hxa doc0 (Hsub x (or_intror Hx)) Hx0) as (now & Hx1).
  assert (Hne : x <> id).
  { eapply below_lt in Hx; [|by apply wellFormed_ordered]. lia. }
  eexists d1, _, now, _. split; [done|].
  split; [by eapply (restore_runs env' id d1)|]. simpl.
  rewrite !lookupDoc_patchRows, bool_decide_eq_false_2 by done.
  rewrite bool_decide_eq_true_2 by done. rewrite Hdoc1. done.
Qed.

Lemma docs_restore_after_archive_witness :
  exists d1 d2 now doc',
    Docs.archive memberEnv 5 0 exampleDocs = Some (Returned 0, d1)
    /\ Docs.restore memberEnv 0 d1 = Some (Returned 0, d2)
    /\ lookupDoc 2 (docRows d2)
       = Some (setArchived true now (exampleDoc (lit "Todo") (Some 1)))
    /\ lookupDoc 0 (docRows d2) = Some doc'
    /\ Doc.isArchived doc' = false.
Proof.
  apply (docs_restore_after_archive memberEnv memberEnv 5 0 exampleDocs
           (exampleDoc (lit "Notes") None) (mkMember 1 7 admin)
           (mkMember 1 7 admin) 2 (exampleDoc (lit "Todo") (Some 1))).
  - exact exampleDocs_wellFormed.
  - reflexivity.
  - reflexivity.
  - reflexivity.
  - simpl. lia.
  - exists 1. split.
    + unfold childIn. simpl. set_solver.
    + eapply rtc_l; [|apply rtc_refl]. unfold childIn. simpl. set_solver.
  - reflexivity.
Defined.

Lemma create_runs env title ws parent d row :
  requireWorkspaceMember (auth env) ws = Returned row ->
  (forall p, parent = Some p ->
     exists pd, lookupDoc p (docRows d) = Some pd
                /\ Doc.workspaceId pd = ws) ->
  exists userId,
    requireAuth (auth env) = Returned userId
    /\ Docs.create env title ws parent d =
       Some (Returned (nextDocId d),
             mkDocsDb (docRows d
                       ++ [(nextDocId d,
                            Doc.mk title ws parent None None None false false
                                   userId (clock env 0) (clock env 0))])
                      (nextDocId d + 1)).
Proof.
  intros Hmem Hpar.
  destruct (requireWorkspaceMember_auth _ _ _ Hmem) as [u Hu].
  exists u. split; [done|].
  unfold Docs.create, transaction, lift, Docs.createHandler, bind,
    liftOutcome, db_get, dateNow, db_insert, throw, ret. simpl.
  rewrite Hu, Hmem. destruct parent as [pid|]; [|done]. simpl.
  destruct (Hpar pid eq_refl) as (pd & -> & Hws).
  by rewrite bool_decide_eq_false_2 by (by intros ?).
Qed.

(** X24. [create] under a parent that is not in the table, or is in
    another workspace, throws [Invalid parent document.] and writes
    nothing, also for a member of the workspace. *)
Theorem docs_create_invalid_parent env title ws pid d row :
  requireWorkspaceMember (auth env) ws = Returned row ->
  (forall pd, lookupDoc pid (docRows d) = Some pd ->
              Doc.workspaceId pd <> ws) ->
  Docs.create env title ws (Some pid) d
  = Some (Thrown (Error (lit "Invalid parent document.")), d).
Proof.
  intros Hmem Hpar.
  destruct (requireWorkspaceMember_auth _ _ _ Hmem) as [u Hu].
  unfold Docs.create, transaction, lift, Docs.createHandler, bind,
    liftOutcome, db_get, dateNow, db_insert, throw, ret. simpl.
  rewrite Hu, Hmem.
  destruct (lookupDoc pid (docRows d)) as [pd|] eqn:E; [|done].
  by rewrite bool_decide_eq_true_2 by (by apply Hpar).
Qed.

Lemma docs_create_invalid_parent_witness :
  Docs.create memberEnv (lit "Orphan") 1 (Some 9) exampleDocs
  = Some (Thrown (Error (lit "Invalid parent document.")), exampleDocs).
Proof.
  apply (docs_create_invalid_parent memberEnv (lit "Orphan") 1 9 exampleDocs
           (mkMember 1 7 admin)); [reflexivity|].
  intros pd Hpd. vm_compute in Hpd. discriminate Hpd.
Defined.

(** X25. [create] by a member, at the top level or under a parent of the
    workspace, returns a new id in a well-formed table. The new document is
    in the workspace under that parent, neither archived nor published,
    without content, cover or icon, created by the caller; it is the first
    of the listing of its parent; and every other document is as it was. *)
Theorem docs_create_adds_one env title ws parent d row listed :
  wellFormed d ->
  requireWorkspaceMember (auth env) ws = Returned row ->
  (forall p, parent = Some p ->
     exists pd, lookupDoc p (docRows d) = Some pd
                /\ Doc.workspaceId pd = ws) ->
  Docs.list (auth env) ws parent d = Returned listed ->
  exists d' userId now,
    let doc := Doc.mk title ws parent None None None false false
                      userId now now in
    Docs.create env title ws parent d = Some (Returned (nextDocId d), d')
    /\ requireAuth (auth env) = Returned userId
    /\ lookupDoc (nextDocId d) (docRows d) = None
    /\ lookupDoc (nextDocId d) (docRows d') = Some doc
    /\ (forall x, x <> nextDocId d ->
          lookupDoc x (docRows d') = lookupDoc x (docRows d))
    /\ Docs.list (auth env) ws parent d'
       = Returned ((nextDocId d, doc) :: listed).
Proof.
  intros Hwf Hmem Hpar Hlist.
  destruct (create_runs env title ws parent d row Hmem Hpar)
    as (u & Hu & Hrun).
  assert (Hfresh : lookupDoc (nextDocId d) (docRows d) = None).
  { apply lookupDoc_None. intros ([i x] & Heq & Hin)%list_elem_of_fmap.
    simpl in Heq. subst i. apply (wf_below _ Hwf) in Hin. lia. }
  eexists _, u, (clock env 0). cbv zeta. split; [exact Hrun|].
  split; [done|]. split; [done|]. simpl. split; [|split].
  - by rewrite lookupDoc_snoc, bool_decide_eq_true_2.
  - intros x Hx. by rewrite lookupDoc_snoc, bool_decide_eq_false_2.
  - revert Hlist. unfold Docs.list, andThen. rewrite Hmem. simpl.
    intros [= <-]. unfold byWorkspaceParent.
    rewrite filter_app, filter_app, reverse_app.
    rewrite filter_cons_True by done.
    rewrite filter_cons_True by done. done.
Qed.

Lemma docs_create_adds_one_witness :
  exists d' userId now,
    let doc := Doc.mk (lit "Plan") 1 (Some 0) None None None false false
                      userId now now in
    Docs.create memberEnv (lit "Plan") 1 (Some 0) exampleDocs
    = Some (Returned 4, d')
    /\ requireAuth (auth memberEnv) = Returned userId
    /\ lookupDoc 4 (docRows exampleDocs) = None
    /\ lookupDoc 4 (docRows d') = Some doc
    /\ (forall x, x <> 4 ->
          lookupDoc x (docRows d') = lookupDoc x (docRows exampleDocs))
    /\ Docs.list (auth memberEnv) 1 (Some 0) d'
       = Returned [(4, doc); (1, exampleDoc (lit "Draft") (Some 0))].
Proof.
  apply (docs_create_adds_one memberEnv (lit "Plan") 1 (Some 0) exampleDocs
           (mkMember 1 7 admin)).
  - exact exampleDocs_wellFormed.
  - reflexivity.
  - intros p [= <-]. by eexists.
  - reflexivity.
Defined.

(** X26. Removing a document of a well-formed table, by a member of its
    workspace and with fuel above the id counter, returns the id and
    deletes the document and every descendant; every other row is as it
    was, and no id is given out again. *)
Theorem docs_remove_subtree env fuel id d doc row :
  wellFormed d ->
  lookupDoc id (docRows d) = Some doc ->
  requireWorkspaceMember (auth env) (Doc.workspaceId doc) = Returned row ->
  (N.to_nat (nextDocId d) < fuel)%nat ->
  exists d',
    Docs.remove env fuel id d = Some (Returned id, d')
    /\ nextDocId d' = nextDocId d
    /\ (forall x,
          inSubtree (Doc.workspaceId doc) (skeleton (docRows d)) id x ->
          lookupDoc x (docRows d') = None)
    /\ (forall x,
          ~ inSubtree (Doc.workspaceId doc) (skeleton (docRows d)) id x ->
          lookupDoc x (docRows d') = lookupDoc x (docRows d)).
Proof.
  intros Hwf Hdoc Hmem Hfuel.
  destruct (remove_runs env fuel id d doc row Hwf Hdoc Hmem Hfuel)
    as (d' & Hrun & Hn & Hrel).
  exists d'. split; [done|]. split; [done|].
  split; intros x; by apply (removedRel_lookup _ _ _ x Hrel).
Qed.

Lemma docs_remove_subtree_witness :
  exists d',
    Docs.remove memberEnv 5 0 exampleDocs = Some (Returned 0, d')
    /\ nextDocId d' = nextDocId exampleDocs
    /\ (forall x,
          inSubtree 1 (skeleton (docRows exampleDocs)) 0 x ->
          lookupDoc x (docRows d') = None)
    /\ (forall x,
          ~ inSubtree 1 (skeleton (docRows exampleDocs)) 0 x ->
          lookupDoc x (docRows d') = lookupDoc x (docRows exampleDocs)).
Proof.
  apply (docs_remove_subtree memberEnv 5 0 exampleDocs
           (exampleDoc (lit "Notes") None) (mkMember 1 7 admin)).
  - exact exampleDocs_wellFormed.
  - reflexivity.
  - reflexivity.
  - simpl. lia.
Defined.

(** X27. Every table that the mutations produce from the empty table is
    well-formed: ids are unique and below the counter, every document is
    younger than the parent it names, and a parent that is in the table is
    in the workspace of its child. *)
Theorem docs_reachable_wellFormed d : docsReachable d -> wellFormed d.
Proof.
  induction 1 as [|env c d o d' _ IH Hrun].
  - apply wellFormed_empty.
  - exact (runDocs_wellFormed env c d o d' IH Hrun).
Qed.

Lemma docs_reachable_wellFormed_witness : wellFormed exampleDocs.
Proof.
  apply docs_reachable_wellFormed, exampleDocs_reachable.
Defined.

Lemma requireWorkspaceMember_thrown ctx ws e :
  requireWorkspaceMember ctx ws = Thrown e ->
  requireAuth ctx = Thrown e \/ exists userId, requireAuth ctx = Returned userId.
Proof.
  unfold requireWorkspaceMember, andThen.
  destruct (requireAuth ctx) as [u|e']; [right; by exists u|].
  intros [= <-]. by left.
Qed.

(** X28. On a well-formed table, so on every table the mutations produce,
    every mutation returns or throws, whoever calls it and on whatever
    document: with fuel above the id counter the recursion of [archive]
    and of [remove] comes to an end. *)
Theorem docs_mutations_return env c d :
  wellFormed d ->
  (forall fuel, commandFuel c = Some fuel ->
                (N.to_nat (nextDocId d) < fuel)%nat) ->
  exists o d', runDocs env c d = Some (o, d').
Proof.
  intros Hwf Hfuel. destruct c as [title ws parent|fuel id|id|fuel id]; simpl.
  - unfold Docs.create, transaction, lift.
    destruct (Docs.createHandler _ _ _ _ _) as [[a|e] s]; by eexists _, _.
  - specialize (Hfuel fuel eq_refl).
    destruct (requireAuth (auth env)) as [u|e] eqn:Hu;
      [|eexists _, _; unfold Docs.archive, transaction, Docs.archiveHandler;
        erewrite dbind_thrown; [done|];
        unfold lift, liftOutcome; by rewrite Hu].
    destruct (lookupDoc id (docRows d)) as [doc|] eqn:Hdoc;
      [|eexists _, _; unfold Docs.archive, transaction, Docs.archiveHandler;
        erewrite dbind_returned; [|unfold lift, liftOutcome; by rewrite Hu];
        erewrite dbind_returned;
          [|unfold lift, db_get; simpl; by rewrite Hdoc]; done].
    destruct (requireWorkspaceMember (auth env) (Doc.workspaceId doc))
      as [row|e] eqn:Hmem.
    + destruct (archive_runs env fuel id d doc row Hwf Hdoc Hmem Hfuel)
        as (d' & -> & _). by eexists _, _.
    + eexists _, _. unfold Docs.archive, transaction, Docs.archiveHandler.
      erewrite dbind_returned; [|unfold lift, liftOutcome; by rewrite Hu].
      erewrite dbind_returned; [|unfold lift, db_get; simpl; by rewrite Hdoc].
      cbv beta iota.
      erewrite dbind_thrown; [done|]. unfold lift, liftOutcome. by rewrite Hmem.
  - unfold Docs.restore, transaction, lift.
    destruct (Docs.restoreHandler _ _ _) as [[a|e] s]; by eexists _, _.
  - specialize (Hfuel fuel eq_refl).
    destruct (requireAuth (auth env)) as [u|e] eqn:Hu;
      [|eexists _, _; unfold Docs.remove, transaction, Docs.removeHandler;
        erewrite dbind_thrown; [done|];
        unfold lift, liftOutcome; by rewrite Hu].
    destruct (lookupDoc id (docRows d)) as [doc|] eqn:Hdoc;
      [|eexists _, _; unfold Docs.remove, transaction, Docs.removeHandler;
        erewrite dbind_returned; [|unfold lift, liftOutcome; by rewrite Hu];
        erewrite dbind_returned;
          [|unfold lift, db_get; simpl; by rewrite Hdoc]; done].
    destruct (requireWorkspaceMember (auth env) (Doc.workspaceId doc))
      as [row|e] eqn:Hmem.
    + destruct (remove_runs env fuel id d doc row Hwf Hdoc Hmem Hfuel)
        as (d' & -> & _). by eexists _, _.
    + eexists _, _. unfold Docs.remove, transaction, Docs.removeHandler.
      erewrite dbind_returned; [|unfold lift, liftOutcome; by rewrite Hu].
      erewrite dbind_returned; [|unfold lift, db_get; simpl; by rewrite Hdoc].
      cbv beta iota.
      erewrite dbind_thrown; [done|]. unfold lift, liftOutcome. by rewrite Hmem.
Qed.

Lemma docs_mutations_return_witness :
  exists o d', runDocs outsiderEnv (DocRemove 5 0) exampleDocs = Some (o, d').
Proof.
  apply (docs_mutations_return outsiderEnv (DocRemove 5 0) exampleDocs).
  - exact exampleDocs_wellFormed.
  - intros fuel [= <-]. simpl. lia.
Defined.

(** X29. No mutation writes for a caller who is not a member of the
    workspace concerned, that of the arguments for [create] and that of
    the document for the others: the mutation throws what
    [requireWorkspaceMember] throws for that workspace, and the table is as
    it was. This needs no fuel. *)
Theorem docs_members_only env c d ws e :
  targetWorkspace c d = Some ws ->
  requireWorkspaceMember (auth env) ws = Thrown e ->
  runDocs env c d = Some (Thrown e, d).
Proof.
  intros Hws Hmem.
  destruct c as [title ws' parent|fuel id|id|fuel id]; simpl in *.
  - injection Hws as ->.
    unfold Docs.create, transaction, lift, Docs.createHandler, bind,
      liftOutcome.
    destruct (requireWorkspaceMember_thrown _ _ _ Hmem) as [->|[u ->]];
      [done|]. by rewrite Hmem.
  - destruct (lookupDoc id (docRows d)) as [doc|] eqn:Hdoc; [|done].
    injection Hws as <-.
    unfold Docs.archive, transaction, Docs.archiveHandler.
    destruct (requireWorkspaceMember_thrown _ _ _ Hmem) as [Hu|[u Hu]].
    + erewrite dbind_thrown; [done|]. unfold lift, liftOutcome. by rewrite Hu.
    + erewrite dbind_returned; [|unfold lift, liftOutcome; by rewrite Hu].
      erewrite dbind_returned; [|unfold lift, db_get; simpl; by rewrite Hdoc].
      cbv beta iota.
      erewrite dbind_thrown; [done|]. unfold lift, liftOutcome. by rewrite Hmem.
  - destruct (lookupDoc id (docRows d)) as [doc|] eqn:Hdoc; [|done].
    injection Hws as <-.
    unfold Docs.restore, transaction, lift, Docs.restoreHandler, bind,
      liftOutcome, db_get. simpl.
    destruct (requireWorkspaceMember_thrown _ _ _ Hmem) as [->|[u ->]];
      [done|]. by rewrite Hdoc, Hmem.
  - destruct (lookupDoc id (docRows d)) as [doc|] eqn:Hdoc; [|done].
    injection Hws as <-.
    unfold Docs.remove, transaction, Docs.removeHandler.
    destruct (requireWorkspaceMember_thrown _ _ _ Hmem) as [Hu|[u Hu]].
    + erewrite dbind_thrown; [done|]. unfold lift, liftOutcome. by rewrite Hu.
    + erewrite dbind_returned; [|unfold lift, liftOutcome; by rewrite Hu].
      erewrite dbind_returned; [|unfold lift, db_get; simpl; by rewrite Hdoc].
      cbv beta iota.
      erewrite dbind_thrown; [done|]. unfold lift, liftOutcome. by rewrite Hmem.
Qed.

Lemma docs_members_only_witness :
  runDocs outsiderEnv (DocRemove 0 0) exampleDocs
  = Some (Thrown (Error (lit "You are not a member of this workspace.")),
          exampleDocs).
Proof.
  apply (docs_members_only outsiderEnv (DocRemove 0 0) exampleDocs 1);
    reflexivity.
Defined.

(** X30. For a signed-in caller, [archive], [restore] and [remove] of an
    id that is not in the table throw [Document not found.] and write
    nothing; so a document that was removed cannot be archived, restored
    or removed again. *)
Theorem docs_unknown_document env c d id userId :
  targetDocument c = Some id ->
  requireAuth (auth env) = Returned userId ->
  lookupDoc id (docRows d) = None ->
  runDocs env c d = Some (Thrown (Error (lit "Document not found.")), d).
Proof.
  intros Hid Hu Hdoc.
  destruct c as [title ws' parent|fuel id'|id'|fuel id']; simpl in *;
    [done| | |]; injection Hid as ->.
  - unfold Docs.archive, transaction, Docs.archiveHandler.
    erewrite dbind_returned; [|unfold lift, liftOutcome; by rewrite Hu].
    erewrite dbind_returned; [|unfold lift, db_get; simpl; by rewrite Hdoc].
    done.
  - unfold Docs.restore, transaction, lift, Docs.restoreHandler, bind,
      liftOutcome, db_get. simpl. by rewrite Hu, Hdoc.
  - unfold Docs.remove, transaction, Docs.removeHandler.
    erewrite dbind_returned; [|unfold lift, liftOutcome; by rewrite Hu].
    erewrite dbind_returned; [|unfold lift, db_get; simpl; by rewrite Hdoc].
    done.
Qed.

Lemma docs_unknown_document_witness :
  runDocs memberEnv (DocRestore 9) exampleDocs
  = Some (Thrown (Error (lit "Document not found.")), exampleDocs).
Proof.
  apply (docs_unknown_document memberEnv (DocRestore 9) exampleDocs 9 7);
    reflexivity.
Defined.
